(** * SAC optimizer with the MEDE diversity discriminator

    A shallow embedding of [mlagents/trainers/sac/optimizer_torch.py]
    (classes [DiverseNetworkVariational] and [TorchSACOptimizer]) and the
    properties of its loss assembly, target entropy, saliency dropout,
    adaptive KL weight, reward centering and update ordering.

    Numbers.  Tensor elements are exact extended reals ([Float.fl]): a real,
    plus or minus infinity, or NaN, with the IEEE rules for the special
    values and no rounding.  Rounding error is outside of this development.

    Tensors.  A tensor of shape (batch,) or (batch, 1) is a list of elements,
    a tensor of shape (batch, k) is a list of rows.  Operations between
    tensors fail with [RuntimeError] where torch refuses the shapes.

    Gradients.  A tensor carries the flag [requires_grad]; an operation run
    with gradient mode off (inside [with torch.no_grad()]) yields a tensor
    that does not require gradients, otherwise the result requires them as
    soon as one operand does. *)

From Stdlib Require Import Reals Lra Lia String ZArith Bool Arith List.
Import ListNotations.

Open Scope R_scope.

(** ** Exceptions *)

Inductive exn : Type :=
| KeyError (key : string)
| IndexError
| RuntimeError
| ZeroDivisionError
| ValueError
| TypeError
| AttributeError
| AssertionError
| UnityTrainerException (msg : string).

Inductive exc (A : Type) : Type :=
| OK (a : A)
| Raise (e : exn).

Arguments OK {A} a.
Arguments Raise {A} e.

Definition bind {A B : Type} (m : exc A) (k : A -> exc B) : exc B :=
  match m with
  | OK a => k a
  | Raise e => Raise e
  end.

Notation "x <- m ;; k" := (bind m (fun x => k))
  (at level 61, m at next level, right associativity).
Notation "' pat <- m ;; k" := (bind m (fun x => match x with pat => k end))
  (at level 61, pat pattern, m at next level, right associativity).

Fixpoint map_e {A B : Type} (f : A -> exc B) (xs : list A) : exc (list B) :=
  match xs with
  | [] => OK []
  | x :: xs' => y <- f x ;; ys <- map_e f xs' ;; OK (y :: ys)
  end.

(** [for i, x in enumerate(xs)], collecting the results, counting from [i]. *)
Fixpoint map_enum_e {A B : Type} (f : nat -> A -> exc B) (i : nat) (xs : list A)
  : exc (list B) :=
  match xs with
  | [] => OK []
  | x :: xs' => y <- f i x ;; ys <- map_enum_e f (S i) xs' ;; OK (y :: ys)
  end.

Definition list_get {A : Type} (xs : list A) (i : nat) : exc A :=
  match nth_error xs i with
  | Some x => OK x
  | None => Raise IndexError
  end.

(** ** Python dictionaries, in insertion order *)

Module Dict.

Definition t (V : Type) : Type := list (string * V).

Fixpoint get {V : Type} (d : t V) (k : string) : exc V :=
  match d with
  | [] => Raise (KeyError k)
  | (k', v) :: d' => if String.eqb k' k then OK v else get d' k
  end.

Fixpoint set {V : Type} (d : t V) (k : string) (v : V) : t V :=
  match d with
  | [] => [(k, v)]
  | (k', v') :: d' =>
      if String.eqb k' k then (k', v) :: d' else (k', v') :: set d' k v
  end.

Definition keys {V : Type} (d : t V) : list string := map fst d.
Definition values {V : Type} (d : t V) : list V := map snd d.

(** [d.update(e)]: the entries of [e], in their order, set in [d]. *)
Definition update {V : Type} (d e : t V) : t V :=
  fold_left (fun acc kv => set acc (fst kv) (snd kv)) e d.

End Dict.

(** ** Tensor elements *)

Module Float.

Inductive fl : Type :=
| Fin (r : R)
| PInf
| NInf
| NaN.

(** The result that the sign of a finite factor selects; zero gives NaN
    (0 * inf) . *)
Definition by_sign (r : R) (pos neg : fl) : fl :=
  if Rlt_dec 0 r then pos else if Rlt_dec r 0 then neg else NaN.

Definition fneg (x : fl) : fl :=
  match x with
  | Fin r => Fin (- r)
  | PInf => NInf
  | NInf => PInf
  | NaN => NaN
  end.

Definition fadd (x y : fl) : fl :=
  match x, y with
  | NaN, _ | _, NaN => NaN
  | Fin a, Fin b => Fin (a + b)
  | PInf, NInf | NInf, PInf => NaN
  | PInf, _ | _, PInf => PInf
  | NInf, _ | _, NInf => NInf
  end.

Definition fsub (x y : fl) : fl := fadd x (fneg y).

Definition fmul (x y : fl) : fl :=
  match x, y with
  | NaN, _ | _, NaN => NaN
  | Fin a, Fin b => Fin (a * b)
  | Fin a, PInf | PInf, Fin a => by_sign a PInf NInf
  | Fin a, NInf | NInf, Fin a => by_sign a NInf PInf
  | PInf, PInf | NInf, NInf => PInf
  | PInf, NInf | NInf, PInf => NInf
  end.

Definition fdiv (x y : fl) : fl :=
  match x, y with
  | NaN, _ | _, NaN => NaN
  | Fin a, Fin b =>
      if Req_dec_T b 0 then by_sign a PInf NInf else Fin (a / b)
  | Fin _, _ => Fin 0
  | PInf, Fin b => if Rlt_dec b 0 then NInf else PInf
  | NInf, Fin b => if Rlt_dec b 0 then PInf else NInf
  | _, _ => NaN
  end.

(** [torch.min] and [torch.max] of two tensors, elementwise: NaN wins. *)
Definition fmin (x y : fl) : fl :=
  match x, y with
  | NaN, _ | _, NaN => NaN
  | Fin a, Fin b => Fin (Rmin a b)
  | NInf, _ | _, NInf => NInf
  | PInf, z | z, PInf => z
  end.

Definition fmax (x y : fl) : fl :=
  match x, y with
  | NaN, _ | _, NaN => NaN
  | Fin a, Fin b => Fin (Rmax a b)
  | PInf, _ | _, PInf => PInf
  | NInf, z | z, NInf => z
  end.

Definition fln (x : fl) : fl :=
  match x with
  | Fin a => if Rlt_dec 0 a then Fin (ln a) else if Rlt_dec a 0 then NaN else NInf
  | PInf => PInf
  | NInf | NaN => NaN
  end.

Definition fexp (x : fl) : fl :=
  match x with
  | Fin a => Fin (exp a)
  | PInf => PInf
  | NInf => Fin 0
  | NaN => NaN
  end.

Definition fabs (x : fl) : fl :=
  match x with
  | Fin a => Fin (Rabs a)
  | PInf | NInf => PInf
  | NaN => NaN
  end.

Definition isinf (x : fl) : bool :=
  match x with PInf | NInf => true | _ => false end.

Definition isnan (x : fl) : bool :=
  match x with NaN => true | _ => false end.

(** Truth value of an element, as [torch.any] reads it. *)
Definition nonzero (x : fl) : bool :=
  match x with
  | Fin a => if Req_dec_T a 0 then false else true
  | _ => true
  end.

Definition of_nat (n : nat) : fl := Fin (INR n).
Definition of_Z (z : Z) : fl := Fin (IZR z).

(** [x > y]: false as soon as one of the two is NaN. *)
Definition fgt (x y : fl) : bool :=
  match x, y with
  | Fin a, Fin b => if Rlt_dec b a then true else false
  | Fin _, NInf => true
  | PInf, Fin _ => true
  | PInf, NInf => true
  | _, _ => false
  end.

End Float.
Export Float.

(** ** Tensors *)

Module Torch.

Abbreviation vec := (list fl) (only parsing).
Abbreviation mat := (list (list fl)) (only parsing).

Record Tensor (A : Type) : Type := mkTensor {
  data : A;
  requires_grad : bool
}.

Arguments mkTensor {A} data requires_grad.
Arguments data {A} t.
Arguments requires_grad {A} t.

(** A Python number or a configuration value: never tracked. *)
Definition constant {A : Type} (a : A) : Tensor A := mkTensor a false.

Definition detach {A : Type} (a : Tensor A) : Tensor A :=
  mkTensor (data a) false.

(** Operations under a gradient mode.  [grad_enabled = false] is the body
    of [with torch.no_grad()]. *)
Section GradMode.

Variable grad_enabled : bool.

Definition op1 {A B : Type} (f : A -> B) (a : Tensor A) : Tensor B :=
  mkTensor (f (data a)) (grad_enabled && requires_grad a).

Definition op2 {A B C : Type} (f : A -> B -> C) (a : Tensor A) (b : Tensor B)
  : Tensor C :=
  mkTensor (f (data a) (data b))
           (grad_enabled && (requires_grad a || requires_grad b)).

Definition op1e {A B : Type} (f : A -> exc B) (a : Tensor A) : exc (Tensor B) :=
  y <- f (data a) ;;
  OK (mkTensor y (grad_enabled && requires_grad a)).

Definition op2e {A B C : Type} (f : A -> B -> exc C)
           (a : Tensor A) (b : Tensor B) : exc (Tensor C) :=
  y <- f (data a) (data b) ;;
  OK (mkTensor y (grad_enabled && (requires_grad a || requires_grad b))).

(** An operation over a list of tensors ([torch.stack], [torch.cat]). *)
Definition opn {A B : Type} (f : list A -> exc B) (ts : list (Tensor A))
  : exc (Tensor B) :=
  y <- f (map data ts) ;;
  OK (mkTensor y (grad_enabled && existsb requires_grad ts)).

End GradMode.

(** *** Elements of one tensor *)

Definition fsum (xs : vec) : fl := fold_left fadd xs (Fin 0).

(** [torch.mean]: NaN on an empty tensor (0 / 0). *)
Definition fmean (xs : vec) : fl := fdiv (fsum xs) (of_nat (length xs)).

(** [torch.min(t)] and [torch.max(t)] over all elements; an empty tensor
    has none. *)
Definition min_all (xs : vec) : exc fl :=
  match xs with
  | [] => Raise RuntimeError
  | x :: xs' => OK (fold_left fmin xs' x)
  end.

Definition max_all (xs : vec) : exc fl :=
  match xs with
  | [] => Raise RuntimeError
  | x :: xs' => OK (fold_left fmax xs' x)
  end.

Definition any (xs : vec) : bool := existsb nonzero xs.

(** *** Broadcasting *)

Fixpoint zip_with_e {A B C : Type} (f : A -> B -> exc C)
         (xs : list A) (ys : list B) : exc (list C) :=
  match xs, ys with
  | [], [] => OK []
  | x :: xs', y :: ys' =>
      z <- f x y ;; zs <- zip_with_e f xs' ys' ;; OK (z :: zs)
  | _, _ => Raise RuntimeError
  end.

(** Along one dimension: sizes agree, or one of them is 1. *)
Definition broadcast {A B C : Type} (f : A -> B -> exc C)
           (xs : list A) (ys : list B) : exc (list C) :=
  match xs, ys with
  | [x], _ => map_e (f x) ys
  | _, [y] => map_e (fun x => f x y) xs
  | _, _ => zip_with_e f xs ys
  end.

(** Elementwise operation of two tensors of shape (n,). *)
Definition vop (f : fl -> fl -> fl) (a b : vec) : exc vec :=
  broadcast (fun x y => OK (f x y)) a b.

(** Elementwise operation of two tensors of shape (n, k). *)
Definition mop (f : fl -> fl -> fl) (a b : mat) : exc mat :=
  broadcast (vop f) a b.

(** In-place [a += b]: [b] is broadcast to the shape of [a]. *)
Definition iadd (a b : vec) : exc vec :=
  match b with
  | [y] => OK (map (fun x => fadd x y) a)
  | _ => zip_with_e (fun x y => OK (fadd x y)) a b
  end.

(** A one-element tensor or Python number against every element. *)
Definition smul (c : fl) (a : vec) : vec := map (fmul c) a.
Definition msmul (c : fl) (a : mat) : mat := map (smul c) a.

(** [torch.sum(t, dim=1)], with or without [keepdim]. *)
Definition sum_dim1 (a : mat) : vec := map fsum a.
Definition mean_dim1 (a : mat) : vec := map fmean a.

(** [torch.stack(ts)]: at least one tensor, all of one shape. *)
Definition stack (ts : list vec) : exc (list vec) :=
  match ts with
  | [] => Raise RuntimeError
  | t :: ts' =>
      if forallb (fun u => Nat.eqb (length u) (length t)) ts'
      then OK ts else Raise RuntimeError
  end.

(** [torch.mean(s, dim=0)] of a stack of tensors of shape (n,) or (n, 1). *)
Definition mean_dim0 (s : list vec) : vec :=
  match s with
  | [] => []
  | t :: _ =>
      map (fun j => fmean (map (fun u => nth j u NaN) s)) (seq 0 (length t))
  end.

(** [torch.mean(torch.stack(ts), axis=0)] of tensors of shape (n,). *)
Definition mean_stack_vec (ts : list vec) : exc vec :=
  s <- stack ts ;;
  OK (mean_dim0 s).

(** The same for tensors of shape (n, k). *)
Definition mean_stack_mat (ts : list mat) : exc mat :=
  match ts with
  | [] => Raise RuntimeError
  | t :: _ =>
      if forallb (fun u => Nat.eqb (length u) (length t)) ts
      then map_e (fun r => mean_stack_vec (map (fun u => nth r u []) ts))
                 (seq 0 (length t))
      else Raise RuntimeError
  end.

(** [torch.mean(torch.stack(xs))] of scalars. *)
Definition mean_scalars (xs : list fl) : exc fl :=
  match xs with
  | [] => Raise RuntimeError
  | _ => OK (fmean xs)
  end.

(** [torch.nn.functional.mse_loss] with its default reduction: the mean of
    the squared differences, a scalar. *)
Definition mse_loss (input target : vec) : exc fl :=
  d <- vop fsub input target ;;
  OK (fmean (map (fun x => fmul x x) d)).

(** [torch.nn.functional.one_hot(index, num_classes)] for one index. *)
Definition one_hot (num_classes : nat) (index : nat) : exc vec :=
  if Nat.ltb index num_classes
  then OK (map (fun j => if Nat.eqb j index then Fin 1 else Fin 0)
               (seq 0 num_classes))
  else Raise RuntimeError.

(** A tensor of integers of shape (batch, cols). *)
Record LongTensor : Type := mkLong {
  cols : nat;
  rows : list (list nat)
}.

(** [t.T]: the columns. *)
Definition transpose (t : LongTensor) : list (list nat) :=
  map (fun j => map (fun r => nth j r 0%nat) (rows t)) (seq 0 (cols t)).

(** A scalar or a tensor of shape (n,), for helpers that take both. *)
Inductive anytensor : Type :=
| T0 (x : fl)
| T1 (v : vec).

(** The output of a Q head: of shape (batch,) when it has one output per
    stream, of shape (batch, k) otherwise.  Only the shapes of the
    collaborators' contract are followed; where torch would broadcast a
    tensor of another rank, the model reports [RuntimeError]. *)
Inductive tensor : Type :=
| Vec (v : vec)
| Mat (m : mat).

(** [torch.mean(torch.stack(ts), axis=0)] of outputs of Q heads. *)
Definition mean_stack (ts : list tensor) : exc tensor :=
  match ts with
  | Mat _ :: _ =>
      ms <- map_e (fun t => match t with Mat m => OK m | Vec _ => Raise RuntimeError end)
                  ts ;;
      m <- mean_stack_mat ms ;;
      OK (Mat m)
  | _ =>
      vs <- map_e (fun t => match t with Vec v => OK v | Mat _ => Raise RuntimeError end)
                  ts ;;
      v <- mean_stack_vec vs ;;
      OK (Vec v)
  end.

Definition as_vec (t : tensor) : exc vec :=
  match t with Vec v => OK v | Mat _ => Raise RuntimeError end.

Definition as_mat (t : tensor) : exc mat :=
  match t with Mat m => OK m | Vec _ => Raise RuntimeError end.

(** [t.squeeze()] down to shape (batch,). *)
Definition squeeze (t : tensor) : exc vec :=
  match t with
  | Vec v => OK v
  | Mat m =>
      map_e (fun row => match row with [x] => OK x | _ => Raise RuntimeError end) m
  end.

(** [torch.softmax] along one row: the exponentials of the elements less
    their maximum, over the sum of these exponentials.  An empty row stays
    empty.  The exponential is the exact one of the reals: it is never
    zero, where the exponential of float32 rounds to zero for an element
    far below the greatest, so nothing below relies on an element of a
    softmax being other than zero. *)
Definition softmax (row : vec) : vec :=
  match max_all row with
  | Raise _ => []
  | OK m =>
      let e := map (fun x => fexp (fsub x m)) row in
      map (fun x => fdiv x (fsum e)) e
  end.

End Torch.
Export Torch.

(** ** ModelUtils *)

Module ModelUtils.

(** Modelled from the spec: [ModelUtils.break_into_branches] is not among
    the sources; the spec (section 4.1) has it split the concatenated
    per-branch outputs "into branches by cardinality".  A branch is a column
    slice, as a Python slice: short where the row runs out. *)
Fixpoint break_row {A : Type} (row : list A) (action_size : list nat) : list (list A) :=
  match action_size with
  | [] => []
  | n :: rest => firstn n row :: break_row (skipn n row) rest
  end.

Definition break_into_branches (concatenated : mat) (action_size : list nat)
  : list mat :=
  map (fun i => map (fun row => nth i (break_row row action_size) []) concatenated)
      (seq 0 (length action_size)).

(** Modelled from the spec: [ModelUtils.actions_to_onehot] is not among the
    sources; the spec (section 4.1) speaks of "the corresponding one-hot
    slice" of each branch.  One (batch, cardinality) tensor per column of
    the discrete actions. *)
Definition actions_to_onehot (discrete_actions : LongTensor)
           (action_size : list nat) : exc (list mat) :=
  map_enum_e (fun i act =>
                n <- list_get action_size i ;;
                map_e (one_hot n) act)
             0 (transpose discrete_actions).

(** Modelled from the spec: [ModelUtils.soft_update] is not among the
    sources; the spec (section 4.2) gives the rule
    [target <- tau * critic + (1 - tau) * target], "elementwise over every
    parameter and buffer".  The target is changed in place: what it has
    beyond the source stays. *)
Fixpoint soft_update (source target : vec) (tau : fl) : vec :=
  match source, target with
  | s :: source', t :: target' =>
      fadd (fmul tau s) (fmul (fsub (Fin 1) tau) t) :: soft_update source' target' tau
  | _, _ => target
  end.

(** Modelled from the spec: [ModelUtils.masked_mean] is not among the
    sources; the spec names it for the mean of a loss under the validity
    mask.  The sum of the entries the mask keeps over their number, the
    number clamped to at least 1; a scalar counts once for every kept entry.
    The optimizer below takes the helper as an argument; this one is an
    instance. *)
Definition mask_count (masks : list bool) : fl :=
  of_nat (length (filter (fun b => b) masks)).

Definition masked_mean (t : anytensor) (masks : list bool) : exc fl :=
  let count := fmax (mask_count masks) (Fin 1) in
  match t with
  | T0 x =>
      OK (fdiv (fsum (map (fun m : bool => if m then x else fmul x (Fin 0)) masks))
               count)
  | T1 v =>
      s <- zip_with_e (fun x (m : bool) => OK (if m then x else fmul x (Fin 0)))
                      v masks ;;
      OK (fdiv (fsum s) count)
  end.

End ModelUtils.

(** ** Specs, actions and settings (collaborators' data, as the optimizer
    reads them) *)

Inductive ObservationType : Type :=
| DEFAULT
| GOAL_SIGNAL.

Definition is_goal (t : ObservationType) : bool :=
  match t with GOAL_SIGNAL => true | DEFAULT => false end.

Record ObservationSpec : Type := {
  shape : list nat;
  observation_type : ObservationType
}.

Record ActionSpec : Type := {
  continuous_size : nat;
  discrete_branches : list nat
}.

Definition discrete_size (a : ActionSpec) : nat := length (discrete_branches a).

Record BehaviorSpec : Type := {
  observation_specs : list ObservationSpec;
  action_spec : ActionSpec
}.

Module AgentAction.
Record t : Type := {
  continuous_tensor : Tensor mat;
  discrete_tensor : LongTensor
}.
End AgentAction.

Module ActionLogProbs.
Record t : Type := {
  continuous_tensor : Tensor mat;
  all_discrete_tensor : Tensor mat
}.
End ActionLogProbs.

(** The hyperparameters the optimizer and the discriminator read. *)
Module SACSettings.
Record t : Type := {
  tau : fl;
  init_entcoef : fl;
  learning_rate : fl;
  mede : bool;
  mede_use_actions : bool;
  mede_saliency_dropout : fl;
  mede_drop_actions : bool;
  mede_centered : bool;
  mede_mutual_information : fl;
  mede_dropout : fl;
  mede_encoder_dropout : fl;
  mede_noise : bool;
  mede_strength : fl;
  mede_for_policy_loss : bool;
  mede_weight_decay : fl
}.
End SACSettings.

(** [x > 0] on Python floats. *)
Definition positive (x : fl) : bool :=
  match x with
  | Fin a => if Rlt_dec 0 a then true else false
  | PInf => true
  | _ => false
  end.

(** [xs[i]] with Python's negative indices. *)
Definition py_index {A : Type} (xs : list A) (i : Z) : exc A :=
  if (0 <=? i)%Z then list_get xs (Z.to_nat i)
  else if (0 <=? Z.of_nat (length xs) + i)%Z
       then list_get xs (Z.to_nat (Z.of_nat (length xs) + i))
       else Raise IndexError.

(** [xs[i] = v]. *)
Fixpoint list_set {A : Type} (xs : list A) (i : nat) (v : A) : exc (list A) :=
  match xs, i with
  | [], _ => Raise IndexError
  | _ :: xs', O => OK (v :: xs')
  | x :: xs', S i' => r <- list_set xs' i' v ;; OK (x :: r)
  end.

Definition zeros (n : nat) : vec := repeat (Fin 0) n.

(** [[x for i, x in enumerate(xs) if i != skip]], counting from [i]. *)
Fixpoint drop_index {A : Type} (skip : Z) (i : nat) (xs : list A) : list A :=
  match xs with
  | [] => []
  | x :: xs' =>
      if (Z.of_nat i =? skip)%Z then drop_index skip (S i) xs'
      else x :: drop_index skip (S i) xs'
  end.

(** ** DiverseNetworkVariational *)

Module DiverseNetworkVariational.

Definition alpha : fl := Fin 0.0005.
Definition EPSILON : fl := Fin 1e-7.

Record t : Type := {
  _use_actions : bool;
  _max_saliency_dropout : fl;
  drop_actions : bool;
  centered_reward : bool;
  mutual_information : fl;
  observations_sal_drop : list vec;
  cont_actions_sal_drop : vec;
  _all_obs_specs : list ObservationSpec;
  diverse_size : nat;
  _dropout : option fl;
  _encoder_dropout : option fl;
  disc_sizes : list nat;
  cont_size : nat;
  _z_sigma : option (Tensor vec);
  _beta : option (Tensor fl);
  _diverse_index : Z;
  _max_index : nat
}.

(** The index that the loop over [enumerate(specs.observation_specs)]
    leaves in [_diverse_index]: the last goal signal, [start] if none. *)
Fixpoint find_diverse_index (start : Z) (i : nat) (specs : list ObservationSpec) : Z :=
  match specs with
  | [] => start
  | s :: specs' =>
      find_diverse_index
        (if is_goal (observation_type s) then Z.of_nat i else start) (S i) specs'
  end.

(** [hidden_units] is that of the encoder's [NetworkSettings], a default of
    a collaborator. *)
Definition __init__ (hidden_units : nat) (specs : BehaviorSpec) (params : SACSettings.t)
  : exc t :=
  let non_goal :=
    filter (fun s => negb (is_goal (observation_type s))) (observation_specs specs) in
  let sigma_start := Fin 0.5 in
  let beta_start := Fin 0.0 in
  diverse_spec <-
    list_get (filter (fun s => is_goal (observation_type s)) (observation_specs specs)) 0 ;;
  size <- list_get (shape diverse_spec) 0 ;;
  OK {| _use_actions := SACSettings.mede_use_actions params;
        _max_saliency_dropout := SACSettings.mede_saliency_dropout params;
        drop_actions := SACSettings.mede_drop_actions params;
        centered_reward := SACSettings.mede_centered params;
        mutual_information := SACSettings.mede_mutual_information params;
        observations_sal_drop :=
          map (fun s => zeros (fold_right Nat.mul 1%nat (shape s))) non_goal;
        cont_actions_sal_drop := zeros (continuous_size (action_spec specs));
        _all_obs_specs := observation_specs specs;
        diverse_size := size;
        _dropout :=
          if positive (SACSettings.mede_dropout params) then Some (SACSettings.mede_dropout params) else None;
        _encoder_dropout :=
          if positive (SACSettings.mede_encoder_dropout params)
          then Some (SACSettings.mede_encoder_dropout params) else None;
        disc_sizes := discrete_branches (action_spec specs);
        cont_size := continuous_size (action_spec specs);
        _z_sigma :=
          if SACSettings.mede_noise params
          then Some (mkTensor (map (fmul sigma_start) (repeat (Fin 1) hidden_units)) true)
          else None;
        _beta :=
          if SACSettings.mede_noise params then Some (mkTensor beta_start false) else None;
        _diverse_index := find_diverse_index (-1) 0 (observation_specs specs);
        _max_index := length (observation_specs specs) |}.

(** The rescaling of one saliency tensor (the body of the loop over the
    observations and the three statements on the continuous actions, which
    are the same computation):
    [drop = sal - min(sal); drop = 1 - drop / max(drop); drop *= max_dropout]. *)
Definition saliency_drop (max_saliency_dropout : fl) (sal : vec) : exc vec :=
  lo <- min_all sal ;;
  let drop := map (fun x => fsub x lo) sal in
  hi <- max_all drop ;;
  let drop := map (fun x => fsub (Fin 1) (fdiv x hi)) drop in
  OK (map (fun x => fmul x max_saliency_dropout) drop).

Fixpoint update_saliency_observations (max_saliency_dropout : fl) (i : nat)
         (sal_observations : list vec) (observations_sal_drop : list vec)
  : exc (list vec) :=
  match sal_observations with
  | [] => OK observations_sal_drop
  | sal :: rest =>
      if any sal then
        drop <- saliency_drop max_saliency_dropout sal ;;
        updated <- list_set observations_sal_drop i drop ;;
        update_saliency_observations max_saliency_dropout (S i) rest updated
      else
        update_saliency_observations max_saliency_dropout (S i) rest
                                     observations_sal_drop
  end.

(** [self] after the assignments to its two saliency drop tensors. *)
Definition with_sal_drop (self : t) (obs_drop : list vec) (cont_drop : vec) : t :=
  {| _use_actions := _use_actions self;
     _max_saliency_dropout := _max_saliency_dropout self;
     drop_actions := drop_actions self;
     centered_reward := centered_reward self;
     mutual_information := mutual_information self;
     observations_sal_drop := obs_drop;
     cont_actions_sal_drop := cont_drop;
     _all_obs_specs := _all_obs_specs self;
     diverse_size := diverse_size self;
     _dropout := _dropout self;
     _encoder_dropout := _encoder_dropout self;
     disc_sizes := disc_sizes self;
     cont_size := cont_size self;
     _z_sigma := _z_sigma self;
     _beta := _beta self;
     _diverse_index := _diverse_index self;
     _max_index := _max_index self |}.

(** [self] after a step of the optimizer that owns [_z_sigma]. *)
Definition with_z_sigma (self : t) (z_sigma : option (Tensor vec)) : t :=
  {| _use_actions := _use_actions self;
     _max_saliency_dropout := _max_saliency_dropout self;
     drop_actions := drop_actions self;
     centered_reward := centered_reward self;
     mutual_information := mutual_information self;
     observations_sal_drop := observations_sal_drop self;
     cont_actions_sal_drop := cont_actions_sal_drop self;
     _all_obs_specs := _all_obs_specs self;
     diverse_size := diverse_size self;
     _dropout := _dropout self;
     _encoder_dropout := _encoder_dropout self;
     disc_sizes := disc_sizes self;
     cont_size := cont_size self;
     _z_sigma := z_sigma;
     _beta := _beta self;
     _diverse_index := _diverse_index self;
     _max_index := _max_index self |}.

(** [self] after the assignment to [self._beta.data]. *)
Definition with_beta (self : t) (beta : Tensor fl) : t :=
  {| _use_actions := _use_actions self;
     _max_saliency_dropout := _max_saliency_dropout self;
     drop_actions := drop_actions self;
     centered_reward := centered_reward self;
     mutual_information := mutual_information self;
     observations_sal_drop := observations_sal_drop self;
     cont_actions_sal_drop := cont_actions_sal_drop self;
     _all_obs_specs := _all_obs_specs self;
     diverse_size := diverse_size self;
     _dropout := _dropout self;
     _encoder_dropout := _encoder_dropout self;
     disc_sizes := disc_sizes self;
     cont_size := cont_size self;
     _z_sigma := _z_sigma self;
     _beta := Some beta;
     _diverse_index := _diverse_index self;
     _max_index := _max_index self |}.

Definition update_saliency (self : t) (sal_observations : list vec)
           (sal_cont_actions : vec) : exc t :=
  let sal_observations := drop_index (_diverse_index self) 0 sal_observations in
  obs_drop <-
    update_saliency_observations (_max_saliency_dropout self) 0 sal_observations
                                 (observations_sal_drop self) ;;
  cont_drop <-
    (if any sal_cont_actions
     then saliency_drop (_max_saliency_dropout self) sal_cont_actions
     else OK (cont_actions_sal_drop self)) ;;
  OK (with_sal_drop self obs_drop cont_drop).

(** [torch.cat(ts, dim=1)] of tensors of shape (batch, 1). *)
Definition cat_dim1 (ts : list vec) : exc mat :=
  match ts with
  | [] => Raise RuntimeError
  | t0 :: _ =>
      if forallb (fun u => Nat.eqb (length u) (length t0)) ts
      then OK (map (fun j => map (fun u => nth j u NaN) ts) (seq 0 (length t0)))
      else Raise RuntimeError
  end.

Section Network.

(** The state of the random number generator: [predict] draws dropout
    masks and gaussian noise. *)
Variable RNG : Type.

(** [predict(obs_input, action_input, detach_action, var_noise)] under a
    gradient mode: the encoder, the noise and the last layer, which are
    collaborators.  It returns the prediction and [z_mu]. *)
Variable predict :
  t -> bool -> RNG -> list mat -> AgentAction.t -> bool -> bool ->
  exc (Tensor mat * Tensor mat * RNG).

(** [torch.nn.Dropout(p)] applied to a tensor. *)
Variable dropout : fl -> RNG -> Tensor mat -> Tensor mat * RNG.

Variable masked_mean : anytensor -> list bool -> exc fl.

(** [log(sum(prediction[:, i:i+size] * truth, dim=1, keepdim=True) + EPSILON)] *)
Definition slice_reward (mode : bool) (size : nat) (prediction : Tensor mat)
           (truth : mat) (i : nat) : exc (Tensor vec) :=
  let slice := op1 mode (map (fun row => firstn size (skipn i row))) prediction in
  prod <- op2e mode (mop fmul) slice (constant truth) ;;
  OK (op1 mode (fun m => map (fun x => fln (fadd x EPSILON)) (sum_dim1 m)) prod).

Definition rewards (self : t) (mode : bool) (g : RNG) (obs_input : list mat)
           (action_input : AgentAction.t) (logprobs : ActionLogProbs.t)
           (detach_action var_noise : bool) : exc (Tensor vec * RNG) :=
  truth <- py_index obs_input (_diverse_index self) ;;
  '(prediction, _, g) <-
    predict self mode g obs_input action_input detach_action var_noise ;;
  '(rewards, g) <-
    (if _use_actions self && (0 <? length (disc_sizes self))%nat then
       let disc_probs :=
         op1 mode (map (map fexp)) (ActionLogProbs.all_discrete_tensor logprobs) in
       let '(disc_probs, g) :=
         match _dropout self with
         | Some p => if drop_actions self then dropout p g disc_probs
                     else (disc_probs, g)
         | None => (disc_probs, g)
         end in
       let disc_probs := if detach_action then detach disc_probs else disc_probs in
       action_rewards <-
         (if Nat.eqb (diverse_size self) 0 then Raise ValueError
          else map_e (fun j => slice_reward mode (diverse_size self) prediction truth
                                            (j * diverse_size self))
                     (seq 0 (list_sum (disc_sizes self)))) ;;
       all_rewards <- opn mode cat_dim1 action_rewards ;;
       weighted <- op2e mode (mop fmul) all_rewards disc_probs ;;
       let branched_rewards :=
         ModelUtils.break_into_branches (data weighted) (disc_sizes self) in
       stacked <- stack (map sum_dim1 branched_rewards) ;;
       OK (mkTensor (mean_dim0 stacked) (requires_grad weighted), g)
     else
       prod <- op2e mode (mop fmul) prediction (constant truth) ;;
       OK (op1 mode (fun m => map (fun x => fln (fadd x EPSILON)) (sum_dim1 m)) prod,
           g)) ;;
  if centered_reward self then
    if Nat.eqb (diverse_size self) 0 then Raise ZeroDivisionError
    else
      let center := fln (fdiv (Fin 1) (of_nat (diverse_size self))) in
      OK (op1 mode (map (fun x => fsub x center)) rewards, g)
  else OK (rewards, g).

(** [-torch.sum(1 + (z_sigma ** 2).log() - 0.5 * mu ** 2 - z_sigma ** 2, dim=1)] *)
Definition kl_terms (z_sigma : vec) (mu : mat) : exc vec :=
  let sq := map (fun s => fmul s s) z_sigma in
  let one_plus_log := map (fun s => fadd (Fin 1) (fln s)) sq in
  rows <-
    map_e (fun row =>
             t1 <- vop fsub one_plus_log
                       (map (fun m => fmul (Fin 0.5) (fmul m m)) row) ;;
             vop fsub t1 sq)
          mu ;;
  OK (map fneg (sum_dim1 rows)).

(** The result of [loss]: [(total_loss, base_loss, kl_loss, vail_loss, beta)]. *)
Record Losses : Type := {
  total_loss : Tensor fl;
  base_loss : Tensor fl;
  kl_loss : option (Tensor fl);
  vail_loss : option (Tensor fl);
  beta : option (Tensor fl)
}.

(** [torch.max(beta + alpha * (kl_loss - mutual_information), tensor(0.0))]
    inside [with torch.no_grad()]. *)
Definition next_beta (self : t) (beta kl_loss : Tensor fl) : Tensor fl :=
  op2 false fmax
      (op2 false fadd beta
           (op1 false (fmul alpha)
                (op1 false (fun k => fsub k (mutual_information self)) kl_loss)))
      (constant (Fin 0.0)).

Definition loss (self : t) (mode : bool) (g : RNG) (obs_input : list mat)
           (action_input : AgentAction.t) (logprobs : ActionLogProbs.t)
           (masks : list bool) (detach_action var_noise : bool)
  : exc (t * Losses * RNG) :=
  '(r, g) <- rewards self mode g obs_input action_input logprobs
                     detach_action var_noise ;;
  mean_reward <- op1e mode (fun v => masked_mean (T1 v) masks) r ;;
  let base_loss := op1 mode fneg mean_reward in
  match _z_sigma self with
  | None =>
      OK (self,
          {| total_loss := base_loss; base_loss := base_loss;
             kl_loss := None; vail_loss := None; beta := None |},
          g)
  | Some z_sigma =>
      '(_, mu, g) <-
        predict self mode g obs_input action_input detach_action var_noise ;;
      terms <- op2e mode kl_terms z_sigma mu ;;
      kl_loss <- op1e mode (fun v => masked_mean (T1 v) masks) terms ;;
      match _beta self with
      | None => Raise TypeError
      | Some beta =>
          let vail_loss :=
            op2 mode fmul beta
                (op1 mode (fun k => fsub k (mutual_information self)) kl_loss) in
          let beta' := next_beta self beta kl_loss in
          let total_loss := op2 mode fadd base_loss vail_loss in
          OK (with_beta self beta',
              {| total_loss := total_loss; base_loss := base_loss;
                 kl_loss := Some kl_loss; vail_loss := Some vail_loss;
                 beta := Some beta' |},
              g)
      end
  end.

End Network.

(** *** The forward pass

    Observations come in batches: a tensor of observations has one
    dimension more than its drop tensor, which is the case where
    [_saliency_dropout] sets [batch] to the size of the first dimension. *)

Section Forward.

Variable RNG : Type.

(** [torch.rand(shape)] for the shape (batch, k): draws from [0, 1). *)
Variable rand : RNG -> nat -> nat -> mat * RNG.

(** [torch.nn.Dropout(p)] applied to a tensor. *)
Variable dropout : fl -> RNG -> Tensor mat -> Tensor mat * RNG.

(** [self._encoder.forward(tensor_obs, action)], under a gradient mode: the
    hidden tensor. *)
Variable encoder : bool -> list mat -> option (Tensor mat) -> exc (Tensor mat).

(** [torch.normal(z_mu, z_sigma)] *)
Variable normal : RNG -> Tensor mat -> Tensor vec -> exc (Tensor mat * RNG).

(** [self._last_layer(hidden)], under a gradient mode. *)
Variable last_layer : bool -> Tensor mat -> exc (Tensor mat).

(** [torch.cat(batch * [drop.unsqueeze(0)])]: there is nothing to
    concatenate for an empty batch. *)
Definition tile (batch : nat) (drop : vec) : exc mat :=
  match batch with
  | O => Raise RuntimeError
  | S _ => OK (repeat drop batch)
  end.

(** [(r > drop) * x + .0001], where [r] is [torch.rand(x.shape)]: the
    comparison and the product broadcast their operands. *)
Definition drop_channels (r drop x : mat) : exc mat :=
  keep <- broadcast (broadcast (fun a d => OK (fgt a d))) r drop ;;
  kept <- broadcast (broadcast (fun (k : bool) v =>
                                  OK (if k then v else fmul (Fin 0) v)))
                    keep x ;;
  OK (map (map (fun v => fadd v (Fin 0.0001))) kept).

(** The loop over [zip(observations, self.observations_sal_drop)], which
    assigns to [observations[i]]: the observations past the last drop
    tensor stay as they are. *)
Fixpoint _saliency_dropout_observations (g : RNG) (batch : nat)
         (observations : list mat) (drops : list vec) : exc (list mat * RNG) :=
  match observations, drops with
  | obs :: observations', drop :: drops' =>
      drop <- tile batch drop ;;
      let '(r, g) := rand g (length obs) (length (hd [] obs)) in
      obs <- drop_channels r drop obs ;;
      '(rest, g) <- _saliency_dropout_observations g batch observations' drops' ;;
      OK (obs :: rest, g)
  | _, _ => OK (observations, g)
  end.

Definition _saliency_dropout (self : t) (mode : bool) (g : RNG)
           (observations : list mat) (action : option (Tensor mat))
  : exc (list mat * option (Tensor mat) * RNG) :=
  first <- list_get observations 0 ;;
  _ <- list_get (observations_sal_drop self) 0 ;;
  let batch := length first in
  '(observations, g) <-
    _saliency_dropout_observations g batch observations (observations_sal_drop self) ;;
  match action with
  | Some a =>
      if drop_actions self then
        drop <- tile batch (cont_actions_sal_drop self) ;;
        let '(r, g) := rand g (length (data a)) (length (hd [] (data a))) in
        a <- op1e mode (drop_channels r drop) a ;;
        OK (observations, Some a, g)
      else OK (observations, Some a, g)
  | None => OK (observations, None, g)
  end.

(** [[self._dropout(obs) for obs in tensor_obs]] *)
Fixpoint dropout_all (p : fl) (g : RNG) (tensor_obs : list mat) : list mat * RNG :=
  match tensor_obs with
  | [] => ([], g)
  | obs :: rest =>
      let '(o, g) := dropout p g (constant obs) in
      let '(os, g) := dropout_all p g rest in
      (data o :: os, g)
  end.

(** The observations that the encoder is given: those whose spec is not a
    goal signal. *)
Definition tensor_obs (self : t) (obs_input : list mat) : list mat :=
  map fst (filter (fun os => negb (is_goal (observation_type (snd os))))
                  (combine obs_input (_all_obs_specs self))).

(** The prediction from the output of the last layer: one softmax over the
    whole row, or one for each slice of [diverse_size] outputs when the
    discrete actions are used. *)
Definition prediction (self : t) (final_out : mat) : exc mat :=
  if _use_actions self && (0 <? length (disc_sizes self))%nat then
    if Nat.eqb (diverse_size self) 0 then Raise ValueError
    else
      match seq 0 (list_sum (disc_sizes self)) with
      | [] => Raise RuntimeError
      | starts =>
          OK (map (fun row =>
                     concat (map (fun j =>
                                    softmax (firstn (diverse_size self)
                                                    (skipn (j * diverse_size self) row)))
                                 starts))
                  final_out)
      end
  else OK (map softmax final_out).

Definition predict (self : t) (mode : bool) (g : RNG) (obs_input : list mat)
           (action_input : AgentAction.t) (detach_action var_noise : bool)
  : exc (Tensor mat * Tensor mat * RNG) :=
  let tensor_obs := tensor_obs self obs_input in
  '(hidden, g) <-
    (if _use_actions self && (0 <? cont_size self)%nat then
       let action := AgentAction.continuous_tensor action_input in
       let action := if detach_action then detach action else action in
       '(tensor_obs, action, g) <-
         (if positive (_max_saliency_dropout self) then
            _saliency_dropout self mode g tensor_obs (Some action)
          else
            match _dropout self with
            | Some p =>
                let '(tensor_obs, g) := dropout_all p g tensor_obs in
                if drop_actions self then
                  let '(action, g) := dropout p g action in
                  OK (tensor_obs, Some action, g)
                else OK (tensor_obs, Some action, g)
            | None => OK (tensor_obs, Some action, g)
            end) ;;
       hidden <- encoder mode tensor_obs action ;;
       OK (hidden, g)
     else
       '(tensor_obs, g) <-
         (if positive (_max_saliency_dropout self) then
            '(tensor_obs, _, g) <- _saliency_dropout self mode g tensor_obs None ;;
            OK (tensor_obs, g)
          else
            match _dropout self with
            | Some p => OK (dropout_all p g tensor_obs)
            | None => OK (tensor_obs, g)
            end) ;;
       hidden <- encoder mode tensor_obs None ;;
       OK (hidden, g)) ;;
  let '(hidden, g) :=
    match _encoder_dropout self with
    | Some p => dropout p g hidden
    | None => (hidden, g)
    end in
  let z_mu := hidden in
  '(hidden, g) <-
    match _z_sigma self with
    | Some z_sigma => if var_noise then normal g z_mu z_sigma else OK (hidden, g)
    | None => OK (hidden, g)
    end ;;
  final_out <- last_layer mode hidden ;;
  prediction <- op1e mode (prediction self) final_out ;;
  OK (prediction, z_mu, g).

End Forward.

End DiverseNetworkVariational.

(** ** TorchSACOptimizer: data *)

Module TargetEntropy.
Record t : Type := {
  discrete : list fl;
  continuous : fl
}.
End TargetEntropy.

Module LogEntCoef.
(** [continuous] is a tensor of one element. *)
Record t : Type := {
  discrete : Tensor vec;
  continuous : Tensor fl
}.
End LogEntCoef.

(** What the optimizer reads of a reward provider and of its settings. *)
Record RewardProvider : Type := {
  ignore_done : bool
}.

Record RewardSignalSettings : Type := {
  gamma : fl
}.

Module TrainerSettings.
Record t : Type := {
  reward_signals : Dict.t RewardSignalSettings;
  hyperparameters : SACSettings.t;
  max_steps : nat
}.
End TrainerSettings.

(** A [ValueNetwork]: its parameters, flattened, and the normalizer of its
    body. *)
Record ValueNetwork (N : Type) : Type := {
  parameters : vec;
  normalizer : N
}.

Arguments parameters {N} v.
Arguments normalizer {N} v.

Inductive OptimizerName : Type :=
| PolicyOptimizer
| ValueOptimizer
| EntropyOptimizer
| MedeOptimizer.

(** What an update does to the networks, in order. *)
Inductive Event : Type :=
| Step (o : OptimizerName) (loss : fl) (lr : fl)
| SoftUpdate (tau : fl)
| UpdateSaliency.

(** ** Collaborators

    The actor, the network bodies, the Adam optimizers, the experience
    buffer, the learning-rate schedule and [ModelUtils.masked_mean] are not
    part of the optimizer; it is written against this interface. *)

Class Collaborators : Type := {
  RNG : Type;
  Actor : Type;
  QNetwork : Type;
  Normalizer : Type;
  MedeWeights : Type;
  Adam : Type;
  AgentBuffer : Type;

  masked_mean : anytensor -> list bool -> exc fl;

  (** [TorchOptimizer.__init__]: the reward providers, by stream name. *)
  create_reward_signals : Dict.t RewardSignalSettings -> Dict.t RewardProvider;
  new_value_network :
    RNG -> list string -> list ObservationSpec -> ValueNetwork Normalizer * RNG;
  new_q_network :
    RNG -> list string -> list ObservationSpec -> ActionSpec -> QNetwork * RNG;
  new_mede_weights : RNG -> BehaviorSpec -> SACSettings.t -> MedeWeights * RNG;
  new_adam : fl -> fl -> Adam;
  mede_hidden_units : nat;

  actor_normalizer : Actor -> Normalizer;
  get_action_and_stats :
    Actor -> RNG -> list mat -> mat -> option (list vec) -> nat ->
    exc (AgentAction.t * ActionLogProbs.t * RNG);
  (** [critic_pass] and [forward] of a value network, under a gradient mode. *)
  critic_pass :
    bool -> ValueNetwork Normalizer -> list mat -> option (list vec) -> nat ->
    exc (Dict.t (Tensor vec) * option (list vec));
  (** [PolicyValueNetwork.forward], with [q1_grad] and [q2_grad]. *)
  q_forward :
    QNetwork -> list mat -> Tensor mat -> option (list vec) -> nat -> bool -> bool ->
    exc (Dict.t (Tensor tensor) * Dict.t (Tensor tensor));
  q_copy_normalization : QNetwork -> Actor -> QNetwork;
  (** The gradients of the mean Q1 with respect to the observations and to
      the continuous actions, as [_update_saliency] reads them. *)
  q_input_gradients :
    QNetwork -> list mat -> Tensor mat -> option (list vec) -> nat ->
    exc (list mat * mat);

  mede_predict :
    MedeWeights -> DiverseNetworkVariational.t -> bool -> RNG -> list mat ->
    AgentAction.t -> bool -> bool -> exc (Tensor mat * Tensor mat * RNG);
  mede_apply_dropout : fl -> RNG -> Tensor mat -> Tensor mat * RNG;
  mede_copy_normalization : MedeWeights -> Actor -> MedeWeights;

  (** [zero_grad(); loss.backward(); step()] of each optimizer on what it
      owns. *)
  policy_step : Adam -> fl -> Tensor fl -> AgentBuffer -> Actor -> Adam * Actor;
  value_step :
    Adam -> fl -> Tensor fl -> AgentBuffer -> QNetwork * vec -> Adam * (QNetwork * vec);
  entropy_step :
    Adam -> fl -> Tensor fl -> AgentBuffer -> LogEntCoef.t -> Adam * LogEntCoef.t;
  mede_step :
    Adam -> fl -> Tensor fl -> AgentBuffer -> MedeWeights * option (Tensor vec) ->
    Adam * (MedeWeights * option (Tensor vec));

  (** [DecayedValue.get_value] *)
  decayed_value : SACSettings.t -> nat -> nat -> fl;

  buffer_rewards : AgentBuffer -> string -> exc vec;
  from_buffer : AgentBuffer -> nat -> list mat;
  from_buffer_next : AgentBuffer -> nat -> list mat;
  buffer_action_mask : AgentBuffer -> mat;
  buffer_actions : AgentBuffer -> AgentAction.t;
  buffer_memory : AgentBuffer -> list vec;
  buffer_critic_memory : AgentBuffer -> list vec;
  buffer_masks : AgentBuffer -> list bool;
  buffer_done : AgentBuffer -> vec
}.

(** ** TorchSACOptimizer *)

Module TorchSACOptimizer.

Section Optimizer.

Context {C : Collaborators}.

Record TorchPolicy : Type := {
  shared_critic : bool;
  behavior_spec : BehaviorSpec;
  sequence_length : nat;
  current_step : nat;
  actor : Actor
}.

Record t : Type := {
  policy : TorchPolicy;
  reward_signals : Dict.t RewardProvider;
  hyperparameters : SACSettings.t;
  max_steps : nat;
  _critic : ValueNetwork Normalizer;
  tau : fl;
  init_entcoef : fl;
  burn_in_ratio : fl;
  discrete_target_entropy_scale : fl;
  continuous_target_entropy_scale : fl;
  stream_names : list string;
  gammas : list fl;
  use_dones_in_backup : Dict.t Z;
  _action_spec : ActionSpec;
  q_network : QNetwork;
  target_network : ValueNetwork Normalizer;
  _log_ent_coef : LogEntCoef.t;
  target_entropy : TargetEntropy.t;
  use_mede : bool;
  _mede_network : option DiverseNetworkVariational.t;
  _mede_weights : option MedeWeights;
  _mede_optimizer : option Adam;
  mede_saliency_dropout : fl;
  mede_strength : fl;
  mede_policy_loss : bool;
  sal_observations : list vec;
  sal_cont_actions : vec;
  sal_weight : fl;
  policy_optimizer : Adam;
  value_optimizer : Adam;
  entropy_optimizer : Adam
}.

Definition __init__ (g : RNG) (policy : TorchPolicy) (trainer_params : TrainerSettings.t)
  : exc (t * RNG) :=
  let reward_signals := create_reward_signals (TrainerSettings.reward_signals trainer_params) in
  let reward_signal_configs := TrainerSettings.reward_signals trainer_params in
  let reward_signal_names := Dict.keys reward_signal_configs in
  if shared_critic policy
  then Raise (UnityTrainerException "SAC does not support SharedActorCritic")
  else
    let specs := observation_specs (behavior_spec policy) in
    let '(_critic, g) := new_value_network g reward_signal_names specs in
    let hyperparameters := TrainerSettings.hyperparameters trainer_params in
    let discrete_target_entropy_scale := Fin 0.2 in
    let continuous_target_entropy_scale := Fin 1.0 in
    let stream_names := Dict.keys reward_signals in
    let gammas := map gamma (Dict.values (TrainerSettings.reward_signals trainer_params)) in
    use_dones_in_backup <-
      map_e (fun name =>
               provider <- Dict.get reward_signals name ;;
               OK (name, if ignore_done provider then 0%Z else 1%Z))
            stream_names ;;
    let _action_spec := action_spec (behavior_spec policy) in
    let '(q_network, g) := new_q_network g stream_names specs _action_spec in
    let '(target_network, g) := new_value_network g stream_names specs in
    let target_network :=
      {| parameters :=
           ModelUtils.soft_update (parameters _critic) (parameters target_network)
                                  (Fin 1.0);
         normalizer := normalizer target_network |} in
    let _disc_log_ent_coef :=
      mkTensor (map fln (repeat (SACSettings.init_entcoef hyperparameters)
                                (length (discrete_branches _action_spec))))
               true in
    let _cont_log_ent_coef := mkTensor (fln (SACSettings.init_entcoef hyperparameters)) true in
    let _cont_target :=
      fmul (fmul (Fin (-1)) continuous_target_entropy_scale)
           (of_nat (continuous_size _action_spec)) in
    let _disc_target :=
      map (fun i => fmul discrete_target_entropy_scale (fln (of_nat i)))
          (discrete_branches _action_spec) in
    mede_network <-
      (if SACSettings.mede hyperparameters then
         n <- DiverseNetworkVariational.__init__ mede_hidden_units
                (behavior_spec policy) hyperparameters ;;
         OK (Some n)
       else OK None) ;;
    let '(mede_weights, g) :=
      if SACSettings.mede hyperparameters then
        let '(w, g) := new_mede_weights g (behavior_spec policy) hyperparameters in
        (Some w, g)
      else (None, g) in
    OK ({| policy := policy;
           reward_signals := reward_signals;
           hyperparameters := hyperparameters;
           max_steps := TrainerSettings.max_steps trainer_params;
           _critic := _critic;
           tau := SACSettings.tau hyperparameters;
           init_entcoef := SACSettings.init_entcoef hyperparameters;
           burn_in_ratio := Fin 0.0;
           discrete_target_entropy_scale := discrete_target_entropy_scale;
           continuous_target_entropy_scale := continuous_target_entropy_scale;
           stream_names := stream_names;
           gammas := gammas;
           use_dones_in_backup := use_dones_in_backup;
           _action_spec := _action_spec;
           q_network := q_network;
           target_network := target_network;
           _log_ent_coef :=
             {| LogEntCoef.discrete := _disc_log_ent_coef;
                LogEntCoef.continuous := _cont_log_ent_coef |};
           target_entropy :=
             {| TargetEntropy.continuous := _cont_target;
                TargetEntropy.discrete := _disc_target |};
           use_mede := SACSettings.mede hyperparameters;
           _mede_network := mede_network;
           _mede_weights := mede_weights;
           _mede_optimizer :=
             if SACSettings.mede hyperparameters
             then Some (new_adam (SACSettings.learning_rate hyperparameters)
                                 (SACSettings.mede_weight_decay hyperparameters))
             else None;
           mede_saliency_dropout := SACSettings.mede_saliency_dropout hyperparameters;
           mede_strength := SACSettings.mede_strength hyperparameters;
           mede_policy_loss := SACSettings.mede_for_policy_loss hyperparameters;
           sal_observations :=
             map (fun s => zeros (fold_right Nat.mul 1%nat (shape s))) specs;
           sal_cont_actions := zeros (continuous_size _action_spec);
           sal_weight := Fin 0.01;
           policy_optimizer := new_adam (SACSettings.learning_rate hyperparameters) (Fin 0);
           value_optimizer := new_adam (SACSettings.learning_rate hyperparameters) (Fin 0);
           entropy_optimizer := new_adam (SACSettings.learning_rate hyperparameters) (Fin 0)
        |}, g).

(** *** The Q loss *)

(** [0.5 * ModelUtils.masked_mean(mse_loss(input, target), loss_masks)] *)
Definition half_masked_mse (input target : Tensor vec) (loss_masks : list bool)
  : exc (Tensor fl) :=
  mse <- op2e true mse_loss input target ;;
  mean <- op1e true (fun x => masked_mean (T0 x) loss_masks) mse ;;
  OK (op1 true (fmul (Fin 0.5)) mean).

(** The body of [with torch.no_grad()] in [sac_q_loss]:
    [rewards[name] + (1.0 - use_dones_in_backup[name] * dones) * gammas[i]
     * target_values[name]]. *)
Definition q_backup (self : t) (i : nat) (name : string)
           (target_values : Dict.t (Tensor vec)) (dones : Tensor vec)
           (rewards : Dict.t (Tensor vec)) : exc (Tensor vec) :=
  reward <- Dict.get rewards name ;;
  use_dones <- Dict.get (use_dones_in_backup self) name ;;
  let not_done :=
    op1 false (map (fun d => fsub (Fin 1.0) (fmul (of_Z use_dones) d))) dones in
  gamma_i <- list_get (gammas self) i ;;
  let discount := op1 false (map (fun x => fmul x gamma_i)) not_done in
  target_value <- Dict.get target_values name ;;
  bootstrap <- op2e false (vop fmul) discount target_value ;;
  op2e false (vop fadd) reward bootstrap.

(** One turn of the loop of [sac_q_loss]. *)
Definition q_stream_losses (self : t) (q1_out q2_out : Dict.t (Tensor tensor))
           (target_values : Dict.t (Tensor vec)) (dones : Tensor vec)
           (rewards : Dict.t (Tensor vec)) (loss_masks : list bool)
           (i : nat) (name : string) : exc (Tensor fl * Tensor fl) :=
  q1 <- Dict.get q1_out name ;;
  q1_stream <- op1e true squeeze q1 ;;
  q2 <- Dict.get q2_out name ;;
  q2_stream <- op1e true squeeze q2 ;;
  backup <- q_backup self i name target_values dones rewards ;;
  _q1_loss <- half_masked_mse backup q1_stream loss_masks ;;
  _q2_loss <- half_masked_mse backup q2_stream loss_masks ;;
  OK (_q1_loss, _q2_loss).

Definition sac_q_loss (self : t) (q1_out q2_out : Dict.t (Tensor tensor))
           (target_values : Dict.t (Tensor vec)) (dones : Tensor vec)
           (rewards : Dict.t (Tensor vec)) (loss_masks : list bool)
  : exc (Tensor fl * Tensor fl) :=
  losses <-
    map_enum_e (q_stream_losses self q1_out q2_out target_values dones rewards
                                loss_masks)
               0 (Dict.keys q1_out) ;;
  q1_loss <- opn true mean_scalars (map fst losses) ;;
  q2_loss <- opn true mean_scalars (map snd losses) ;;
  OK (q1_loss, q2_loss).

(** *** The value loss *)

(** [torch.mean(torch.stack([torch.sum(_br, dim=1, keepdim=True)
    for _br in branches]), dim=0)] *)
Definition branch_mean (branches : list mat) : exc vec :=
  mean_stack_vec (map sum_dim1 branches).

(** One entry of [min_policy_qs], inside [with torch.no_grad()]. *)
Definition min_policy_q (self : t) (log_probs : ActionLogProbs.t)
           (q1p q2p : Tensor tensor) : exc (Tensor vec) :=
  if (discrete_size (_action_spec self) <=? 0)%nat then
    a <- op1e false as_vec q1p ;;
    b <- op1e false as_vec q2p ;;
    op2e false (vop fmin) a b
  else
    let disc_action_probs :=
      op1 false (map (map fexp)) (ActionLogProbs.all_discrete_tensor log_probs) in
    a <- op1e false as_mat q1p ;;
    weighted1 <- op2e false (mop fmul) a disc_action_probs ;;
    let _branched_q1p :=
      ModelUtils.break_into_branches (data weighted1)
                                     (discrete_branches (_action_spec self)) in
    b <- op1e false as_mat q2p ;;
    weighted2 <- op2e false (mop fmul) b disc_action_probs ;;
    let _branched_q2p :=
      ModelUtils.break_into_branches (data weighted2)
                                     (discrete_branches (_action_spec self)) in
    _q1p_mean <- branch_mean _branched_q1p ;;
    _q2p_mean <- branch_mean _branched_q2p ;;
    m <- vop fmin _q1p_mean _q2p_mean ;;
    OK (mkTensor m false).

(** [torch.sum(_cont_ent_coef * log_probs.continuous_tensor, dim=1)] *)
Definition cont_entropy_term (mode : bool) (_cont_ent_coef : Tensor fl)
           (log_probs : ActionLogProbs.t) : Tensor vec :=
  op2 mode (fun c m => sum_dim1 (msmul c m)) _cont_ent_coef
      (ActionLogProbs.continuous_tensor log_probs).

(** The body of [with torch.no_grad()] in the loop of the branch
    [discrete_size <= 0] of [sac_value_loss]. *)
Definition v_backup_continuous (self : t) (log_probs : ActionLogProbs.t)
           (_cont_ent_coef : Tensor fl) (min_policy_q : Tensor vec)
           (mede_rewards : Tensor vec) : exc (Tensor vec) :=
  v_backup <- op2e false (vop fsub) min_policy_q
                   (cont_entropy_term false _cont_ent_coef log_probs) ;;
  op2e false iadd v_backup (op1 false (smul (mede_strength self)) mede_rewards).

(** [branched_ent_bonus], computed before the loop of the other branch. *)
Definition branched_ent_bonus (self : t) (log_probs : ActionLogProbs.t)
           (_disc_ent_coef : Tensor vec) : exc (Tensor (list vec)) :=
  let disc_log_probs := ActionLogProbs.all_discrete_tensor log_probs in
  let per_action_ent :=
    op1 true (map (map (fun lp => fmul lp (fexp lp)))) disc_log_probs in
  let branched_per_action_ent :=
    ModelUtils.break_into_branches (data per_action_ent)
                                   (discrete_branches (_action_spec self)) in
  bonus <-
    map_enum_e (fun i _lp =>
                  coef <- list_get (data _disc_ent_coef) i ;;
                  OK (sum_dim1 (msmul coef _lp)))
               0 branched_per_action_ent ;;
  stacked <- stack bonus ;;
  OK (mkTensor stacked (requires_grad per_action_ent || requires_grad _disc_ent_coef)).

(** The body of [with torch.no_grad()] in the loop of the branch
    [discrete_size > 0] of [sac_value_loss]. *)
Definition v_backup_discrete (self : t) (log_probs : ActionLogProbs.t)
           (_cont_ent_coef : Tensor fl) (bonus : Tensor (list vec))
           (min_policy_q : Tensor vec) (mede_rewards : Tensor vec)
  : exc (Tensor vec) :=
  v_backup <- op2e false (vop fsub) min_policy_q (op1 false mean_dim0 bonus) ;;
  v_backup <- op2e false iadd v_backup
                   (op1 false (smul (mede_strength self)) mede_rewards) ;;
  if (0 <? continuous_size (_action_spec self))%nat then
    op2e false iadd v_backup (cont_entropy_term false _cont_ent_coef log_probs)
  else OK v_backup.

(** The first loop of [sac_value_loss]: [min_policy_qs[name] = ...] for
    every name of [values]. *)
Fixpoint min_policy_qs_loop (self : t) (log_probs : ActionLogProbs.t)
         (q1p_out q2p_out : Dict.t (Tensor tensor)) (names : list string)
         (min_policy_qs : Dict.t (Tensor vec)) : exc (Dict.t (Tensor vec)) :=
  match names with
  | [] => OK min_policy_qs
  | name :: rest =>
      q1p <- Dict.get q1p_out name ;;
      q2p <- Dict.get q2p_out name ;;
      m <- min_policy_q self log_probs q1p q2p ;;
      min_policy_qs_loop self log_probs q1p_out q2p_out rest
                         (Dict.set min_policy_qs name m)
  end.

(** [value_loss] before the check for infinity and NaN. *)
Definition assembled_value_loss (self : t) (log_probs : ActionLogProbs.t)
           (values : Dict.t (Tensor vec)) (q1p_out q2p_out : Dict.t (Tensor tensor))
           (loss_masks : list bool) (mede_rewards : Tensor vec)
  : exc (Tensor fl) :=
  let _cont_ent_coef := op1 false fexp (LogEntCoef.continuous (_log_ent_coef self)) in
  let _disc_ent_coef :=
    op1 false (map fexp) (LogEntCoef.discrete (_log_ent_coef self)) in
  min_policy_qs <-
    min_policy_qs_loop self log_probs q1p_out q2p_out (Dict.keys values) [] ;;
  value_losses <-
    (if (discrete_size (_action_spec self) <=? 0)%nat then
       map_e (fun name =>
                q <- Dict.get min_policy_qs name ;;
                v_backup <- v_backup_continuous self log_probs _cont_ent_coef q
                                                mede_rewards ;;
                value <- Dict.get values name ;;
                half_masked_mse value v_backup loss_masks)
             (Dict.keys values)
     else
       bonus <- branched_ent_bonus self log_probs _disc_ent_coef ;;
       map_e (fun name =>
                q <- Dict.get min_policy_qs name ;;
                v_backup <- v_backup_discrete self log_probs _cont_ent_coef bonus q
                                              mede_rewards ;;
                value <- Dict.get values name ;;
                half_masked_mse value v_backup loss_masks)
             (Dict.keys values)) ;;
  opn true mean_scalars value_losses.

Definition sac_value_loss (self : t) (log_probs : ActionLogProbs.t)
           (values : Dict.t (Tensor vec)) (q1p_out q2p_out : Dict.t (Tensor tensor))
           (loss_masks : list bool) (mede_rewards : Tensor vec)
  : exc (Tensor fl) :=
  value_loss <- assembled_value_loss self log_probs values q1p_out q2p_out
                                     loss_masks mede_rewards ;;
  if isinf (data value_loss) || isnan (data value_loss)
  then Raise (UnityTrainerException "Inf found")
  else OK value_loss.

(** *** Condensing the Q streams *)

(** [torch.stack([torch.sum(_act * _q, dim=1, keepdim=True)
    for _act, _q in zip(onehot_actions, branched_q)])] and its mean over
    the branches. *)
Definition condense (onehot_actions : list mat) (item : Tensor tensor)
           (action_size : list nat) : exc (Tensor tensor) :=
  op1e true
       (fun q =>
          m <- as_mat q ;;
          let branched_q := ModelUtils.break_into_branches m action_size in
          only_action_qs <-
            map_e (fun aq => p <- mop fmul (fst aq) (snd aq) ;; OK (sum_dim1 p))
                  (combine onehot_actions branched_q) ;;
          v <- mean_stack_vec only_action_qs ;;
          OK (Vec v))
       item.

Definition _condense_q_streams (self : t) (q_output : Dict.t (Tensor tensor))
           (discrete_actions : LongTensor) : exc (Dict.t (Tensor tensor)) :=
  onehot_actions <-
    ModelUtils.actions_to_onehot discrete_actions
                                 (discrete_branches (_action_spec self)) ;;
  map_e (fun kv =>
           c <- condense onehot_actions (snd kv)
                         (discrete_branches (_action_spec self)) ;;
           OK (fst kv, c))
        q_output.

(** *** The policy loss and the entropy loss *)

(** [acc += x] where [acc] may still be the Python integer 0. *)
Definition py_iadd (acc : option vec) (x : vec) : exc vec :=
  match acc with
  | None => OK (map (fadd (Fin 0)) x)
  | Some a => iadd a x
  end.

(** The sum over the stack of what each tensor holds at an index. *)
Definition sum_dim0 (s : list vec) : vec :=
  match s with
  | [] => []
  | t0 :: _ => map (fun j => fsum (map (fun u => nth j u NaN) s)) (seq 0 (length t0))
  end.

(** [torch.stack(ts, axis=1)] of tensors of shape (n,) or (n, 1). *)
Definition stack_dim1 (ts : list vec) : exc mat :=
  s <- stack ts ;;
  OK (match s with
      | [] => []
      | t0 :: _ => map (fun j => map (fun u => nth j u NaN) s) (seq 0 (length t0))
      end).

Definition sac_policy_loss (self : t) (log_probs : ActionLogProbs.t)
           (q1p_outs : Dict.t (Tensor tensor)) (loss_masks : list bool)
           (mede_rewards : Tensor vec) : exc (Tensor fl) :=
  let branches := discrete_branches (_action_spec self) in
  let _cont_ent_coef := op1 true fexp (LogEntCoef.continuous (_log_ent_coef self)) in
  let _disc_ent_coef :=
    op1 true (map fexp) (LogEntCoef.discrete (_log_ent_coef self)) in
  mean_q1 <- opn true mean_stack (Dict.values q1p_outs) ;;
  '(batch_policy_loss, all_mean_q1) <-
    (if (0 <? discrete_size (_action_spec self))%nat then
       let disc_log_probs := data (ActionLogProbs.all_discrete_tensor log_probs) in
       let disc_action_probs := map (map fexp) disc_log_probs in
       ent <- mop fmul disc_log_probs disc_action_probs ;;
       let branched_per_action_ent := ModelUtils.break_into_branches ent branches in
       q <- as_mat (data mean_q1) ;;
       q_term <- mop fmul q disc_action_probs ;;
       let branched_q_term := ModelUtils.break_into_branches q_term branches in
       branched_policy_loss <-
         map_enum_e (fun i lq =>
                       coef <- list_get (data _disc_ent_coef) i ;;
                       d <- mop fsub (msmul coef (fst lq)) (snd lq) ;;
                       OK (sum_dim1 d))
                    0 (combine branched_per_action_ent branched_q_term) ;;
       stacked <- stack branched_policy_loss ;;
       let batch_policy_loss := map (fadd (Fin 0)) (sum_dim0 stacked) in
       weighted <- mop fmul disc_action_probs q ;;
       OK (Some batch_policy_loss, sum_dim1 weighted)
     else
       q <- as_vec (data mean_q1) ;;
       OK (None, q)) ;;
  batch_policy_loss <-
    (if (0 <? continuous_size (_action_spec self))%nat then
       let cont_log_probs := data (ActionLogProbs.continuous_tensor log_probs) in
       term <-
         broadcast (fun row q =>
                      OK (fmean (map (fun x => fsub (fmul (data _cont_ent_coef) x) q)
                                     row)))
                   cont_log_probs all_mean_q1 ;;
       r <- py_iadd batch_policy_loss term ;;
       OK (Some r)
     else OK batch_policy_loss) ;;
  batch_policy_loss <-
    (if mede_policy_loss self then
       r <- py_iadd batch_policy_loss
                    (smul (fneg (mede_strength self)) (data mede_rewards)) ;;
       OK (Some r)
     else OK batch_policy_loss) ;;
  match batch_policy_loss with
  | None => Raise AttributeError
  | Some l =>
      policy_loss <- masked_mean (T1 l) loss_masks ;;
      OK (mkTensor policy_loss
            (requires_grad mean_q1
             || (0 <? discrete_size (_action_spec self))%nat
                && (requires_grad (ActionLogProbs.all_discrete_tensor log_probs)
                    || requires_grad _disc_ent_coef)
             || (0 <? continuous_size (_action_spec self))%nat
                && (requires_grad (ActionLogProbs.continuous_tensor log_probs)
                    || requires_grad _cont_ent_coef)
             || mede_policy_loss self && requires_grad mede_rewards))
  end.

(** The result is [None] where the source returns the Python integer 0. *)
Definition sac_entropy_loss (self : t) (log_probs : ActionLogProbs.t)
           (loss_masks : list bool) : exc (option (Tensor fl)) :=
  let _cont_ent_coef := LogEntCoef.continuous (_log_ent_coef self) in
  let _disc_ent_coef := LogEntCoef.discrete (_log_ent_coef self) in
  entropy_loss <-
    (if (0 <? discrete_size (_action_spec self))%nat then
       let disc_log_probs := data (ActionLogProbs.all_discrete_tensor log_probs) in
       let branched_per_action_ent :=
         ModelUtils.break_into_branches
           (map (map (fun lp => fmul lp (fexp lp))) disc_log_probs)
           (discrete_branches (_action_spec self)) in
       target_current_diff <-
         stack_dim1
           (map (fun lt => map (fun x => fadd x (snd lt)) (sum_dim1 (fst lt)))
                (combine branched_per_action_ent
                         (TargetEntropy.discrete (target_entropy self)))) ;;
       weighted <- map_e (vop fmul (data _disc_ent_coef)) target_current_diff ;;
       m <- masked_mean (T1 (mean_dim1 weighted)) loss_masks ;;
       OK (Some (mkTensor (fadd (Fin 0) (fmul (Fin (-1)) m))
                          (requires_grad _disc_ent_coef)))
     else OK None) ;;
  if (0 <? continuous_size (_action_spec self))%nat then
    let cont_log_probs := data (ActionLogProbs.continuous_tensor log_probs) in
    let target_current_diff :=
      sum_dim1 (map (map (fun x => fadd x (TargetEntropy.continuous
                                             (target_entropy self))))
                    cont_log_probs) in
    m <- masked_mean (T1 (smul (data _cont_ent_coef) target_current_diff))
                     loss_masks ;;
    let term := fmul (Fin (-1)) m in
    OK (Some (match entropy_loss with
              | None => mkTensor (fadd (Fin 0) term) (requires_grad _cont_ent_coef)
              | Some l => mkTensor (fadd (data l) term)
                                   (requires_grad l || requires_grad _cont_ent_coef)
              end))
  else OK entropy_loss.

(** *** The update *)

(** [self] with the Q network and the discriminator as they are at that
    point of the update. *)
Definition with_networks (self : t) (q : QNetwork)
           (network : option DiverseNetworkVariational.t) : t :=
  {| policy := policy self;
     reward_signals := reward_signals self;
     hyperparameters := hyperparameters self;
     max_steps := max_steps self;
     _critic := _critic self;
     tau := tau self;
     init_entcoef := init_entcoef self;
     burn_in_ratio := burn_in_ratio self;
     discrete_target_entropy_scale := discrete_target_entropy_scale self;
     continuous_target_entropy_scale := continuous_target_entropy_scale self;
     stream_names := stream_names self;
     gammas := gammas self;
     use_dones_in_backup := use_dones_in_backup self;
     _action_spec := _action_spec self;
     q_network := q;
     target_network := target_network self;
     _log_ent_coef := _log_ent_coef self;
     target_entropy := target_entropy self;
     use_mede := use_mede self;
     _mede_network := network;
     _mede_weights := _mede_weights self;
     _mede_optimizer := _mede_optimizer self;
     mede_saliency_dropout := mede_saliency_dropout self;
     mede_strength := mede_strength self;
     mede_policy_loss := mede_policy_loss self;
     sal_observations := sal_observations self;
     sal_cont_actions := sal_cont_actions self;
     sal_weight := sal_weight self;
     policy_optimizer := policy_optimizer self;
     value_optimizer := value_optimizer self;
     entropy_optimizer := entropy_optimizer self |}.

(** [xs[i] for i in range(0, len(xs), step)] and [xs[::step]]. *)
Definition strided {A : Type} (xs : list A) (step : nat) : exc (list A) :=
  if Nat.eqb step 0 then Raise ValueError
  else OK (flat_map (fun k => match nth_error xs (k * step) with
                              | Some x => [x]
                              | None => []
                              end)
                    (seq 0 ((length xs + step - 1) / step))).

(** [sal_weight * grad + (1 - sal_weight) * sal], after the assertion on
    the shapes; [grad] is the mean over the batch of the absolute input
    gradient. *)
Definition smooth_saliency (sal_weight : fl) (input_grad : mat) (sal : vec)
  : exc vec :=
  let grad := mean_dim0 (map (map fabs) input_grad) in
  if Nat.eqb (length grad) (length sal) then
    OK (map (fun gs => fadd (fmul sal_weight (fst gs))
                            (fmul (fsub (Fin 1) sal_weight) (snd gs)))
            (combine grad sal))
  else Raise AssertionError.

(** The loop of [_update_saliency] over [zip(inputs, self.sal_observations)]. *)
Fixpoint smooth_observations (sal_weight : fl) (grads : list mat) (i : nat)
         (inputs : list mat) (sals : list vec) (sal_observations : list vec)
  : exc (list vec) :=
  match inputs, sals with
  | _ :: inputs', sal :: sals' =>
      grad <- list_get grads i ;;
      smoothed <- smooth_saliency sal_weight grad sal ;;
      updated <- list_set sal_observations i smoothed ;;
      smooth_observations sal_weight grads (S i) inputs' sals' updated
  | _, _ => OK sal_observations
  end.

(** The result: [sal_observations], [sal_cont_actions] and the
    discriminator after its [update_saliency]. *)
Definition _update_saliency (self : t) (inputs : list mat) (actions : Tensor mat)
           (memories : option (list vec)) (sequence_length : nat)
  : exc (list vec * vec * DiverseNetworkVariational.t) :=
  let actions :=
    if (0 <? continuous_size (_action_spec self))%nat then detach actions
    else actions in
  '(input_grads, action_grad) <-
    q_input_gradients (q_network self) inputs actions memories sequence_length ;;
  sal_obs <-
    smooth_observations (sal_weight self) input_grads 0 inputs
                        (sal_observations self) (sal_observations self) ;;
  sal_act <-
    (if (0 <? continuous_size (_action_spec self))%nat
     then smooth_saliency (sal_weight self) action_grad (sal_cont_actions self)
     else OK (sal_cont_actions self)) ;;
  match _mede_network self with
  | None => Raise AttributeError
  | Some network =>
      network <- DiverseNetworkVariational.update_saliency network sal_obs sal_act ;;
      OK (sal_obs, sal_act, network)
  end.

(** [loss.backward()]: the loss has to require gradients. *)
Definition backward (loss : Tensor fl) : exc unit :=
  if requires_grad loss then OK tt else Raise RuntimeError.

Definition item_or_zero (x : option (Tensor fl)) : fl :=
  match x with
  | Some v => data v
  | None => Fin 0
  end.

(** The local variables of [update] when it comes to the losses. *)
Record Forward : Type := {
  fw_rewards : Dict.t (Tensor vec);
  fw_current_obs : list mat;
  fw_sampled_actions : AgentAction.t;
  fw_log_probs : ActionLogProbs.t;
  fw_value_estimates : Dict.t (Tensor vec);
  fw_q_memories : option (list vec);
  fw_q1p_out : Dict.t (Tensor tensor);
  fw_q2p_out : Dict.t (Tensor tensor);
  fw_q1_stream : Dict.t (Tensor tensor);
  fw_q2_stream : Dict.t (Tensor tensor);
  fw_target_values : Dict.t (Tensor vec);
  fw_masks : list bool;
  fw_dones : Tensor vec;
  fw_mede_value_rewards : Tensor vec;
  fw_mede_policy_rewards : Tensor vec;
  fw_q_network : QNetwork;
  fw_critic : ValueNetwork Normalizer;
  fw_target_network : ValueNetwork Normalizer;
  fw_mede_weights : option MedeWeights;
  fw_rng : RNG
}.

(** [update] up to the losses: the batch, the normalizers, the forward
    passes and the rewards of the discriminator. *)
Definition update_forward (self : t) (g : RNG) (batch : AgentBuffer) : exc Forward :=
  let seq_len := sequence_length (policy self) in
  rewards <-
    map_e (fun name => r <- buffer_rewards batch name ;; OK (name, constant r))
          (Dict.keys (reward_signals self)) ;;
  let n_obs := length (observation_specs (behavior_spec (policy self))) in
  let current_obs := from_buffer batch n_obs in
  let next_obs := from_buffer_next batch n_obs in
  let act_masks := buffer_action_mask batch in
  let actions := buffer_actions batch in
  memories_list <- strided (buffer_memory batch) seq_len ;;
  value_memories_list <- strided (buffer_critic_memory batch) seq_len ;;
  '(memories, value_memories) <-
    (if (0 <? length memories_list)%nat then
       m <- stack memories_list ;;
       vm <- stack value_memories_list ;;
       OK (Some m, Some vm)
     else OK (None, None)) ;;
  let q_memories := option_map (map (map (fun _ => Fin 0))) value_memories in
  (* Copy normalizers from policy *)
  let actor0 := actor (policy self) in
  let q_net := q_copy_normalization (q_network self) actor0 in
  let target :=
    {| parameters := parameters (target_network self);
       normalizer := actor_normalizer actor0 |} in
  let critic :=
    {| parameters := parameters (_critic self);
       normalizer := actor_normalizer actor0 |} in
  '(sampled_actions, log_probs, g) <-
    get_action_and_stats actor0 g current_obs act_masks memories seq_len ;;
  '(value_estimates, _) <- critic_pass true critic current_obs value_memories seq_len ;;
  let cont_sampled_actions := AgentAction.continuous_tensor sampled_actions in
  let cont_actions := AgentAction.continuous_tensor actions in
  '(q1p_out, q2p_out) <-
    q_forward q_net current_obs cont_sampled_actions q_memories seq_len true false ;;
  '(q1_out, q2_out) <-
    q_forward q_net current_obs cont_actions q_memories seq_len true true ;;
  '(q1_stream, q2_stream) <-
    (if (0 <? discrete_size (_action_spec self))%nat then
       let disc_actions := AgentAction.discrete_tensor actions in
       q1_stream <- _condense_q_streams self q1_out disc_actions ;;
       q2_stream <- _condense_q_streams self q2_out disc_actions ;;
       OK (q1_stream, q2_stream)
     else OK (q1_out, q2_out)) ;;
  next_value_memories <-
    match value_memories with
    | Some vm =>
        just_first_obs <- map_e (fun _obs => strided _obs seq_len) current_obs ;;
        '(_, next) <- critic_pass false critic just_first_obs (Some vm) 1 ;;
        OK next
    | None => OK None
    end ;;
  '(target_values, _) <-
    critic_pass false target next_obs next_value_memories seq_len ;;
  let masks := buffer_masks batch in
  let dones := constant (buffer_done batch) in
  '(mede_value_rewards, mede_policy_rewards, mede_weights, g) <-
    (if use_mede self then
       match _mede_network self, _mede_weights self with
       | Some network, Some weights =>
           let weights := mede_copy_normalization weights actor0 in
           '(policy_rewards, g) <-
             DiverseNetworkVariational.rewards RNG (mede_predict weights)
               mede_apply_dropout network true g current_obs sampled_actions
               log_probs false false ;;
           '(value_rewards, g) <-
             DiverseNetworkVariational.rewards RNG (mede_predict weights)
               mede_apply_dropout network false g current_obs sampled_actions
               log_probs false false ;;
           OK (value_rewards, policy_rewards, Some weights, g)
       | _, _ => Raise AttributeError
       end
     else OK (constant (zeros 1), constant (zeros 1), _mede_weights self, g)) ;;
  OK {| fw_rewards := rewards;
        fw_current_obs := current_obs;
        fw_sampled_actions := sampled_actions;
        fw_log_probs := log_probs;
        fw_value_estimates := value_estimates;
        fw_q_memories := q_memories;
        fw_q1p_out := q1p_out;
        fw_q2p_out := q2p_out;
        fw_q1_stream := q1_stream;
        fw_q2_stream := q2_stream;
        fw_target_values := target_values;
        fw_masks := masks;
        fw_dones := dones;
        fw_mede_value_rewards := mede_value_rewards;
        fw_mede_policy_rewards := mede_policy_rewards;
        fw_q_network := q_net;
        fw_critic := critic;
        fw_target_network := target;
        fw_mede_weights := mede_weights;
        fw_rng := g |}.

(** [update]: the forward passes above, then the losses, the steps of the
    optimizers, the soft update and the discriminator. *)
Definition update (self : t) (g : RNG) (batch : AgentBuffer) (num_sequences : nat)
  : exc (t * Dict.t fl * list Event * RNG) :=
  fw <- update_forward self g batch ;;
  let seq_len := sequence_length (policy self) in
  let rewards := fw_rewards fw in
  let current_obs := fw_current_obs fw in
  let sampled_actions := fw_sampled_actions fw in
  let log_probs := fw_log_probs fw in
  let value_estimates := fw_value_estimates fw in
  let cont_sampled_actions := AgentAction.continuous_tensor sampled_actions in
  let q_memories := fw_q_memories fw in
  let q1p_out := fw_q1p_out fw in
  let q2p_out := fw_q2p_out fw in
  let q1_stream := fw_q1_stream fw in
  let q2_stream := fw_q2_stream fw in
  let target_values := fw_target_values fw in
  let masks := fw_masks fw in
  let dones := fw_dones fw in
  let mede_value_rewards := fw_mede_value_rewards fw in
  let mede_policy_rewards := fw_mede_policy_rewards fw in
  let actor0 := actor (policy self) in
  let q_net := fw_q_network fw in
  let critic := fw_critic fw in
  let target := fw_target_network fw in
  let mede_weights := fw_mede_weights fw in
  let g := fw_rng fw in
  '(q1_loss, q2_loss) <-
    sac_q_loss self q1_stream q2_stream target_values dones rewards masks ;;
  value_loss <-
    sac_value_loss self log_probs value_estimates q1p_out q2p_out masks
                   mede_value_rewards ;;
  policy_loss <- sac_policy_loss self log_probs q1p_out masks mede_policy_rewards ;;
  entropy_loss <- sac_entropy_loss self log_probs masks ;;
  let total_value_loss := op2 true fadd q1_loss q2_loss in
  let '(policy_loss, total_value_loss) :=
    if shared_critic (policy self)
    then (op2 true fadd policy_loss value_loss, total_value_loss)
    else (policy_loss, op2 true fadd total_value_loss value_loss) in
  let decay_lr :=
    decayed_value (hyperparameters self) (max_steps self)
                  (current_step (policy self)) in
  _ <- backward policy_loss ;;
  let '(policy_opt, actor1) :=
    policy_step (policy_optimizer self) decay_lr policy_loss batch actor0 in
  _ <- backward total_value_loss ;;
  let '(value_opt, (q_net, critic_parameters)) :=
    value_step (value_optimizer self) decay_lr total_value_loss batch
               (q_net, parameters critic) in
  entropy_loss <-
    match entropy_loss with
    | Some l => _ <- backward l ;; OK l
    | None => Raise AttributeError
    end ;;
  let '(entropy_opt, log_ent_coef) :=
    entropy_step (entropy_optimizer self) decay_lr entropy_loss batch
                 (_log_ent_coef self) in
  (* Update target network *)
  let target_parameters :=
    ModelUtils.soft_update critic_parameters (parameters target) (tau self) in
  let trace :=
    [Step PolicyOptimizer (data policy_loss) decay_lr;
     Step ValueOptimizer (data total_value_loss) decay_lr;
     Step EntropyOptimizer (data entropy_loss) decay_lr;
     SoftUpdate (tau self)] in
  let update_stats : Dict.t fl :=
    [("Losses/Policy Loss"%string, data policy_loss);
     ("Losses/Value Loss"%string, data value_loss);
     ("Losses/Q1 Loss"%string, data q1_loss);
     ("Losses/Q2 Loss"%string, data q2_loss);
     ("Policy/Discrete Entropy Coeff"%string,
      fmean (map fexp (data (LogEntCoef.discrete log_ent_coef))));
     ("Policy/Continuous Entropy Coeff"%string,
      fexp (data (LogEntCoef.continuous log_ent_coef)));
     ("Policy/Learning Rate"%string, decay_lr);
     ("Policy/Entropy Loss"%string, data entropy_loss)] in
  '(mede_network, mede_weights, mede_opt, sal_obs, sal_act, update_stats, trace, g) <-
    (if use_mede self then
       match _mede_network self, mede_weights, _mede_optimizer self with
       | Some network, Some weights, Some opt =>
           '(network, losses, g) <-
             DiverseNetworkVariational.loss RNG (mede_predict weights)
               mede_apply_dropout masked_mean network true g current_obs
               sampled_actions log_probs masks true true ;;
           let mede_loss := DiverseNetworkVariational.total_loss losses in
           _ <- backward mede_loss ;;
           let '(opt, (weights, z_sigma)) :=
             mede_step opt decay_lr mede_loss batch
                       (weights, DiverseNetworkVariational._z_sigma network) in
           let network := DiverseNetworkVariational.with_z_sigma network z_sigma in
           let trace := trace ++ [Step MedeOptimizer (data mede_loss) decay_lr] in
           '(sal_obs, sal_act, network, trace) <-
             (if positive (mede_saliency_dropout self) then
                '(sal_obs, sal_act, network) <-
                  _update_saliency
                    (with_networks self q_net (Some network)) current_obs
                    cont_sampled_actions q_memories seq_len ;;
                OK (sal_obs, sal_act, network, trace ++ [UpdateSaliency])
              else OK (sal_observations self, sal_cont_actions self, network, trace)) ;;
           let update_stats :=
             Dict.set
               (Dict.set
                  (Dict.set
                     (Dict.set
                        (Dict.set update_stats "Policy/MEDE Loss" (data mede_loss))
                        "Policy/MEDE Base"
                        (data (DiverseNetworkVariational.base_loss losses)))
                     "Policy/MEDE Variational"
                     (item_or_zero (DiverseNetworkVariational.vail_loss losses)))
                  "Policy/MEDE KL"
                  (item_or_zero (DiverseNetworkVariational.kl_loss losses)))
               "Policy/MEDE beta"
               (item_or_zero (DiverseNetworkVariational.beta losses)) in
           OK (Some network, Some weights, Some opt, sal_obs, sal_act, update_stats,
               trace, g)
       | _, _, _ => Raise AttributeError
       end
     else OK (_mede_network self, mede_weights, _mede_optimizer self,
              sal_observations self, sal_cont_actions self, update_stats, trace, g)) ;;
  OK ({| policy :=
           {| shared_critic := shared_critic (policy self);
              behavior_spec := behavior_spec (policy self);
              sequence_length := sequence_length (policy self);
              current_step := current_step (policy self);
              actor := actor1 |};
         reward_signals := reward_signals self;
         hyperparameters := hyperparameters self;
         max_steps := max_steps self;
         _critic :=
           {| parameters := critic_parameters; normalizer := normalizer critic |};
         tau := tau self;
         init_entcoef := init_entcoef self;
         burn_in_ratio := burn_in_ratio self;
         discrete_target_entropy_scale := discrete_target_entropy_scale self;
         continuous_target_entropy_scale := continuous_target_entropy_scale self;
         stream_names := stream_names self;
         gammas := gammas self;
         use_dones_in_backup := use_dones_in_backup self;
         _action_spec := _action_spec self;
         q_network := q_net;
         target_network :=
           {| parameters := target_parameters; normalizer := normalizer target |};
         _log_ent_coef := log_ent_coef;
         target_entropy := target_entropy self;
         use_mede := use_mede self;
         _mede_network := mede_network;
         _mede_weights := mede_weights;
         _mede_optimizer := mede_opt;
         mede_saliency_dropout := mede_saliency_dropout self;
         mede_strength := mede_strength self;
         mede_policy_loss := mede_policy_loss self;
         sal_observations := sal_obs;
         sal_cont_actions := sal_act;
         sal_weight := sal_weight self;
         policy_optimizer := policy_opt;
         value_optimizer := value_opt;
         entropy_optimizer := entropy_opt |},
      update_stats, trace, g).

(** *** The reward signals and the modules to save *)

(** [reward_provider.update(update_buffer)]: the provider after its update
    and the statistics that it reports. *)
Variable provider_update :
  RewardProvider -> AgentBuffer -> exc (RewardProvider * Dict.t fl).

(** What a reward provider saves, and [reward_provider.get_modules()]. *)
Variable ProviderModule : Type.
Variable provider_get_modules : RewardProvider -> Dict.t ProviderModule.

(** [self] with its reward providers as their updates left them. *)
Definition with_reward_signals (self : t) (providers : Dict.t RewardProvider) : t :=
  {| policy := policy self;
     reward_signals := providers;
     hyperparameters := hyperparameters self;
     max_steps := max_steps self;
     _critic := _critic self;
     tau := tau self;
     init_entcoef := init_entcoef self;
     burn_in_ratio := burn_in_ratio self;
     discrete_target_entropy_scale := discrete_target_entropy_scale self;
     continuous_target_entropy_scale := continuous_target_entropy_scale self;
     stream_names := stream_names self;
     gammas := gammas self;
     use_dones_in_backup := use_dones_in_backup self;
     _action_spec := _action_spec self;
     q_network := q_network self;
     target_network := target_network self;
     _log_ent_coef := _log_ent_coef self;
     target_entropy := target_entropy self;
     use_mede := use_mede self;
     _mede_network := _mede_network self;
     _mede_weights := _mede_weights self;
     _mede_optimizer := _mede_optimizer self;
     mede_saliency_dropout := mede_saliency_dropout self;
     mede_strength := mede_strength self;
     mede_policy_loss := mede_policy_loss self;
     sal_observations := sal_observations self;
     sal_cont_actions := sal_cont_actions self;
     sal_weight := sal_weight self;
     policy_optimizer := policy_optimizer self;
     value_optimizer := value_optimizer self;
     entropy_optimizer := entropy_optimizer self |}.

(** The loop of [update_reward_signals] over the minibatches, in their
    order. *)
Fixpoint update_reward_signals_loop (providers : Dict.t RewardProvider)
         (minibatches : Dict.t AgentBuffer) (update_stats : Dict.t fl)
  : exc (Dict.t RewardProvider * Dict.t fl) :=
  match minibatches with
  | [] => OK (providers, update_stats)
  | (name, update_buffer) :: rest =>
      provider <- Dict.get providers name ;;
      '(provider, stats) <- provider_update provider update_buffer ;;
      update_reward_signals_loop (Dict.set providers name provider) rest
                                 (Dict.update update_stats stats)
  end.

Definition update_reward_signals (self : t)
           (reward_signal_minibatches : Dict.t AgentBuffer) (num_sequences : nat)
  : exc (t * Dict.t fl) :=
  '(providers, update_stats) <-
    update_reward_signals_loop (reward_signals self) reward_signal_minibatches [] ;;
  OK (with_reward_signals self providers, update_stats).

(** The values of the dictionary that [get_modules] returns. *)
Inductive SavedModule : Type :=
| QNetworkModule (q : QNetwork)
| ValueNetworkModule (v : ValueNetwork Normalizer)
| AdamModule (a : option Adam)
| MedeNetworkModule (n : option DiverseNetworkVariational.t) (w : option MedeWeights)
| RewardModule (m : ProviderModule).

Definition get_modules (self : t) : Dict.t SavedModule :=
  let modules : Dict.t SavedModule :=
    [("Optimizer:q_network"%string, QNetworkModule (q_network self));
     ("Optimizer:value_network"%string, ValueNetworkModule (_critic self));
     ("Optimizer:target_network"%string, ValueNetworkModule (target_network self));
     ("Optimizer:policy_optimizer"%string, AdamModule (Some (policy_optimizer self)));
     ("Optimizer:value_optimizer"%string, AdamModule (Some (value_optimizer self)));
     ("Optimizer:entropy_optimizer"%string, AdamModule (Some (entropy_optimizer self)))] in
  let modules :=
    if use_mede self then
      Dict.update modules
        [("Optimizer:mede_optimizer"%string, AdamModule (_mede_optimizer self));
         ("Optimizer:mede_network"%string,
          MedeNetworkModule (_mede_network self) (_mede_weights self))]
    else modules in
  fold_left (fun modules reward_provider =>
               Dict.update modules
                 (map (fun kv => (fst kv, RewardModule (snd kv)))
                      (provider_get_modules reward_provider)))
            (Dict.values (reward_signals self)) modules.

End Optimizer.

End TorchSACOptimizer.

(** * Specification vocabulary *)

(** The runs of a discriminator: calls of [loss] whose KL term is a real
    number, calls of [update_saliency], and steps of the optimizer that
    owns [_z_sigma]. *)
Inductive discriminator_step : DiverseNetworkVariational.t -> DiverseNetworkVariational.t -> Prop :=
| discriminator_step_loss :
    forall (G : Type) predict dropout mm self mode (g : G) obs act lp masks det noise
           self' losses g',
      DiverseNetworkVariational.loss G predict dropout mm self mode g obs act lp masks
                                     det noise = OK (self', losses, g') ->
      (forall kl, DiverseNetworkVariational.kl_loss losses = Some kl ->
                  exists k : R, data kl = Fin k) ->
      discriminator_step self self'
| discriminator_step_saliency :
    forall self sal_obs sal_act self',
      DiverseNetworkVariational.update_saliency self sal_obs sal_act = OK self' ->
      discriminator_step self self'
| discriminator_step_adam :
    forall self z_sigma,
      discriminator_step self (DiverseNetworkVariational.with_z_sigma self z_sigma).

Inductive discriminator_run : DiverseNetworkVariational.t -> DiverseNetworkVariational.t -> Prop :=
| discriminator_run_refl : forall self, discriminator_run self self
| discriminator_run_step :
    forall self self' self'', discriminator_run self self' -> discriminator_step self' self'' ->
                              discriminator_run self self''.

(** The reward of one sample in the words of the spec:
    [log(sum(prediction * truth) + epsilon)], less [log(1 / diversity_size)]
    when it is centered.  [products] is the row [prediction * truth]. *)
Definition plain_reward (centered : bool) (diversity_size : nat) (products : vec) : fl :=
  let r := fln (fadd (fsum products) DiverseNetworkVariational.EPSILON) in
  if centered then fsub r (fln (fdiv (Fin 1) (of_nat diversity_size))) else r.

Definition uniform4 : vec := [Fin 0.25; Fin 0.25; Fin 0.25; Fin 0.25].

(** The channels of least and of greatest saliency. *)
Definition min_channel (sal : list R) (i : nat) : Prop :=
  (i < length sal)%nat /\ Forall (fun s => nth i sal 0 <= s) sal.

Definition max_channel (sal : list R) (i : nat) : Prop :=
  (i < length sal)%nat /\ Forall (fun s => s <= nth i sal 0) sal.

(** A saliency tensor with two different values. *)
Definition spread (sal : list R) : Prop :=
  exists a b, In a sal /\ In b sal /\ a <> b.

(** What a drop tensor is after the rescaling of the reals [sal]: the
    channels of least saliency at [least], those of greatest saliency at
    [greatest], and the rate strictly decreasing in between. *)
Definition rescaled (least greatest : R) (sal : list R) (drop : vec) : Prop :=
  length drop = length sal
  /\ (forall i, min_channel sal i -> nth i drop NaN = Fin least)
  /\ (forall i, max_channel sal i -> nth i drop NaN = Fin greatest)
  /\ (forall i j, (i < length sal)%nat -> (j < length sal)%nat ->
                  nth i sal 0 < nth j sal 0 ->
                  exists di dj, nth i drop NaN = Fin di /\ nth j drop NaN = Fin dj
                                /\ (least < greatest -> di < dj)
                                /\ (greatest < least -> dj < di)).

(** What [update_saliency] leaves in the drop tensors for the reals
    [sal_obs] and [sal_act]: every tensor rescaled, the observations other
    than the goal signal in their order. *)
Definition saliency_rescaled (least greatest : R) (self : DiverseNetworkVariational.t)
           (sal_obs : list (list R)) (sal_act : list R) : Prop :=
  exists self',
    DiverseNetworkVariational.update_saliency self (map (map Fin) sal_obs)
                                              (map Fin sal_act) = OK self'
    /\ rescaled least greatest sal_act
                (DiverseNetworkVariational.cont_actions_sal_drop self')
    /\ forall j sal,
         nth_error (drop_index (DiverseNetworkVariational._diverse_index self) 0 sal_obs)
                   j = Some sal ->
         exists drop,
           nth_error (DiverseNetworkVariational.observations_sal_drop self') j
           = Some drop
           /\ rescaled least greatest sal drop.

(** The target after [n] soft updates towards a fixed source. *)
Definition soft_updates (n : nat) (source target : vec) (tau : fl) : vec :=
  Nat.iter n (fun t => ModelUtils.soft_update source t tau) target.

(** Every element of [xs] is a real within [eps] of its element of [ys]. *)
Definition within (eps : R) (xs : vec) (ys : list R) : Prop :=
  Forall2 (fun x y => exists r, x = Fin r /\ Rabs (r - y) < eps) xs ys.

(** Of one sample, the Q value of the action taken in branch [j]: the
    element that the action selects in the slice of the branch. *)
Definition selected (branches : list nat) (actions : list nat) (row : list R) (j : nat)
  : R :=
  nth (nth j actions 0%nat) (nth j (ModelUtils.break_row row branches) []) 0.

(** The arithmetic mean of reals. *)
Definition mean_R (xs : list R) : R := fold_left Rplus xs 0 / INR (length xs).

(** Of one sample, the mean over the branches of the selected Q values. *)
Definition condensed (branches : list nat) (actions : list nat) (row : list R) : R :=
  mean_R (map (selected branches actions row) (seq 0 (length branches))).

(** A batch of discrete actions and of Q outputs of the shapes that the
    branches ask for: one action below the cardinality for every branch, one
    Q value for every action of every branch. *)
Definition well_shaped (branches : list nat) (actions : list (list nat))
           (q : list (list R)) : Prop :=
  length actions = length q
  /\ Forall (fun a => length a = length branches
                      /\ forall j, (j < length branches)%nat ->
                                   (nth j a 0 < nth j branches 0)%nat) actions
  /\ Forall (fun row => length row = list_sum branches) q.

(** The Q output of a stream, of reals, as a tensor. *)
Definition q_tensor (stream : string * list (list R) * bool)
  : string * Tensor tensor :=
  (fst (fst stream), mkTensor (Mat (map (map Fin) (snd (fst stream)))) (snd stream)).

(** A reward stream, as the Q loss sees it: its name, the rewards and the
    target values of the batch, the outputs of the two Q heads, its
    discount and whether its reward signal ignores terminal states. *)
Record Stream : Type := {
  stream_name : string;
  stream_reward : Tensor (list fl);
  stream_target_value : Tensor (list fl);
  stream_q1 : Tensor tensor;
  stream_q2 : Tensor tensor;
  stream_gamma : fl;
  stream_ignore_done : bool
}.

(** [done_mask_i]: 1 unless the reward signal ignores terminal states. *)
Definition done_mask (s : Stream) : Z := if stream_ignore_done s then 0 else 1.

(** [backup = reward_i + (1 - done_mask_i * done) * gamma_i * target_value_i],
    sample by sample. *)
Definition stream_backup (s : Stream) (dones : list fl) : list fl :=
  map (fun rdt =>
         fadd (fst rdt)
              (fmul (fmul (fsub (Fin 1.0) (fmul (of_Z (done_mask s)) (fst (snd rdt))))
                          (stream_gamma s))
                    (snd (snd rdt))))
      (combine (data (stream_reward s))
               (combine dones (data (stream_target_value s)))).

(** [sum(alpha_c * log_prob_c)] of one sample, on reals. *)
Definition entropy_term (alpha : R) (log_probs : list R) : R :=
  fold_left Rplus (map (Rmult alpha) log_probs) 0.

(** A discriminator for examples: one goal signal of size 4 after an
    observation of size 3, three continuous actions, no discrete ones. *)
Definition example_discriminator (max_saliency_dropout : fl) (centered noise : bool)
  : DiverseNetworkVariational.t :=
  {| DiverseNetworkVariational._use_actions := false;
     DiverseNetworkVariational._max_saliency_dropout := max_saliency_dropout;
     DiverseNetworkVariational.drop_actions := false;
     DiverseNetworkVariational.centered_reward := centered;
     DiverseNetworkVariational.mutual_information := Fin 0.5;
     DiverseNetworkVariational.observations_sal_drop := [zeros 3];
     DiverseNetworkVariational.cont_actions_sal_drop := zeros 3;
     DiverseNetworkVariational._all_obs_specs :=
       [ {| shape := [3%nat]; observation_type := DEFAULT |};
         {| shape := [4%nat]; observation_type := GOAL_SIGNAL |} ];
     DiverseNetworkVariational.diverse_size := 4;
     DiverseNetworkVariational._dropout := None;
     DiverseNetworkVariational._encoder_dropout := None;
     DiverseNetworkVariational.disc_sizes := [];
     DiverseNetworkVariational.cont_size := 3;
     DiverseNetworkVariational._z_sigma :=
       if noise then Some (mkTensor [Fin 1] true) else None;
     DiverseNetworkVariational._beta :=
       if noise then Some (mkTensor (Fin 0.0) false) else None;
     DiverseNetworkVariational._diverse_index := 1;
     DiverseNetworkVariational._max_index := 2 |}.

(** ** Vocabulary of the optimizer *)

Section OptimizerVocabulary.

Context {C : Collaborators}.

Import TorchSACOptimizer.

(** The events after the soft update: the step of the discriminator's
    optimizer and the saliency refresh. *)
Definition after_soft_update (e : Event) : Prop :=
  match e with
  | Step o _ _ => o = MedeOptimizer
  | SoftUpdate _ => False
  | UpdateSaliency => True
  end.

(** The optimizers that a program can hold: made by the constructor, then
    updated any number of times. *)
Inductive constructed : t -> Prop :=
| constructed_init :
    forall g policy0 params self g',
      __init__ g policy0 params = OK (self, g') -> constructed self
| constructed_update :
    forall self g batch n self' stats trace g',
      constructed self ->
      update self g batch n = OK (self', stats, trace, g') ->
      constructed self'.

(** The loss of one Q head for one stream in the words of the spec,
    [loss_i = 0.5 * masked_mean(mse(backup, q_i))], written out: [mse] is
    the mean over the samples of the squared difference [backup - q_i].
    The backup carries no gradient, so the loss requires gradients as
    [q_i] does. *)
Definition head_q_loss (backup : list fl) (q_i : Tensor (list fl))
           (loss_masks : list bool) : exc (Tensor fl) :=
  difference <- vop fsub backup (data q_i) ;;
  let mse := fmean (map (fun d => fmul d d) difference) in
  mean <- masked_mean (T0 mse) loss_masks ;;
  OK (mkTensor (fmul (Fin 0.5) mean) (requires_grad q_i)).

(** The two losses of a stream in the words of the spec: each Q head gets
    its loss on its own, from the same backup. *)
Definition stream_q_losses (dones : list fl) (loss_masks : list bool) (s : Stream)
  : exc (Tensor fl * Tensor fl) :=
  let backup := stream_backup s dones in
  q1_stream <- op1e true squeeze (stream_q1 s) ;;
  q2_stream <- op1e true squeeze (stream_q2 s) ;;
  loss1 <- head_q_loss backup q1_stream loss_masks ;;
  loss2 <- head_q_loss backup q2_stream loss_masks ;;
  OK (loss1, loss2).

End OptimizerVocabulary.

(** ** A small instance

    One reward stream, one observation of size 1, one continuous action, a
    batch of one transition.  The critic returns the observation as its
    value, the Q heads return 0, the actor samples the action 0 with the
    log-probability -1, and the optimizers leave what they own as it is. *)

Module Toy.

Record Buffer : Type := {
  observation : fl;
  reward : fl;
  done : fl
}.

Definition sampled : AgentAction.t :=
  {| AgentAction.continuous_tensor := mkTensor [[Fin 0]] true;
     AgentAction.discrete_tensor := mkLong 0 [[]] |}.

Definition stored : AgentAction.t :=
  {| AgentAction.continuous_tensor := mkTensor [[Fin 0]] false;
     AgentAction.discrete_tensor := mkLong 0 [[]] |}.

Definition log_probs : ActionLogProbs.t :=
  {| ActionLogProbs.continuous_tensor := mkTensor [[Fin (-1)]] true;
     ActionLogProbs.all_discrete_tensor := mkTensor [[]] true |}.

Definition predict (self : DiverseNetworkVariational.t) (mode : bool) (g : unit)
           (obs : list (list (list fl))) (act : AgentAction.t) (detach noise : bool)
  : exc (Tensor (list (list fl)) * Tensor (list (list fl)) * unit) :=
  OK (mkTensor [uniform4] mode, mkTensor [[Fin 0]] mode, g).

Definition collaborators : Collaborators :=
  {| RNG := unit;
     Actor := unit;
     QNetwork := unit;
     Normalizer := unit;
     MedeWeights := unit;
     Adam := unit;
     AgentBuffer := Buffer;
     masked_mean := ModelUtils.masked_mean;
     create_reward_signals :=
       map (fun kv => (fst kv, {| ignore_done := false |}));
     new_value_network :=
       fun g _ _ => ({| parameters := [Fin 1; Fin 2]; normalizer := tt |}, g);
     new_q_network := fun g _ _ _ => (tt, g);
     new_mede_weights := fun g _ _ => (tt, g);
     new_adam := fun _ _ => tt;
     mede_hidden_units := 1;
     actor_normalizer := fun _ => tt;
     get_action_and_stats := fun _ g _ _ _ _ => OK (sampled, log_probs, g);
     critic_pass :=
       fun mode _ obs _ _ =>
         OK ([("extrinsic"%string,
               mkTensor (map (fun row => hd (Fin 0) row) (hd [] obs)) mode)],
             None);
     q_forward :=
       fun _ _ _ _ _ q1_grad q2_grad =>
         OK ([("extrinsic"%string, mkTensor (Vec [Fin 0]) q1_grad)],
             [("extrinsic"%string, mkTensor (Vec [Fin 0]) q2_grad)]);
     q_copy_normalization := fun q _ => q;
     q_input_gradients := fun _ _ _ _ _ => OK ([[[Fin 1]]], [[Fin 1]]);
     mede_predict := fun _ => predict;
     mede_apply_dropout := fun _ g t => (t, g);
     mede_copy_normalization := fun w _ => w;
     policy_step := fun a _ _ _ actor => (a, actor);
     value_step := fun a _ _ _ owned => (a, owned);
     entropy_step := fun a _ _ _ coef => (a, coef);
     mede_step := fun a _ _ _ owned => (a, owned);
     decayed_value := fun h _ _ => SACSettings.learning_rate h;
     buffer_rewards := fun b _ => OK [reward b];
     from_buffer := fun b _ => [[[observation b]]];
     from_buffer_next := fun b _ => [[[observation b]]];
     buffer_action_mask := fun _ => [[]];
     buffer_actions := fun _ => stored;
     buffer_memory := fun _ => [];
     buffer_critic_memory := fun _ => [];
     buffer_masks := fun _ => [true];
     buffer_done := fun b => [done b] |}.

Definition settings (noise : bool) : SACSettings.t :=
  {| SACSettings.tau := Fin 0.005;
     SACSettings.init_entcoef := Fin 1;
     SACSettings.learning_rate := Fin 0.0003;
     SACSettings.mede := false;
     SACSettings.mede_use_actions := false;
     SACSettings.mede_saliency_dropout := Fin 0;
     SACSettings.mede_drop_actions := false;
     SACSettings.mede_centered := false;
     SACSettings.mede_mutual_information := Fin 0.5;
     SACSettings.mede_dropout := Fin 0;
     SACSettings.mede_encoder_dropout := Fin 0;
     SACSettings.mede_noise := noise;
     SACSettings.mede_strength := Fin 0;
     SACSettings.mede_for_policy_loss := false;
     SACSettings.mede_weight_decay := Fin 0 |}.

Definition params : TrainerSettings.t :=
  {| TrainerSettings.reward_signals := [("extrinsic"%string, {| gamma := Fin 0.99 |})];
     TrainerSettings.hyperparameters := settings false;
     TrainerSettings.max_steps := 1000 |}.

Definition specs (actions : ActionSpec) : BehaviorSpec :=
  {| observation_specs := [ {| shape := [1%nat]; observation_type := DEFAULT |} ];
     action_spec := actions |}.

Definition continuous_only : ActionSpec :=
  {| continuous_size := 1; discrete_branches := [] |}.

Definition hybrid : ActionSpec :=
  {| continuous_size := 1; discrete_branches := [2%nat] |}.

Definition policy (shared : bool) (actions : ActionSpec)
  : @TorchSACOptimizer.TorchPolicy collaborators :=
  {| TorchSACOptimizer.shared_critic := shared;
     TorchSACOptimizer.behavior_spec := specs actions;
     TorchSACOptimizer.sequence_length := 1;
     TorchSACOptimizer.current_step := 0;
     TorchSACOptimizer.actor := (tt : @Actor collaborators) |}.

(** The specs of a discriminator: an observation and a goal signal of
    size 4. *)
Definition goal_specs : BehaviorSpec :=
  {| observation_specs :=
       [ {| shape := [1%nat]; observation_type := DEFAULT |};
         {| shape := [4%nat]; observation_type := GOAL_SIGNAL |} ];
     action_spec := continuous_only |}.

Definition goal_obs : list (list (list fl)) :=
  [[[Fin 0]]; [[Fin 0; Fin 1; Fin 0; Fin 0]]].

(** A batch of one finite transition. *)
Definition batch : Buffer :=
  {| observation := Fin 3; reward := Fin 1; done := Fin 0 |}.

(** The stream of the instance, as the Q loss sees it. *)
Definition extrinsic : Stream :=
  {| stream_name := "extrinsic";
     stream_reward := constant [Fin 1];
     stream_target_value := mkTensor [Fin 2] false;
     stream_q1 := mkTensor (Vec [Fin 0]) true;
     stream_q2 := mkTensor (Vec [Fin 0]) true;
     stream_gamma := Fin 0.99;
     stream_ignore_done := false |}.

(** The parts of a discriminator: every draw is one half, dropout and
    noise change nothing, the encoder returns its first observation and the
    last layer four zeros for every sample. *)
Definition rand (g : unit) (batch k : nat) : list (list fl) * unit :=
  (repeat (repeat (Fin 0.5) k) batch, g).

Definition dropout (p : fl) (g : unit) (t : Tensor (list (list fl)))
  : Tensor (list (list fl)) * unit :=
  (t, g).

Definition encoder (mode : bool) (obs : list (list (list fl)))
           (action : option (Tensor (list (list fl)))) : exc (Tensor (list (list fl))) :=
  OK (mkTensor (hd [] obs) mode).

Definition normal (g : unit) (z_mu : Tensor (list (list fl))) (z_sigma : Tensor (list fl))
  : exc (Tensor (list (list fl)) * unit) :=
  OK (z_mu, g).

Definition last_layer (mode : bool) (hidden : Tensor (list (list fl)))
  : exc (Tensor (list (list fl))) :=
  OK (mkTensor (map (fun _ => [Fin 0; Fin 0; Fin 0; Fin 0]) (data hidden)) mode).

(** A reward provider that reports the reward of the batch and saves one
    module. *)
Definition provider_update (provider : RewardProvider) (b : Buffer)
  : exc (RewardProvider * Dict.t fl) :=
  OK (provider, [("Losses/Reward"%string, reward b)]).

Definition provider_get_modules (provider : RewardProvider) : Dict.t unit :=
  [("Module:reward"%string, tt)].

(** An action spec without actions. *)
Definition no_actions : ActionSpec :=
  {| continuous_size := 0; discrete_branches := [] |}.

End Toy.


(** * Properties *)

(** ** Exceptions and lists *)

Lemma bind_OK {A B : Type} (m : exc A) (k : A -> exc B) (r : B) :
  bind m k = OK r -> exists a, m = OK a /\ k a = OK r.
Proof.
  destruct m as [a|e]; simpl; intros H; [exists a; auto | discriminate].
Qed.

(** Splits a hypothesis [bind m k = OK r] into its two halves. *)
Ltac inv_bind H :=
  let a := fresh "x" in
  let Ha := fresh "E" in
  apply bind_OK in H; destruct H as (a & Ha & H).

(** ** The adaptive KL weight *)

Lemma next_beta_data (self : DiverseNetworkVariational.t) (beta kl : Tensor fl) :
  data (DiverseNetworkVariational.next_beta self beta kl)
  = fmax (fadd (data beta)
               (fmul (Fin 0.0005)
                     (fsub (data kl) (DiverseNetworkVariational.mutual_information self))))
         (Fin 0.0)
  /\ requires_grad (DiverseNetworkVariational.next_beta self beta kl) = false.
Proof. split; reflexivity. Qed.

Lemma next_beta_nonneg (self : DiverseNetworkVariational.t) (beta kl : Tensor fl)
      (b k mi : R) :
  DiverseNetworkVariational.mutual_information self = Fin mi ->
  data beta = Fin b -> data kl = Fin k ->
  exists b', DiverseNetworkVariational.next_beta self beta kl = mkTensor (Fin b') false
             /\ 0 <= b'.
Proof.
  intros Hmi Hb Hk.
  exists (Rmax (b + 0.0005 * (k + - mi)) 0.0).
  split; [| eapply Rle_trans; [| apply Rmax_r]; lra].
  unfold DiverseNetworkVariational.next_beta, op2, op1, constant.
  cbn [data requires_grad andb]. rewrite Hmi, Hb, Hk. reflexivity.
Qed.

(** What a call of [loss] does to the discriminator. *)
Lemma loss_effect (G : Type) predict dropout mm self mode (g : G) obs act lp masks
      det noise self' losses g' :
  DiverseNetworkVariational.loss G predict dropout mm self mode g obs act lp masks
                                 det noise = OK (self', losses, g') ->
  match DiverseNetworkVariational._z_sigma self with
  | None =>
      self' = self
      /\ DiverseNetworkVariational.kl_loss losses = None
      /\ DiverseNetworkVariational.beta losses = None
  | Some _ =>
      exists beta kl,
        DiverseNetworkVariational._beta self = Some beta
        /\ DiverseNetworkVariational.kl_loss losses = Some kl
        /\ self' = DiverseNetworkVariational.with_beta
                     self (DiverseNetworkVariational.next_beta self beta kl)
        /\ DiverseNetworkVariational.beta losses
           = Some (DiverseNetworkVariational.next_beta self beta kl)
  end.
Proof.
  unfold DiverseNetworkVariational.loss. intros H.
  inv_bind H. destruct x as [r g1]. inv_bind H.
  destruct (DiverseNetworkVariational._z_sigma self) as [z|].
  - inv_bind H. destruct x0 as [[p mu] g2]. inv_bind H. inv_bind H.
    destruct (DiverseNetworkVariational._beta self) as [beta|]; [| discriminate].
    inversion H; subst. exists beta, x1. repeat split; reflexivity.
  - inversion H; subst. repeat split; reflexivity.
Qed.

Lemma discriminator_step_beta (self self' : DiverseNetworkVariational.t) (mi : R) :
  discriminator_step self self' ->
  DiverseNetworkVariational.mutual_information self = Fin mi ->
  (exists b, DiverseNetworkVariational._beta self = Some (mkTensor (Fin b) false)
             /\ 0 <= b) ->
  DiverseNetworkVariational.mutual_information self' = Fin mi
  /\ exists b', DiverseNetworkVariational._beta self' = Some (mkTensor (Fin b') false)
                /\ 0 <= b'.
Proof.
  intros Hstep Hmi (b & Hb & Hpos).
  destruct Hstep as [G predict dropout mm self mode g obs act lp masks det noise
                       self' losses g' Hloss Hkl
                    | self sal_obs sal_act self' Hsal
                    | self z].
  - apply loss_effect in Hloss.
    destruct (DiverseNetworkVariational._z_sigma self).
    + destruct Hloss as (beta & kl & Hbeta & Hk & -> & _).
      destruct (Hkl kl Hk) as (k & Hfin).
      rewrite Hb in Hbeta. inversion Hbeta; subst beta.
      destruct (next_beta_nonneg self (mkTensor (Fin b) false) kl b k mi Hmi eq_refl Hfin)
        as (b' & Hnext & Hpos').
      split; [exact Hmi |]. exists b'. split; [| exact Hpos'].
      cbn [DiverseNetworkVariational.with_beta DiverseNetworkVariational._beta].
      now rewrite Hnext.
    + destruct Hloss as (-> & _). split; [exact Hmi |]. exists b. auto.
  - unfold DiverseNetworkVariational.update_saliency in Hsal.
    inv_bind Hsal. inv_bind Hsal. inversion Hsal; subst.
    split; [exact Hmi |]. exists b. auto.
  - split; [exact Hmi |]. exists b. auto.
Qed.

(** C8.  In noise mode a call of [loss] replaces beta, once, by
    [max(beta + 0.0005 * (KL - target), 0)], a value that does not require
    gradients, and returns it; without noise mode beta is left alone.
    Hence, from the initial 0, beta is a non-negative number after any run
    of the discriminator, whatever real KL values the calls compute. *)
Theorem beta_updated_once_and_nonnegative :
  (forall (G : Type) predict dropout mm self mode (g : G) obs act lp masks det noise
          self' losses g',
      DiverseNetworkVariational.loss G predict dropout mm self mode g obs act lp masks
                                     det noise = OK (self', losses, g') ->
      match DiverseNetworkVariational._z_sigma self with
      | None => self' = self
      | Some _ =>
          exists beta kl beta',
            DiverseNetworkVariational._beta self = Some beta
            /\ DiverseNetworkVariational.kl_loss losses = Some kl
            /\ DiverseNetworkVariational._beta self' = Some beta'
            /\ DiverseNetworkVariational.beta losses = Some beta'
            /\ data beta'
               = fmax (fadd (data beta)
                            (fmul (Fin 0.0005)
                                  (fsub (data kl)
                                        (DiverseNetworkVariational.mutual_information
                                           self))))
                      (Fin 0.0)
            /\ requires_grad beta' = false
      end)
  /\ (forall hidden_units specs params self0 (mi : R) self,
         DiverseNetworkVariational.__init__ hidden_units specs params = OK self0 ->
         SACSettings.mede_noise params = true ->
         SACSettings.mede_mutual_information params = Fin mi ->
         discriminator_run self0 self ->
         exists b, DiverseNetworkVariational._beta self = Some (mkTensor (Fin b) false)
                   /\ 0 <= b).
Proof.
  split.
  - intros G predict dropout mm self mode g obs act lp masks det noise self' losses g' H.
    apply loss_effect in H.
    destruct (DiverseNetworkVariational._z_sigma self); [| tauto].
    destruct H as (beta & kl & Hb & Hk & -> & Hret).
    exists beta, kl, (DiverseNetworkVariational.next_beta self beta kl).
    destruct (next_beta_data self beta kl) as [Hd Hg]. auto 10.
  - intros hidden_units specs params self0 mi self Hinit Hnoise Hmi Hrun.
    assert (Inv : DiverseNetworkVariational.mutual_information self = Fin mi
                  /\ exists b, DiverseNetworkVariational._beta self
                               = Some (mkTensor (Fin b) false) /\ 0 <= b).
    { induction Hrun as [self | self self' self'' Hrun IH Hstep].
      - unfold DiverseNetworkVariational.__init__ in Hinit.
        inv_bind Hinit. inv_bind Hinit. inversion Hinit; subst; clear Hinit.
        cbn [DiverseNetworkVariational.mutual_information
               DiverseNetworkVariational._beta].
        rewrite Hnoise. split; [exact Hmi |]. exists 0.0. split; [reflexivity | lra].
      - destruct (IH Hinit) as [Hmi' Hb].
        exact (discriminator_step_beta self' self'' mi Hstep Hmi' Hb). }
    exact (proj2 Inv).
Qed.

(** ** The reward of the discriminator *)

Lemma fln_pos (a : R) : 0 < a -> fln (Fin a) = Fin (ln a).
Proof. intros H. unfold fln. destruct (Rlt_dec 0 a); [reflexivity | contradiction]. Qed.

Lemma fdiv_Fin (a b : R) : b <> 0 -> fdiv (Fin a) (Fin b) = Fin (a / b).
Proof.
  intros H. unfold fdiv. destruct (Req_dec_T b 0); [contradiction | reflexivity].
Qed.

Lemma map_e_total {A B : Type} (f : A -> exc B) (h : A -> B) (xs : list A) :
  (forall x, In x xs -> f x = OK (h x)) -> map_e f xs = OK (map h xs).
Proof.
  induction xs as [|x xs IH]; intros H; simpl; [reflexivity |].
  rewrite (H x (or_introl eq_refl)). simpl.
  rewrite IH by (intros y Hy; apply H; now right). reflexivity.
Qed.

Lemma zip_with_e_repeat {A B C : Type} (f : A -> B -> exc C) (x : A) (ys : list B) :
  zip_with_e f (repeat x (length ys)) ys = map_e (f x) ys.
Proof.
  induction ys as [|y ys IH]; [reflexivity |].
  cbn [length repeat zip_with_e map_e]. now rewrite IH.
Qed.

Lemma broadcast_repeat {A B C : Type} (f : A -> B -> exc C) (x : A) (ys : list B) :
  broadcast f (repeat x (length ys)) ys = map_e (f x) ys.
Proof.
  destruct ys as [|y1 [|y2 ys]]; try reflexivity.
  exact (zip_with_e_repeat f x (y1 :: y2 :: ys)).
Qed.

(** The reward without discrete actions, for any prediction. *)
Lemma rewards_plain (G : Type) predict dropout self mode (g : G) obs act lp det noise
      truth P mu g1 products :
  (DiverseNetworkVariational._use_actions self
   && (0 <? length (DiverseNetworkVariational.disc_sizes self))%nat) = false ->
  py_index obs (DiverseNetworkVariational._diverse_index self) = OK truth ->
  predict self mode g obs act det noise = OK (P, mu, g1) ->
  mop fmul (data P) truth = OK products ->
  (DiverseNetworkVariational.centered_reward self = true ->
   DiverseNetworkVariational.diverse_size self <> 0%nat) ->
  exists r,
    DiverseNetworkVariational.rewards G predict dropout self mode g obs act lp det noise
    = OK (r, g1)
    /\ data r = map (plain_reward (DiverseNetworkVariational.centered_reward self)
                                  (DiverseNetworkVariational.diverse_size self))
                    products.
Proof.
  intros Hpath Htruth Hpred Hprod Hsize.
  unfold DiverseNetworkVariational.rewards.
  rewrite Htruth. cbn [bind]. rewrite Hpred. cbn [bind]. rewrite Hpath.
  unfold op2e, constant. cbn [data]. rewrite Hprod. cbn [bind].
  unfold plain_reward.
  destruct (DiverseNetworkVariational.centered_reward self) eqn:Hc.
  - destruct (Nat.eqb_spec (DiverseNetworkVariational.diverse_size self) 0) as [E|_].
    + now elim (Hsize eq_refl).
    + eexists. split; [reflexivity |].
      unfold op1, sum_dim1. cbn [data]. rewrite !map_map. reflexivity.
  - eexists. split; [reflexivity |].
    unfold op1, sum_dim1. cbn [data]. rewrite !map_map. reflexivity.
Qed.

Lemma uniform_product (row : vec) :
  (exists j, one_hot 4 j = OK row) ->
  exists products, vop fmul uniform4 row = OK products /\ fsum products = Fin 0.25.
Proof.
  intros (j & Hj). unfold one_hot in Hj.
  destruct j as [|[|[|[|j]]]]; cbn in Hj; inversion Hj; subst; clear Hj;
    (eexists; split; [reflexivity | cbn; f_equal; lra]).
Qed.

Lemma ln_quarter_eps :
  0 < ln (0.25 + 1e-7) - ln 0.25 < 4e-7.
Proof.
  assert (H1 : ln 0.25 < ln (0.25 + 1e-7)) by (apply ln_increasing; lra).
  assert (H2 : ln (0.25 + 1e-7) < ln (0.25 * exp 4e-7)).
  { apply ln_increasing; [lra |].
    pose proof (exp_ineq1 4e-7 ltac:(lra)). lra. }
  rewrite ln_mult in H2 by (try lra; apply exp_pos).
  rewrite ln_exp in H2. lra.
Qed.

Lemma uniform_reward (centered : bool) (products : vec) :
  fsum products = Fin 0.25 ->
  if centered
  then exists c, plain_reward true 4 products = Fin c /\ Rabs c < 1e-6
  else plain_reward false 4 products = Fin (ln (0.25 + 1e-7)).
Proof.
  intros Hsum. unfold plain_reward. rewrite Hsum.
  unfold DiverseNetworkVariational.EPSILON. cbn [fadd].
  rewrite fln_pos by lra.
  destruct centered; [| reflexivity].
  unfold of_nat. rewrite fdiv_Fin by (cbn; lra).
  rewrite fln_pos by (cbn; lra).
  eexists. split; [reflexivity |].
  replace (1 / INR 4) with 0.25 by (cbn; lra).
  pose proof ln_quarter_eps. apply Rabs_def1; lra.
Qed.

(** C9.  Without discrete actions the reward of a sample is
    [log(sum(prediction * truth) + EPSILON)], less [log(1 / diverse_size)]
    when the reward is centered.  With [diverse_size = 4], the uniform
    prediction and one-hot truths, the uncentered reward is
    [ln(0.25 + EPSILON)] and the centered one is within 1e-6 of 0. *)
Theorem mede_reward_centering :
  (forall (G : Type) predict dropout self mode (g : G) obs act lp det noise
          truth P mu g1 products,
      (DiverseNetworkVariational._use_actions self
       && (0 <? length (DiverseNetworkVariational.disc_sizes self))%nat) = false ->
      py_index obs (DiverseNetworkVariational._diverse_index self) = OK truth ->
      predict self mode g obs act det noise = OK (P, mu, g1) ->
      mop fmul (data P) truth = OK products ->
      (DiverseNetworkVariational.centered_reward self = true ->
       DiverseNetworkVariational.diverse_size self <> 0%nat) ->
      exists r,
        DiverseNetworkVariational.rewards G predict dropout self mode g obs act lp
                                          det noise = OK (r, g1)
        /\ data r = map (plain_reward (DiverseNetworkVariational.centered_reward self)
                                      (DiverseNetworkVariational.diverse_size self))
                        products)
  /\ (forall (G : Type) predict dropout self mode (g : G) obs act lp det noise
             truth P mu g1,
         (DiverseNetworkVariational._use_actions self
          && (0 <? length (DiverseNetworkVariational.disc_sizes self))%nat) = false ->
         py_index obs (DiverseNetworkVariational._diverse_index self) = OK truth ->
         predict self mode g obs act det noise = OK (P, mu, g1) ->
         DiverseNetworkVariational.diverse_size self = 4%nat ->
         data P = repeat uniform4 (length truth) ->
         Forall (fun row => exists j, one_hot 4 j = OK row) truth ->
         exists r,
           DiverseNetworkVariational.rewards G predict dropout self mode g obs act lp
                                             det noise = OK (r, g1)
           /\ length (data r) = length truth
           /\ Forall (fun x =>
                        if DiverseNetworkVariational.centered_reward self
                        then exists c, x = Fin c /\ Rabs c < 1e-6
                        else x = Fin (ln (0.25 + 1e-7)))
                     (data r)).
Proof.
  split; [intros; eapply rewards_plain; eauto |].
  intros G predict dropout self mode g obs act lp det noise truth P mu g1
         Hpath Htruth Hpred Hsize HP Hhot.
  assert (Hprod : exists products,
             mop fmul (data P) truth = OK products
             /\ length products = length truth
             /\ Forall (fun p => fsum p = Fin 0.25) products).
  { rewrite HP. unfold mop. rewrite broadcast_repeat.
    clear -Hhot. induction Hhot as [|row truth Hrow _ IH].
    - exists []. repeat split; constructor.
    - destruct (uniform_product row Hrow) as (p & Hp & Hsum).
      destruct IH as (ps & Hps & Hlen & Hall).
      exists (p :: ps). cbn [map_e]. rewrite Hp, Hps. cbn.
      repeat split; [now rewrite Hlen | now constructor]. }
  destruct Hprod as (products & Hprod & Hlen & Hall).
  destruct (rewards_plain G predict dropout self mode g obs act lp det noise
                          truth P mu g1 products Hpath Htruth Hpred Hprod)
    as (r & Hr & Hdata); [rewrite Hsize; discriminate |].
  exists r. split; [exact Hr |]. rewrite Hdata, length_map. split; [exact Hlen |].
  rewrite Hsize. apply Forall_map.
  eapply Forall_impl; [| exact Hall]. intros p Hp.
  pose proof (uniform_reward (DiverseNetworkVariational.centered_reward self) p Hp) as H.
  destruct (DiverseNetworkVariational.centered_reward self); exact H.
Qed.

(** ** Saliency dropout *)

Lemma fold_fmin_Fin (ss : list R) (s0 : R) :
  fold_left fmin (map Fin ss) (Fin s0) = Fin (fold_left Rmin ss s0).
Proof. revert s0. induction ss as [|s ss IH]; intros s0; simpl; auto. Qed.

Lemma fold_fmax_Fin (ss : list R) (s0 : R) :
  fold_left fmax (map Fin ss) (Fin s0) = Fin (fold_left Rmax ss s0).
Proof. revert s0. induction ss as [|s ss IH]; intros s0; simpl; auto. Qed.

Lemma fold_Rmin_spec (ss : list R) (s0 : R) :
  Forall (fun s => fold_left Rmin ss s0 <= s) (s0 :: ss)
  /\ In (fold_left Rmin ss s0) (s0 :: ss).
Proof.
  revert s0. induction ss as [|s ss IH]; intros s0; simpl.
  - split; [constructor; [lra | constructor] | auto].
  - destruct (IH (Rmin s0 s)) as [Hall Hin].
    inversion Hall as [|? ? Hhd Htl]; subst. split.
    + constructor; [pose proof (Rmin_l s0 s); lra |].
      constructor; [pose proof (Rmin_r s0 s); lra | exact Htl].
    + destruct Hin as [Hin|Hin]; [| auto].
      unfold Rmin in Hin at 1. destruct (Rle_dec s0 s); auto.
Qed.

Lemma fold_Rmax_spec (ss : list R) (s0 : R) :
  Forall (fun s => s <= fold_left Rmax ss s0) (s0 :: ss)
  /\ In (fold_left Rmax ss s0) (s0 :: ss).
Proof.
  revert s0. induction ss as [|s ss IH]; intros s0; simpl.
  - split; [constructor; [lra | constructor] | auto].
  - destruct (IH (Rmax s0 s)) as [Hall Hin].
    inversion Hall as [|? ? Hhd Htl]; subst. split.
    + constructor; [pose proof (Rmax_l s0 s); lra |].
      constructor; [pose proof (Rmax_r s0 s); lra | exact Htl].
    + destruct Hin as [Hin|Hin]; [| auto].
      unfold Rmax in Hin at 1. destruct (Rle_dec s0 s); auto.
Qed.

Lemma fold_Rmax_shift (c : R) (ss : list R) (x : R) :
  fold_left Rmax (map (fun s => s + - c) ss) (x + - c) = fold_left Rmax ss x - c.
Proof.
  revert x. induction ss as [|s ss IH]; intros x; simpl; [lra |].
  rewrite <- IH. f_equal. unfold Rmax.
  destruct (Rle_dec (x + - c) (s + - c)), (Rle_dec x s); lra.
Qed.

Lemma nth_map_Fin (f : R -> R) (sal : list R) (i : nat) :
  (i < length sal)%nat ->
  nth i (map (fun s => Fin (f s)) sal) NaN = Fin (f (nth i sal 0)).
Proof.
  intros Hi.
  rewrite (nth_indep _ NaN ((fun s => Fin (f s)) 0)) by now rewrite length_map.
  apply (map_nth (fun s => Fin (f s))).
Qed.

(** The rescaling of a tensor of reals with two different values: the rate
    of a channel is [(1 - (s - m) / h) * max_dropout], where [m] is the
    least saliency and [m + h] the greatest. *)
Lemma saliency_drop_real (maxd : R) (sal : list R) :
  spread sal ->
  exists m h,
    0 < h
    /\ Forall (fun s => m <= s <= m + h) sal
    /\ In m sal /\ In (m + h) sal
    /\ DiverseNetworkVariational.saliency_drop (Fin maxd) (map Fin sal)
       = OK (map (fun s => Fin ((1 + - ((s + - m) / h)) * maxd)) sal).
Proof.
  intros (a & b & Ha & Hb & Hab).
  destruct sal as [|s0 ss]; [contradiction |].
  set (m := fold_left Rmin ss s0).
  set (M := fold_left Rmax ss s0).
  destruct (fold_Rmin_spec ss s0) as [Hmin Hmin_in]. fold m in Hmin, Hmin_in.
  destruct (fold_Rmax_spec ss s0) as [Hmax Hmax_in]. fold M in Hmax, Hmax_in.
  assert (HmM : m < M).
  { rewrite Forall_forall in Hmin, Hmax.
    pose proof (Hmin a Ha). pose proof (Hmin b Hb).
    pose proof (Hmax a Ha). pose proof (Hmax b Hb).
    destruct (Rlt_dec m a); [lra |]. destruct (Rlt_dec m b); lra. }
  exists m, (M - m). split; [lra |].
  split.
  { rewrite Forall_forall in *. intros s Hs.
    pose proof (Hmin s Hs). pose proof (Hmax s Hs). lra. }
  split; [exact Hmin_in |].
  split; [replace (m + (M - m)) with M by lra; exact Hmax_in |].
  unfold DiverseNetworkVariational.saliency_drop.
  cbn [map min_all bind]. rewrite fold_fmin_Fin. fold m.
  assert (Hsh : forall l, map (fun x => fsub x (Fin m)) (map Fin l)
                          = map Fin (map (fun s => s + - m) l)).
  { intros l. rewrite !map_map. reflexivity. }
  change (Fin s0 :: map Fin ss) with (map Fin (s0 :: ss)).
  rewrite Hsh. cbn [map max_all bind].
  change (fsub (Fin s0) (Fin m)) with (Fin (s0 + - m)). rewrite fold_fmax_Fin.
  assert (Hh : fold_left Rmax (map (fun s => s + - m) ss) (s0 + - m) = M - m).
  { apply fold_Rmax_shift. }
  rewrite Hh. do 2 f_equal.
  - rewrite fdiv_Fin by lra. reflexivity.
  - rewrite !map_map. apply map_ext. intros s.
    rewrite fdiv_Fin by lra. reflexivity.
Qed.

(** The rescaling gives the greatest rate to the channels of least
    saliency: [max_dropout] there, zero at the channels of greatest
    saliency. *)
Lemma saliency_drop_channels (maxd : R) (sal : list R) :
  spread sal ->
  exists drop,
    DiverseNetworkVariational.saliency_drop (Fin maxd) (map Fin sal) = OK drop
    /\ rescaled maxd 0 sal drop.
Proof.
  intros Hsp.
  destruct (saliency_drop_real maxd sal Hsp) as (m & h & Hh & Hall & Hm & HM & Hdrop).
  eexists. split; [exact Hdrop |].
  rewrite Forall_forall in Hall.
  split; [now rewrite length_map |].
  split; [| split].
  - intros i [Hi Hleast]. rewrite Forall_forall in Hleast.
    rewrite (nth_map_Fin (fun s => (1 + - ((s + - m) / h)) * maxd)) by exact Hi.
    assert (nth i sal 0 = m).
    { pose proof (Hleast m Hm). pose proof (Hall _ (nth_In sal 0 Hi)). lra. }
    f_equal. rewrite H. field. lra.
  - intros i [Hi Hmost]. rewrite Forall_forall in Hmost.
    rewrite (nth_map_Fin (fun s => (1 + - ((s + - m) / h)) * maxd)) by exact Hi.
    assert (nth i sal 0 = m + h).
    { pose proof (Hmost _ HM). pose proof (Hall _ (nth_In sal 0 Hi)). lra. }
    f_equal. rewrite H. field. lra.
  - intros i j Hi Hj Hlt.
    rewrite !(nth_map_Fin (fun s => (1 + - ((s + - m) / h)) * maxd)) by assumption.
    do 2 eexists. split; [reflexivity |]. split; [reflexivity |].
    assert (Hq : (nth i sal 0 + - m) / h < (nth j sal 0 + - m) / h).
    { unfold Rdiv. apply Rmult_lt_compat_r; [now apply Rinv_0_lt_compat | lra]. }
    split; intros Hd; nra.
Qed.

Lemma distinct_spread (sal : list R) :
  NoDup sal -> (2 <= length sal)%nat -> spread sal.
Proof.
  intros Hnd Hlen. destruct sal as [|a [|b sal]]; simpl in Hlen; try lia.
  exists a, b. repeat split; simpl; auto.
  inversion Hnd as [|? ? Hnot _]; subst. intros ->. apply Hnot. now left.
Qed.

Lemma any_spread (sal : list R) : spread sal -> any (map Fin sal) = true.
Proof.
  intros (a & b & Ha & Hb & Hab). unfold any. apply existsb_exists.
  assert (H : exists x, In x sal /\ x <> 0).
  { destruct (Req_dec_T a 0) as [->|Hne]; [exists b | exists a]; auto. }
  destruct H as (x & Hx & Hne). exists (Fin x). split; [now apply in_map |].
  unfold nonzero. destruct (Req_dec_T x 0); [contradiction | reflexivity].
Qed.

Lemma drop_index_map {A B : Type} (f : A -> B) (skip : Z) (i : nat) (xs : list A) :
  drop_index skip i (map f xs) = map f (drop_index skip i xs).
Proof.
  revert i. induction xs as [|x xs IH]; intros i; simpl; [reflexivity |].
  destruct (Z.of_nat i =? skip)%Z; simpl; now rewrite IH.
Qed.

Lemma list_set_spec {A : Type} (xs : list A) (i : nat) (v : A) :
  (i < length xs)%nat ->
  exists ys, list_set xs i v = OK ys
             /\ length ys = length xs
             /\ nth_error ys i = Some v
             /\ forall k, k <> i -> nth_error ys k = nth_error xs k.
Proof.
  revert i. induction xs as [|x xs IH]; intros i Hi; simpl in Hi; [lia |].
  destruct i as [|i].
  - exists (v :: xs). repeat split; auto. intros [|k] Hk; [congruence | reflexivity].
  - destruct (IH i ltac:(lia)) as (ys & Hset & Hlen & Hnth & Hother).
    exists (x :: ys). simpl. rewrite Hset. simpl. repeat split; auto.
    intros [|k] Hk; [reflexivity |]. simpl. apply Hother. congruence.
Qed.

Lemma saliency_drop_returns (m : fl) (sal : vec) :
  any sal = true ->
  exists drop, DiverseNetworkVariational.saliency_drop m sal = OK drop.
Proof.
  destruct sal as [|x sal]; [discriminate |]. intros _.
  unfold DiverseNetworkVariational.saliency_drop.
  cbn [min_all bind map max_all]. eauto.
Qed.

Lemma update_saliency_observations_returns (m : fl) (sals : list vec) :
  forall (i : nat) (drops : list vec),
    (i + length sals <= length drops)%nat ->
    exists drops',
      DiverseNetworkVariational.update_saliency_observations m i sals drops = OK drops'
      /\ length drops' = length drops
      /\ (forall k, (k < i)%nat -> nth_error drops' k = nth_error drops k)
      /\ forall j sal,
           nth_error sals j = Some sal -> any sal = true ->
           exists drop,
             DiverseNetworkVariational.saliency_drop m sal = OK drop
             /\ nth_error drops' (i + j) = Some drop.
Proof.
  induction sals as [|sal sals IH]; intros i drops Hlen; simpl in Hlen.
  - exists drops. simpl. repeat split; auto. intros [|j] sal H; discriminate.
  - cbn [DiverseNetworkVariational.update_saliency_observations].
    destruct (any sal) eqn:Hany.
    + destruct (saliency_drop_returns m sal Hany) as (d & Hd). rewrite Hd. cbn [bind].
      destruct (list_set_spec drops i d ltac:(lia)) as (ds & Hset & Hl & Hnth & Hother).
      rewrite Hset. cbn [bind].
      destruct (IH (S i) ds ltac:(lia)) as (drops' & Hrun & Hl' & Hkeep & Hall).
      exists drops'. split; [exact Hrun |]. split; [congruence |]. split.
      * intros k Hk. rewrite Hkeep by lia. apply Hother. lia.
      * intros [|j] s Hs Hs'; simpl in Hs.
        -- inversion Hs; subst s. exists d. rewrite Nat.add_0_r, Hkeep by lia. auto.
        -- destruct (Hall j s Hs Hs') as (drop & Hdrop & Hr).
           exists drop. now rewrite Nat.add_succ_r.
    + destruct (IH (S i) drops ltac:(lia)) as (drops' & Hrun & Hl' & Hkeep & Hall).
      exists drops'. split; [exact Hrun |]. split; [exact Hl' |]. split.
      * intros k Hk. apply Hkeep. lia.
      * intros [|j] s Hs Hs'; simpl in Hs.
        -- inversion Hs; subst s. congruence.
        -- destruct (Hall j s Hs Hs') as (drop & Hdrop & Hr).
           exists drop. now rewrite Nat.add_succ_r.
Qed.

(** C5, as the code has it.  For any positive configured maximum,
    [update_saliency] returns whenever every observation other than the
    goal signal has a drop tensor, whatever the saliencies are.  Every
    saliency tensor of reals with two different values, of the continuous
    actions or of an observation, is then rescaled on its own: its channel
    of least saliency gets the configured maximum as its drop probability
    and its channel of greatest saliency zero, the probability strictly
    decreasing with the saliency in between.  The other tensors of the call
    may be zero, constant or of one channel. *)
Theorem saliency_rescaling_drops_least_salient :
  forall (self : DiverseNetworkVariational.t) (maxd : R)
         (sal_obs : list (list fl)) (sal_act : list fl),
    0 < maxd ->
    DiverseNetworkVariational._max_saliency_dropout self = Fin maxd ->
    (length (drop_index (DiverseNetworkVariational._diverse_index self) 0 sal_obs)
     <= length (DiverseNetworkVariational.observations_sal_drop self))%nat ->
    exists self',
      DiverseNetworkVariational.update_saliency self sal_obs sal_act = OK self'
      /\ (forall sal,
             sal_act = map Fin sal -> spread sal ->
             rescaled maxd 0 sal (DiverseNetworkVariational.cont_actions_sal_drop self'))
      /\ (forall j sal,
             nth_error (drop_index (DiverseNetworkVariational._diverse_index self) 0
                                   sal_obs) j
             = Some (map Fin sal) ->
             spread sal ->
             exists drop,
               nth_error (DiverseNetworkVariational.observations_sal_drop self') j
               = Some drop
               /\ rescaled maxd 0 sal drop).
Proof.
  intros self maxd sal_obs sal_act _ Hmax Hlen.
  destruct (update_saliency_observations_returns
              (Fin maxd) _ 0 (DiverseNetworkVariational.observations_sal_drop self) Hlen)
    as (drops' & Hrun & _ & _ & Hall).
  assert (Hact : exists d,
             (if any sal_act
              then DiverseNetworkVariational.saliency_drop (Fin maxd) sal_act
              else OK (DiverseNetworkVariational.cont_actions_sal_drop self)) = OK d).
  { destruct (any sal_act) eqn:Ha; [now apply saliency_drop_returns | eauto]. }
  destruct Hact as (d & Hd).
  exists (DiverseNetworkVariational.with_sal_drop self drops' d).
  split; [| split].
  - unfold DiverseNetworkVariational.update_saliency. cbv zeta.
    rewrite Hmax, Hrun. cbn [bind]. rewrite Hd. reflexivity.
  - intros sal -> Hsp. rewrite (any_spread sal Hsp) in Hd.
    destruct (saliency_drop_channels maxd sal Hsp) as (d' & Hd' & Hres).
    rewrite Hd' in Hd. inversion Hd; subst d'. exact Hres.
  - intros j sal Hj Hsp.
    destruct (Hall j _ Hj (any_spread sal Hsp)) as (drop & Hdrop & Hnth).
    destruct (saliency_drop_channels maxd sal Hsp) as (d' & Hd' & Hres).
    rewrite Hd' in Hdrop. inversion Hdrop; subst d'.
    exists drop. split; [exact Hnth | exact Hres].
Qed.

Lemma spread_123 : spread [1; 2; 3].
Proof. exists 1, 2. simpl. repeat split; auto. lra. Qed.

Lemma saliency_rescaling_drops_least_salient_witness :
  exists self',
    DiverseNetworkVariational.update_saliency
      (example_discriminator (Fin 0.5) false false)
      [[Fin 1; Fin 2; Fin 3]; [Fin 0; Fin 0; Fin 0; Fin 1]] [Fin 0; Fin 0; Fin 0]
    = OK self'
    /\ exists drop,
        nth_error (DiverseNetworkVariational.observations_sal_drop self') 0 = Some drop
        /\ rescaled 0.5 0 [1; 2; 3] drop.
Proof.
  destruct (saliency_rescaling_drops_least_salient
              (example_discriminator (Fin 0.5) false false) 0.5
              [[Fin 1; Fin 2; Fin 3]; [Fin 0; Fin 0; Fin 0; Fin 1]]
              [Fin 0; Fin 0; Fin 0]
              ltac:(lra) eq_refl ltac:(simpl; lia))
    as (self' & Hrun & _ & Hobs).
  exists self'. split; [exact Hrun |].
  exact (Hobs 0%nat [1; 2; 3] eq_refl spread_123).
Defined.

(** C5, as the spec has it, fails: with the saliencies 1, 2, 3 of the
    continuous actions and the configured maximum 0.5, the first channel,
    of least saliency, gets the drop probability 0.5 and not zero. *)
Lemma saliency_rescaling_counterexample :
  ~ saliency_rescaled 0 0.5 (example_discriminator (Fin 0.5) false false)
                      [] [1; 2; 3].
Proof.
  intros (self' & Hrun & (_ & Hleast & _) & _).
  destruct (saliency_drop_channels 0.5 [1; 2; 3] spread_123)
    as (d & Hd & (_ & Hleast' & _)).
  unfold DiverseNetworkVariational.update_saliency in Hrun.
  cbn [drop_index map DiverseNetworkVariational.update_saliency_observations bind
       example_discriminator DiverseNetworkVariational._max_saliency_dropout
       DiverseNetworkVariational._diverse_index
       DiverseNetworkVariational.observations_sal_drop] in Hrun.
  change [Fin 1; Fin 2; Fin 3] with (map Fin [1; 2; 3]) in Hrun.
  rewrite (any_spread _ spread_123), Hd in Hrun. cbn [bind] in Hrun.
  inversion Hrun; subst self'; clear Hrun.
  assert (Hmin : min_channel [1; 2; 3] 0).
  { split; [simpl; lia |]. simpl. repeat constructor; lra. }
  specialize (Hleast 0%nat Hmin). specialize (Hleast' 0%nat Hmin).
  cbn [DiverseNetworkVariational.with_sal_drop
       DiverseNetworkVariational.cont_actions_sal_drop] in Hleast.
  rewrite Hleast in Hleast'. inversion Hleast'. lra.
Qed.

(** ** Condensing the Q streams *)

Lemma broadcast_zip {A B C : Type} (f : A -> B -> exc C) (xs : list A) (ys : list B) :
  length xs = length ys -> broadcast f xs ys = zip_with_e f xs ys.
Proof.
  intros Hlen. destruct xs as [|x [|x' xs]], ys as [|y [|y' ys]];
    simpl in Hlen; try discriminate; try reflexivity;
    simpl; destruct (f x y); reflexivity.
Qed.

Lemma zip_with_e_total {A B C : Type} (f : A -> B -> exc C) (h : A -> B -> C)
      (xs : list A) (ys : list B) :
  length xs = length ys ->
  (forall x y, In (x, y) (combine xs ys) -> f x y = OK (h x y)) ->
  zip_with_e f xs ys = OK (map (fun xy => h (fst xy) (snd xy)) (combine xs ys)).
Proof.
  revert ys. induction xs as [|x xs IH]; intros [|y ys] Hlen Hf; simpl in Hlen;
    try discriminate; [reflexivity |].
  simpl. rewrite (Hf x y (or_introl eq_refl)). simpl.
  rewrite IH; [reflexivity | lia |]. intros x' y' Hin. apply Hf. now right.
Qed.

Lemma map_enum_e_seq {A B : Type} (g : nat -> A -> exc B) (f : nat -> A) (i n : nat) :
  map_enum_e g i (map f (seq i n)) = map_e (fun j => g j (f j)) (seq i n).
Proof.
  revert i. induction n as [|n IH]; intros i; simpl; [reflexivity |].
  destruct (g i (f i)); simpl; [| reflexivity]. now rewrite IH.
Qed.

Lemma map_seq_nth {A B : Type} (f : A -> B) (l : list A) (d : A) :
  map (fun r => f (nth r l d)) (seq 0 (length l)) = map f l.
Proof.
  induction l as [|x l IH]; [reflexivity |].
  cbn [length seq map nth]. f_equal.
  rewrite <- seq_shift, map_map. exact IH.
Qed.

Lemma break_row_map {A B : Type} (f : A -> B) (row : list A) (sizes : list nat) :
  ModelUtils.break_row (map f row) sizes = map (map f) (ModelUtils.break_row row sizes).
Proof.
  revert row. induction sizes as [|n sizes IH]; intros row; simpl; [reflexivity |].
  now rewrite firstn_map, skipn_map, IH.
Qed.

Lemma break_row_length {A : Type} (row : list A) (sizes : list nat) (j : nat) :
  length row = list_sum sizes -> (j < length sizes)%nat ->
  length (nth j (ModelUtils.break_row row sizes) []) = nth j sizes 0%nat.
Proof.
  revert row j. induction sizes as [|n sizes IH]; intros row j Hlen Hj; simpl in *;
    [lia |].
  destruct j as [|j].
  - rewrite length_firstn. lia.
  - apply IH; [rewrite length_skipn; lia | lia].
Qed.

(** A one-hot slice against the slice of a branch: the products, and their
    sum from [acc] on. *)
Lemma one_hot_select (x : nat) (slice : list R) (k : nat) (acc : R) :
  exists p,
    zip_with_e (fun a b => OK (fmul a b))
               (map (fun j => if Nat.eqb j x then Fin 1 else Fin 0)
                    (seq k (length slice)))
               (map Fin slice) = OK p
    /\ fold_left fadd p (Fin acc)
       = Fin (acc + if (k <=? x)%nat then nth (x - k) slice 0 else 0).
Proof.
  revert k acc. induction slice as [|s slice IH]; intros k acc.
  - exists []. split; [reflexivity |]. simpl. f_equal.
    destruct (k <=? x)%nat; [destruct (x - k)%nat |]; lra.
  - destruct (IH (S k) (acc + (if Nat.eqb k x then 1 else 0) * s)) as (p & Hp & Hsum).
    exists (Fin ((if Nat.eqb k x then 1 else 0) * s) :: p). split.
    + cbn [length seq map zip_with_e bind]. rewrite Hp.
      destruct (Nat.eqb k x); reflexivity.
    + cbn [fold_left fadd]. rewrite Hsum. f_equal.
      destruct (Nat.eqb_spec k x) as [->|Hne].
      * rewrite Nat.leb_refl, Nat.sub_diag.
        replace (S x <=? x)%nat with false by (symmetry; apply Nat.leb_gt; lia).
        simpl. lra.
      * destruct (Nat.leb_spec k x), (Nat.leb_spec (S k) x); try lia; [| lra].
        replace (x - k)%nat with (S (x - S k)) by lia. simpl. lra.
Qed.

Lemma one_hot_product (b x : nat) (slice : list R) :
  (x < b)%nat -> length slice = b ->
  exists onehot p,
    one_hot b x = OK onehot
    /\ vop fmul onehot (map Fin slice) = OK p
    /\ fsum p = Fin (nth x slice 0).
Proof.
  intros Hx Hlen. unfold one_hot.
  replace (x <? b)%nat with true by (symmetry; apply Nat.ltb_lt; lia).
  destruct (one_hot_select x slice 0 0) as (p & Hp & Hsum).
  eexists. exists p. split; [reflexivity |].
  rewrite <- Hlen. unfold vop. rewrite broadcast_zip by now rewrite !length_map, length_seq.
  split; [exact Hp |]. unfold fsum. rewrite Hsum. f_equal.
  rewrite Nat.sub_0_r. simpl. lra.
Qed.

Lemma fsum_Fin (xs : list R) (acc : R) :
  fold_left fadd (map Fin xs) (Fin acc) = Fin (fold_left Rplus xs acc).
Proof. revert acc. induction xs as [|x xs IH]; intros acc; simpl; auto. Qed.

Lemma fmean_Fin (xs : list R) :
  xs <> [] -> fmean (map Fin xs) = Fin (mean_R xs).
Proof.
  intros Hne. unfold fmean, fsum, mean_R, of_nat. rewrite fsum_Fin, length_map.
  apply fdiv_Fin. apply not_0_INR. destruct xs; [congruence | simpl; lia].
Qed.

Lemma map_e_map {A B C : Type} (f : B -> exc C) (g : A -> B) (xs : list A) :
  map_e f (map g xs) = map_e (fun x => f (g x)) xs.
Proof.
  induction xs as [|x xs IH]; simpl; [reflexivity |]. now rewrite IH.
Qed.

Lemma combine_map_same {A B C : Type} (f : A -> B) (g : A -> C) (xs : list A) :
  combine (map f xs) (map g xs) = map (fun x => (f x, g x)) xs.
Proof. induction xs as [|x xs IH]; simpl; [reflexivity |]. now rewrite IH. Qed.

Lemma one_hot_OK (b x : nat) :
  (x < b)%nat ->
  one_hot b x = OK (map (fun j => if Nat.eqb j x then Fin 1 else Fin 0) (seq 0 b)).
Proof.
  intros Hx. unfold one_hot.
  now replace (x <? b)%nat with true by (symmetry; apply Nat.ltb_lt; lia).
Qed.

Lemma one_hot_row_product (b x : nat) (slice : list R) :
  length slice = b ->
  exists p,
    vop fmul (map (fun j => if Nat.eqb j x then Fin 1 else Fin 0) (seq 0 b))
        (map Fin slice) = OK p
    /\ fsum p = Fin (nth x slice 0).
Proof.
  intros Hlen. destruct (one_hot_select x slice 0 0) as (p & Hp & Hsum).
  exists p. rewrite <- Hlen. unfold vop.
  rewrite broadcast_zip by now rewrite !length_map, length_seq.
  split; [exact Hp |]. unfold fsum. rewrite Hsum. f_equal.
  rewrite Nat.sub_0_r. simpl. lra.
Qed.

Lemma zip_rows {A B : Type} (f1 : A -> list fl) (g1 : B -> list fl) (h : A -> B -> fl)
      (xs : list A) (ys : list B) :
  length xs = length ys ->
  (forall x y, In (x, y) (combine xs ys) ->
               exists p, vop fmul (f1 x) (g1 y) = OK p /\ fsum p = h x y) ->
  exists P, mop fmul (map f1 xs) (map g1 ys) = OK P
            /\ sum_dim1 P = map (fun xy => h (fst xy) (snd xy)) (combine xs ys).
Proof.
  intros Hlen Hrow. unfold mop.
  rewrite broadcast_zip by now rewrite !length_map.
  revert ys Hlen Hrow. induction xs as [|x xs IH]; intros [|y ys] Hlen Hrow;
    simpl in Hlen; try discriminate.
  - exists []. split; reflexivity.
  - destruct (Hrow x y (or_introl eq_refl)) as (p & Hp & Hsum).
    destruct (IH ys ltac:(lia) ltac:(intros x' y' Hin; apply Hrow; now right))
      as (P & HP & HS).
    exists (p :: P). cbn [map zip_with_e bind combine]. rewrite Hp. cbn [bind].
    rewrite HP. cbn [bind]. split; [reflexivity |].
    cbn [sum_dim1 map fst snd]. unfold sum_dim1 in HS. now rewrite Hsum, HS.
Qed.

Section Condense.

Variable branches : list nat.
Variable actions : list (list nat).
Variable q : list (list R).
Hypothesis Hshape : well_shaped branches actions q.
Hypothesis Hbranches : branches <> [].

Lemma actions_to_onehot_spec :
  ModelUtils.actions_to_onehot (mkLong (length branches) actions) branches
  = OK (map (fun j =>
               map (fun a => map (fun k => if Nat.eqb k (nth j a 0%nat)
                                           then Fin 1 else Fin 0)
                                 (seq 0 (nth j branches 0%nat)))
                   actions)
            (seq 0 (length branches))).
Proof.
  destruct Hshape as (_ & Hact & _). rewrite Forall_forall in Hact.
  unfold ModelUtils.actions_to_onehot, transpose. cbn [cols rows].
  rewrite map_enum_e_seq. apply map_e_total. intros j Hj.
  apply in_seq in Hj. unfold list_get.
  rewrite (nth_error_nth' branches 0%nat) by lia. cbn [bind].
  rewrite map_e_map.
  rewrite (map_e_total _ (fun a => map (fun k => if Nat.eqb k (nth j a 0%nat)
                                                 then Fin 1 else Fin 0)
                                       (seq 0 (nth j branches 0%nat)))).
  - reflexivity.
  - intros a Ha. apply one_hot_OK. apply (Hact a Ha). lia.
Qed.

Lemma branch_selected (j : nat) :
  (j < length branches)%nat ->
  (p <- mop fmul
            (map (fun a => map (fun k => if Nat.eqb k (nth j a 0%nat)
                                         then Fin 1 else Fin 0)
                               (seq 0 (nth j branches 0%nat)))
                 actions)
            (map (fun row => nth j (ModelUtils.break_row row branches) [])
                 (map (map Fin) q)) ;;
   OK (sum_dim1 p))
  = OK (map (fun ar => Fin (selected branches (fst ar) (snd ar) j)) (combine actions q)).
Proof.
  intros Hj. destruct Hshape as (Hlen & _ & Hq). rewrite Forall_forall in Hq.
  rewrite map_map.
  destruct (zip_rows
              (fun a => map (fun k => if Nat.eqb k (nth j a 0%nat) then Fin 1 else Fin 0)
                            (seq 0 (nth j branches 0%nat)))
              (fun row => nth j (ModelUtils.break_row (map Fin row) branches) [])
              (fun a row => Fin (selected branches a row j))
              actions q Hlen) as (P & HP & HS).
  - intros a row Hin. rewrite break_row_map.
    change (@nil fl) with (map Fin []). rewrite map_nth.
    apply one_hot_row_product. apply break_row_length; [| exact Hj].
    apply Hq. eapply in_combine_r; eauto.
  - rewrite HP. cbn [bind]. now rewrite HS.
Qed.

Lemma condense_spec (flag : bool) :
  TorchSACOptimizer.condense
    (map (fun j =>
            map (fun a => map (fun k => if Nat.eqb k (nth j a 0%nat)
                                        then Fin 1 else Fin 0)
                              (seq 0 (nth j branches 0%nat)))
                actions)
         (seq 0 (length branches)))
    (mkTensor (Mat (map (map Fin) q)) flag) branches
  = OK (mkTensor
          (Vec (map (fun ar => Fin (condensed branches (fst ar) (snd ar)))
                    (combine actions q)))
          flag).
Proof.
  unfold TorchSACOptimizer.condense, op1e. cbn [data as_mat bind requires_grad andb].
  unfold ModelUtils.break_into_branches.
  rewrite combine_map_same, map_e_map. cbn [fst snd].
  rewrite (map_e_total _ (fun j => map (fun ar => Fin (selected branches (fst ar)
                                                                (snd ar) j))
                                       (combine actions q)))
    by (intros j Hj; apply in_seq in Hj; apply branch_selected; lia).
  cbn [bind]. unfold mean_stack_vec, stack.
  destruct branches as [|b bs] eqn:Hb; [congruence |].
  cbn [length seq map].
  replace (forallb _ _) with true.
  2:{ symmetry. apply forallb_forall. intros u Hu. apply in_map_iff in Hu.
      destruct Hu as (j & <- & _). rewrite !length_map. apply Nat.eqb_refl. }
  cbn [bind mean_dim0]. do 3 f_equal.
  rewrite length_map.
  transitivity
    (map (fun r => (fun ar => Fin (condensed (b :: bs) (fst ar) (snd ar)))
                     (nth r (combine actions q) ([], [])))
         (seq 0 (length (combine actions q))));
    [| apply (map_seq_nth (fun ar => Fin (condensed (b :: bs) (fst ar) (snd ar))))].
  apply map_ext_in. intros r Hr. apply in_seq in Hr.
  change (map (fun ar => Fin (selected (b :: bs) (fst ar) (snd ar) 0)) (combine actions q)
          :: map (fun j => map (fun ar => Fin (selected (b :: bs) (fst ar) (snd ar) j))
                               (combine actions q)) (seq 1 (length bs)))
    with (map (fun j => map (fun ar => Fin (selected (b :: bs) (fst ar) (snd ar) j))
                            (combine actions q)) (seq 0 (length (b :: bs)))).
  rewrite map_map.
  rewrite (map_ext_in _ (fun j => Fin (selected (b :: bs)
                                                (fst (nth r (combine actions q) ([], [])))
                                                (snd (nth r (combine actions q) ([], [])))
                                                j))).
  2:{ intros j _.
      rewrite (nth_indep _ NaN
                 ((fun ar => Fin (selected (b :: bs) (fst ar) (snd ar) j)) ([], [])))
        by (rewrite length_map; lia).
      apply (map_nth (fun ar => Fin (selected (b :: bs) (fst ar) (snd ar) j))). }
  rewrite <- (map_map (fun j => selected (b :: bs) _ _ j) Fin).
  rewrite fmean_Fin; [reflexivity |]. simpl. discriminate.
Qed.

End Condense.

(** ** The soft update *)

Lemma soft_update_closed (tau c : R) (s t : list R) :
  length s = length t ->
  ModelUtils.soft_update
    (map Fin s)
    (map Fin (map (fun st => fst st + c * (snd st - fst st)) (combine s t)))
    (Fin tau)
  = map Fin (map (fun st => fst st + (1 - tau) * c * (snd st - fst st)) (combine s t)).
Proof.
  revert t. induction s as [|x s IH]; intros [|y t] Hlen; simpl in Hlen;
    try discriminate; [reflexivity |].
  cbn [map combine fst snd ModelUtils.soft_update].
  f_equal; [cbn; f_equal; ring | apply IH; lia].
Qed.

Lemma map_combine_snd (h : R * R -> R) (s t : list R) :
  length s = length t -> (forall st, h st = snd st) -> map h (combine s t) = t.
Proof.
  intros Hlen Hh. revert t Hlen.
  induction s as [|x s IH]; intros [|y t] Hlen; simpl in Hlen; try discriminate;
    [reflexivity |].
  simpl. rewrite Hh. simpl. f_equal. apply IH. lia.
Qed.

(** After [n] soft updates the gap to the source is [(1 - tau) ^ n] times
    the first gap. *)
Lemma soft_updates_closed (tau : R) (s t : list R) (n : nat) :
  length s = length t ->
  soft_updates n (map Fin s) (map Fin t) (Fin tau)
  = map Fin (map (fun st => fst st + (1 - tau) ^ n * (snd st - fst st))
                 (combine s t)).
Proof.
  intros Hlen. unfold soft_updates. induction n as [|n IH].
  - simpl. f_equal. symmetry. apply map_combine_snd; [exact Hlen |].
    intros st. ring.
  - rewrite Nat.iter_succ, IH. now rewrite soft_update_closed by exact Hlen.
Qed.

Lemma gap_bound (s t : list R) :
  exists D, 0 < D /\ forall st, In st (combine s t) -> Rabs (snd st - fst st) <= D.
Proof.
  induction (combine s t) as [|st l (D & HD & Hall)].
  - exists 1. split; [lra | contradiction].
  - exists (D + Rabs (snd st - fst st)).
    pose proof (Rabs_pos (snd st - fst st)).
    split; [lra |]. intros st' [<-|Hin]; [lra |].
    specialize (Hall st' Hin). lra.
Qed.

Lemma within_combine (eps : R) (h : R * R -> R) (s t : list R) :
  length s = length t ->
  (forall st, In st (combine s t) -> Rabs (h st - fst st) < eps) ->
  within eps (map Fin (map h (combine s t))) s.
Proof.
  unfold within. revert t.
  induction s as [|x s IH]; intros [|y t] Hlen Hall; simpl in Hlen;
    try discriminate; [constructor |].
  simpl. constructor.
  - eexists. split; [reflexivity |]. apply (Hall (x, y)). now left.
  - apply IH; [lia |]. intros st Hin. apply Hall. now right.
Qed.

Lemma soft_updates_converge (tau : R) (s t : list R) (eps : R) :
  0 < tau <= 1 -> length s = length t -> 0 < eps ->
  exists N, forall n, (N <= n)%nat ->
                      within eps (soft_updates n (map Fin s) (map Fin t) (Fin tau)) s.
Proof.
  intros Htau Hlen Heps.
  destruct (gap_bound s t) as (D & HD & Hgap).
  destruct (pow_lt_1_zero (1 - tau) ltac:(apply Rabs_def1; lra) (eps / D)
                          ltac:(apply Rdiv_lt_0_compat; lra)) as (N & HN).
  exists N. intros n Hn. rewrite soft_updates_closed by exact Hlen.
  apply within_combine; [exact Hlen |]. intros st Hin.
  replace (fst st + (1 - tau) ^ n * (snd st - fst st) - fst st)
    with ((1 - tau) ^ n * (snd st - fst st)) by ring.
  rewrite Rabs_mult.
  specialize (HN n ltac:(lia)). specialize (Hgap st Hin).
  pose proof (Rabs_pos ((1 - tau) ^ n)). pose proof (Rabs_pos (snd st - fst st)).
  apply Rle_lt_trans with (Rabs ((1 - tau) ^ n) * D); [nra |].
  replace eps with (eps / D * D) by (field; lra).
  apply Rmult_lt_compat_r; lra.
Qed.

Lemma soft_update_hard_copy (tau : R) (s t : list R) :
  tau = 1 -> length s = length t ->
  ModelUtils.soft_update (map Fin s) (map Fin t) (Fin tau) = map Fin s.
Proof.
  intros -> Hlen.
  pose proof (soft_updates_closed 1 s t 1 Hlen) as H.
  unfold soft_updates in H. rewrite Nat.iter_succ in H.
  change (Nat.iter 0 ?f ?x) with x in H. rewrite H. clear H.
  f_equal. revert t Hlen. induction s as [|x s IH]; intros [|y t] Hl; simpl in Hl;
    try discriminate; [reflexivity |].
  simpl. f_equal; [ring | apply IH; lia].
Qed.

(** ** The update, step by step *)

(** Splits a hypothesis on a chain of binds and of pairs taken apart into
    one hypothesis for every step of the chain. *)
Ltac invert_binds H :=
  repeat match type of H with
         | bind ?m _ = OK _ =>
             let x := fresh "x" in
             let E := fresh "E" in
             apply bind_OK in H; destruct H as (x & E & H); cbv beta in H
         | match ?x with (_, _) => _ end = OK _ =>
             let P := fresh "P" in destruct x eqn:P
         end.

Section UpdateSteps.

Context {C : Collaborators}.

Import TorchSACOptimizer.

Lemma update_forward_inv (self : t) (g : RNG) (batch : AgentBuffer) (fw : Forward) :
  update_forward self g batch = OK fw ->
  parameters (fw_critic fw) = parameters (_critic self)
  /\ parameters (fw_target_network fw) = parameters (target_network self)
  /\ fw_q_network fw = q_copy_normalization (q_network self) (actor (policy self))
  /\ fw_masks fw = buffer_masks batch.
Proof.
  unfold update_forward. intros H. invert_binds H.
  inversion H; subst; clear H. repeat split; reflexivity.
Qed.

(** What a finished update has done. *)
Lemma update_inv (self : t) (g : RNG) (batch : AgentBuffer) (n : nat)
      (self' : t) (stats : Dict.t fl) (trace : list Event) (g' : RNG) :
  update self g batch n = OK (self', stats, trace, g') ->
  exists fw q1_loss q2_loss value_loss policy_loss entropy_loss lr rest
         value_opt q_net critic_parameters,
    update_forward self g batch = OK fw
    /\ sac_q_loss self (fw_q1_stream fw) (fw_q2_stream fw) (fw_target_values fw)
                  (fw_dones fw) (fw_rewards fw) (fw_masks fw)
       = OK (q1_loss, q2_loss)
    /\ sac_value_loss self (fw_log_probs fw) (fw_value_estimates fw) (fw_q1p_out fw)
                      (fw_q2p_out fw) (fw_masks fw) (fw_mede_value_rewards fw)
       = OK value_loss
    /\ sac_policy_loss self (fw_log_probs fw) (fw_q1p_out fw) (fw_masks fw)
                       (fw_mede_policy_rewards fw) = OK policy_loss
    /\ sac_entropy_loss self (fw_log_probs fw) (fw_masks fw) = OK (Some entropy_loss)
    /\ trace
       = [Step PolicyOptimizer
               (data (if shared_critic (policy self)
                      then op2 true fadd policy_loss value_loss else policy_loss)) lr;
          Step ValueOptimizer
               (data (if shared_critic (policy self)
                      then op2 true fadd q1_loss q2_loss
                      else op2 true fadd (op2 true fadd q1_loss q2_loss) value_loss)) lr;
          Step EntropyOptimizer (data entropy_loss) lr;
          SoftUpdate (tau self)] ++ rest
    /\ Forall after_soft_update rest
    /\ value_step (value_optimizer self) lr
                  (if shared_critic (policy self)
                   then op2 true fadd q1_loss q2_loss
                   else op2 true fadd (op2 true fadd q1_loss q2_loss) value_loss)
                  batch (fw_q_network fw, parameters (_critic self))
       = (value_opt, (q_net, critic_parameters))
    /\ parameters (_critic self') = critic_parameters
    /\ parameters (target_network self')
       = ModelUtils.soft_update critic_parameters (parameters (target_network self))
                                (tau self)
    /\ shared_critic (policy self') = shared_critic (policy self)
    /\ target_entropy self' = target_entropy self
    /\ tau self' = tau self
    /\ _action_spec self' = _action_spec self
    /\ Dict.get stats "Losses/Value Loss" = OK (data value_loss)
    /\ Dict.get stats "Losses/Q1 Loss" = OK (data q1_loss)
    /\ Dict.get stats "Losses/Q2 Loss" = OK (data q2_loss).
Proof.
  unfold update. intros H. invert_binds H.
  match goal with
  | E : update_forward _ _ _ = OK ?fw |- _ =>
      destruct (update_forward_inv _ _ _ _ E) as (Hcritic & Htarget & _ & _);
      exists fw
  end.
  match goal with
  | E : match ?x with Some _ => _ | None => Raise AttributeError end = OK ?y |- _ =>
      destruct x as [entropy_loss|]; [| discriminate];
      invert_binds E; inversion E; subst y; clear E
  end.
  match goal with
  | E : (if use_mede self then _ else _) = OK _ |- _ =>
      destruct (use_mede self);
      [ repeat match type of E with
               | match ?o with Some _ => _ | None => _ end = OK _ =>
                   destruct o; [| discriminate]
               end;
        invert_binds E;
        match goal with
        | E' : (if positive _ then _ else _) = OK _ |- _ =>
            destruct (positive (mede_saliency_dropout self));
            invert_binds E'; inversion E'; subst; clear E'
        end
      | ];
      inversion E; subst; clear E
  end;
    inversion H; subst; clear H;
    rewrite Hcritic in *; rewrite Htarget;
    destruct (shared_critic (policy self));
    match goal with
    | P : (_, _) = (_, _) |- _ => inversion P; subst; clear P
    end;
    do 10 eexists;
    (split; [eassumption |]);
    (split; [eassumption |]);
    (split; [eassumption |]);
    (split; [eassumption |]);
    (split; [eassumption |]);
    (split; [reflexivity |]);
    (split; [repeat constructor |]);
    (split; [eassumption |]);
    repeat split; reflexivity.
Qed.

(** What the constructor leaves in a new optimizer. *)
Lemma init_inv (g : RNG) (policy0 : TorchPolicy) (params : TrainerSettings.t)
      (self : t) (g' : RNG) :
  __init__ g policy0 params = OK (self, g') ->
  shared_critic policy0 = false
  /\ policy self = policy0
  /\ _action_spec self = action_spec (behavior_spec policy0)
  /\ target_entropy self
     = {| TargetEntropy.discrete :=
            map (fun i => fmul (Fin 0.2) (fln (of_nat i)))
                (discrete_branches (action_spec (behavior_spec policy0)));
          TargetEntropy.continuous :=
            fmul (fmul (Fin (-1)) (Fin 1.0))
                 (of_nat (continuous_size (action_spec (behavior_spec policy0)))) |}
  /\ tau self = SACSettings.tau (TrainerSettings.hyperparameters params)
  /\ (exists fresh,
        parameters (target_network self)
        = ModelUtils.soft_update (parameters (_critic self)) fresh (Fin 1.0))
  /\ reward_signals self = create_reward_signals (TrainerSettings.reward_signals params)
  /\ gammas self = map gamma (Dict.values (TrainerSettings.reward_signals params))
  /\ map_e (fun name =>
              provider <- Dict.get (reward_signals self) name ;;
              OK (name, if ignore_done provider then 0%Z else 1%Z))
           (Dict.keys (reward_signals self))
     = OK (use_dones_in_backup self).
Proof.
  unfold __init__. intros H.
  destruct (shared_critic policy0); [discriminate |].
  invert_binds H. inversion H; subst; clear H.
  cbn [policy _action_spec target_entropy tau target_network _critic parameters
       reward_signals gammas use_dones_in_backup].
  repeat split; try reflexivity; eauto.
Qed.


(** C7.  Soft updates towards a fixed source leave, after [n] of them, the
    gap [(1 - tau) ^ n] times the first gap, so for [0 < tau <= 1] the
    target comes within any distance of the source; with [tau = 1] one
    update gives the source, which is the copy the constructor makes; an
    update applies the rule once, with the configured tau, after the steps
    of the policy, value and entropy optimizers and to the critic as the
    value step left it. *)
Theorem soft_update_convergence_and_order :
  (forall (tau : R) (s t : list R) (n : nat),
      length s = length t ->
      soft_updates n (map Fin s) (map Fin t) (Fin tau)
      = map Fin (map (fun st => fst st + (1 - tau) ^ n * (snd st - fst st))
                     (combine s t)))
  /\ (forall (tau : R) (s t : list R) (eps : R),
         0 < tau <= 1 -> length s = length t -> 0 < eps ->
         exists N, forall n, (N <= n)%nat ->
                             within eps (soft_updates n (map Fin s) (map Fin t) (Fin tau))
                                    s)
  /\ (forall (tau : R) (s t : list R),
         tau = 1 -> length s = length t ->
         soft_updates 1 (map Fin s) (map Fin t) (Fin tau) = map Fin s)
  /\ (forall g policy0 params self g',
         __init__ g policy0 params = OK (self, g') ->
         exists fresh,
           parameters (target_network self)
           = soft_updates 1 (parameters (_critic self)) fresh (Fin 1.0)
           /\ forall s t, parameters (_critic self) = map Fin s -> fresh = map Fin t ->
                          length s = length t ->
                          parameters (target_network self) = parameters (_critic self))
  /\ (forall self g batch n self' stats trace g',
         update self g batch n = OK (self', stats, trace, g') ->
         parameters (target_network self')
         = soft_updates 1 (parameters (_critic self')) (parameters (target_network self))
                        (tau self)
         /\ exists policy_loss value_loss entropy_loss lr rest,
             trace = [Step PolicyOptimizer policy_loss lr;
                      Step ValueOptimizer value_loss lr;
                      Step EntropyOptimizer entropy_loss lr;
                      SoftUpdate (tau self)] ++ rest
             /\ Forall after_soft_update rest).
Proof.
  split; [exact soft_updates_closed |].
  split; [exact soft_updates_converge |].
  split; [exact soft_update_hard_copy |].
  split.
  - intros g policy0 params self g' Hinit.
    destruct (init_inv _ _ _ _ _ Hinit) as (_ & _ & _ & _ & _ & (fresh & Hcopy) & _).
    exists fresh. split; [exact Hcopy |].
    intros s t Hs Ht Hlen. rewrite Hcopy, Hs, Ht.
    apply soft_update_hard_copy; [lra | exact Hlen].
  - intros self g batch n self' stats trace g' Hupd.
    apply update_inv in Hupd.
    destruct Hupd as (? & ? & ? & ? & ? & ? & lr & rest & ? & ? & cp & _ & _ & _ & _
                      & _ & Htrace & Hrest & _ & Hcritic & Htarget & _).
    split; [rewrite Htarget, Hcritic; reflexivity |].
    do 3 eexists. exists lr, rest. split; [exact Htrace | exact Hrest].
Qed.

(** ** Shared critics *)


(** ** The check of the value loss *)

Lemma sac_value_loss_check (self : t) log_probs values q1p_out q2p_out loss_masks
      mede_rewards :
  sac_value_loss self log_probs values q1p_out q2p_out loss_masks mede_rewards
  = match assembled_value_loss self log_probs values q1p_out q2p_out loss_masks
                               mede_rewards with
    | OK value_loss =>
        if isinf (data value_loss) || isnan (data value_loss)
        then Raise (UnityTrainerException "Inf found")
        else OK value_loss
    | Raise e => Raise e
    end.
Proof.
  unfold sac_value_loss.
  destruct (assembled_value_loss self log_probs values q1p_out q2p_out loss_masks
                                 mede_rewards); reflexivity.
Qed.

(** C6.  When the assembled value loss is infinite or NaN, [sac_value_loss]
    raises [UnityTrainerException], and so does the update that has come
    to it; an update that returns its statistics reports a value loss that
    is neither. *)
Theorem non_finite_value_loss_is_fatal :
  (forall self log_probs values q1p_out q2p_out loss_masks mede_rewards value_loss,
      assembled_value_loss self log_probs values q1p_out q2p_out loss_masks
                           mede_rewards = OK value_loss ->
      isinf (data value_loss) || isnan (data value_loss) = true ->
      sac_value_loss self log_probs values q1p_out q2p_out loss_masks mede_rewards
      = Raise (UnityTrainerException "Inf found"))
  /\ (forall self g batch n fw q_losses value_loss,
         update_forward self g batch = OK fw ->
         sac_q_loss self (fw_q1_stream fw) (fw_q2_stream fw) (fw_target_values fw)
                    (fw_dones fw) (fw_rewards fw) (fw_masks fw) = OK q_losses ->
         assembled_value_loss self (fw_log_probs fw) (fw_value_estimates fw)
                              (fw_q1p_out fw) (fw_q2p_out fw) (fw_masks fw)
                              (fw_mede_value_rewards fw) = OK value_loss ->
         isinf (data value_loss) || isnan (data value_loss) = true ->
         update self g batch n = Raise (UnityTrainerException "Inf found"))
  /\ (forall self g batch n self' stats trace g',
         update self g batch n = OK (self', stats, trace, g') ->
         exists v, Dict.get stats "Losses/Value Loss" = OK v
                   /\ isinf v = false /\ isnan v = false).
Proof.
  split; [| split].
  - intros self lp values q1p q2p masks mr vl Hvl Hbad.
    now rewrite sac_value_loss_check, Hvl, Hbad.
  - intros self g batch n fw [q1 q2] vl Hfw Hq Hvl Hbad.
    unfold update. rewrite Hfw. cbn [bind]. cbv zeta. rewrite Hq. cbn [bind].
    now rewrite sac_value_loss_check, Hvl, Hbad.
  - intros self g batch n self' stats trace g' Hupd.
    apply update_inv in Hupd.
    destruct Hupd as (fw & q1 & q2 & vl & ? & ? & ? & ? & ? & ? & ? & _ & _ & Hv & _ & _
                      & _ & _ & _ & _ & _ & _ & _ & _ & _ & Hstat & _).
    exists (data vl). split; [exact Hstat |].
    rewrite sac_value_loss_check in Hv.
    destruct (assembled_value_loss self (fw_log_probs fw) (fw_value_estimates fw)
                                   (fw_q1p_out fw) (fw_q2p_out fw) (fw_masks fw)
                                   (fw_mede_value_rewards fw)) as [vl'|]; [| discriminate].
    destruct (isinf (data vl') || isnan (data vl')) eqn:Hbad; [discriminate |].
    inversion Hv; subst vl'. now apply orb_false_elim in Hbad.
Qed.

(** ** The target entropy *)

(** C4.  The constructor sets the target entropy of the continuous actions
    to [-1.0 * continuous_size] and that of a discrete branch of [k >= 1]
    actions to [0.2 * ln k], one per branch; the record is a function of the
    action spec alone and no update changes it. *)
Theorem target_entropy_at_construction :
  (forall g policy0 params self g',
      __init__ g policy0 params = OK (self, g') ->
      let spec := action_spec (behavior_spec policy0) in
      TargetEntropy.continuous (target_entropy self)
      = Fin (-1 * 1.0 * INR (continuous_size spec))
      /\ length (TargetEntropy.discrete (target_entropy self))
         = length (discrete_branches spec)
      /\ forall i k,
           nth_error (discrete_branches spec) i = Some k -> (1 <= k)%nat ->
           nth_error (TargetEntropy.discrete (target_entropy self)) i
           = Some (Fin (0.2 * ln (INR k))))
  /\ (forall g1 g2 policy1 policy2 params1 params2 self1 self2 g1' g2',
         __init__ g1 policy1 params1 = OK (self1, g1') ->
         __init__ g2 policy2 params2 = OK (self2, g2') ->
         action_spec (behavior_spec policy1) = action_spec (behavior_spec policy2) ->
         target_entropy self1 = target_entropy self2)
  /\ (forall self g batch n self' stats trace g',
         update self g batch n = OK (self', stats, trace, g') ->
         target_entropy self' = target_entropy self).
Proof.
  split; [| split].
  - intros g policy0 params self g' Hinit spec.
    destruct (init_inv _ _ _ _ _ Hinit) as (_ & _ & _ & -> & _).
    cbn [TargetEntropy.continuous TargetEntropy.discrete]. fold spec.
    split; [reflexivity |]. split; [now rewrite length_map |].
    intros i k Hk Hpos. rewrite nth_error_map, Hk. cbn [option_map].
    unfold of_nat. rewrite fln_pos; [reflexivity |].
    apply lt_0_INR. lia.
  - intros g1 g2 policy1 policy2 params1 params2 self1 self2 g1' g2' H1 H2 Hspec.
    destruct (init_inv _ _ _ _ _ H1) as (_ & _ & _ & -> & _).
    destruct (init_inv _ _ _ _ _ H2) as (_ & _ & _ & -> & _).
    now rewrite Hspec.
  - intros self g batch n self' stats trace g' Hupd.
    apply update_inv in Hupd.
    destruct Hupd as (? & ? & ? & ? & ? & ? & ? & ? & ? & ? & ? & _ & _ & _ & _ & _ & _
                      & _ & _ & _ & _ & _ & Hte & _).
    exact Hte.
Qed.

(** ** Condensed Q streams *)

Lemma condense_q_streams_spec (self : t) (streams : list (string * list (list R) * bool))
      (actions : list (list nat)) :
  let branches := discrete_branches (_action_spec self) in
  branches <> [] -> streams <> [] ->
  Forall (fun st => well_shaped branches actions (snd (fst st))) streams ->
  _condense_q_streams self (map q_tensor streams) (mkLong (length branches) actions)
  = OK (map (fun st =>
               (fst (fst st),
                mkTensor (Vec (map (fun ar => Fin (condensed branches (fst ar) (snd ar)))
                                   (combine actions (snd (fst st)))))
                         (snd st)))
            streams).
Proof.
  intros branches Hb Hne Hall. unfold _condense_q_streams. fold branches.
  destruct streams as [|st0 streams']; [congruence |].
  pose proof (Forall_inv Hall) as H0.
  rewrite (actions_to_onehot_spec branches actions (snd (fst st0)) H0). cbn [bind].
  rewrite map_e_map.
  apply map_e_total. intros st Hst. rewrite Forall_forall in Hall.
  unfold q_tensor. cbn [fst snd].
  now rewrite (condense_spec branches actions (snd (fst st)) (Hall st Hst) Hb).
Qed.

(** C3.  Condensing takes, for every stream and every sample, the Q value
    that the action selects in each branch and returns their arithmetic
    mean over the branches; with the branches [3, 2] and the action
    (1, 0) that is the mean of the second value of the first branch and the
    first value of the second. *)
Theorem condense_averages_selected :
  (forall (self : t) (streams : list (string * list (list R) * bool))
          (actions : list (list nat)),
      let branches := discrete_branches (_action_spec self) in
      branches <> [] -> streams <> [] ->
      Forall (fun st => well_shaped branches actions (snd (fst st))) streams ->
      _condense_q_streams self (map q_tensor streams) (mkLong (length branches) actions)
      = OK (map (fun st =>
                   (fst (fst st),
                    mkTensor
                      (Vec (map (fun ar => Fin (condensed branches (fst ar) (snd ar)))
                                (combine actions (snd (fst st)))))
                      (snd st)))
                streams))
  /\ (forall (self : t) (key : string) (flag : bool) (q0 q1 q2 q3 q4 : R),
         discrete_branches (_action_spec self) = [3; 2]%nat ->
         _condense_q_streams
           self
           [(key, mkTensor (Mat [[Fin q0; Fin q1; Fin q2; Fin q3; Fin q4]]) flag)]
           (mkLong 2 [[1; 0]%nat])
         = OK [(key, mkTensor (Vec [Fin ((q1 + q3) / 2)]) flag)]).
Proof.
  split; [exact condense_q_streams_spec |].
  intros self key flag q0 q1 q2 q3 q4 Hb.
  pose proof (condense_q_streams_spec self [(key, [[q0; q1; q2; q3; q4]], flag)]
                                      [[1; 0]%nat]) as H.
  cbv zeta in H. rewrite Hb in H. unfold q_tensor in H.
  cbn [map fst snd length] in H.
  rewrite H; [| discriminate | discriminate |].
  - assert (Hc : condensed [3; 2]%nat [1; 0]%nat [q0; q1; q2; q3; q4] = (q1 + q3) / 2)
      by (unfold condensed, mean_R, selected; simpl; field).
    cbn [map combine fst snd]. now rewrite Hc.
  - repeat constructor; simpl; try lia.
    intros [|[|j]] Hj; simpl; lia.
Qed.

(** ** The Q loss *)

Lemma dict_get_In {V : Type} (f : Stream -> V) (streams : list Stream) (s : Stream) :
  NoDup (map stream_name streams) -> In s streams ->
  Dict.get (map (fun x => (stream_name x, f x)) streams) (stream_name s) = OK (f s).
Proof.
  induction streams as [|x streams IH]; intros Hnd Hin; [contradiction |].
  inversion Hnd as [|? ? Hnot Hnd']; subst. simpl.
  destruct Hin as [->|Hin]; [now rewrite String.eqb_refl |].
  destruct (String.eqb_spec (stream_name x) (stream_name s)) as [Heq|_].
  - elim Hnot. rewrite Heq. now apply in_map.
  - now apply IH.
Qed.

Lemma combine_map_l {A B D : Type} (f : A -> B) (xs : list A) (ys : list D) :
  combine (map f xs) ys = map (fun xy => (f (fst xy), snd xy)) (combine xs ys).
Proof.
  revert ys. induction xs as [|x xs IH]; intros [|y ys]; simpl; try reflexivity.
  now rewrite IH.
Qed.

Lemma combine_map_r {A B D : Type} (f : B -> D) (xs : list A) (ys : list B) :
  combine xs (map f ys) = map (fun xy => (fst xy, f (snd xy))) (combine xs ys).
Proof.
  revert ys. induction xs as [|x xs IH]; intros [|y ys]; simpl; try reflexivity.
  now rewrite IH.
Qed.

Lemma vop_zip (f : fl -> fl -> fl) (a b : list fl) :
  length a = length b ->
  vop f a b = OK (map (fun xy => f (fst xy) (snd xy)) (combine a b)).
Proof.
  intros Hlen. unfold vop. rewrite broadcast_zip by exact Hlen.
  now apply zip_with_e_total.
Qed.

Lemma half_masked_mse_spec (backup : list fl) (q_i : Tensor (list fl))
      (loss_masks : list bool) :
  half_masked_mse (mkTensor backup false) q_i loss_masks
  = head_q_loss backup q_i loss_masks.
Proof.
  unfold half_masked_mse, head_q_loss, op2e, op1e, op1, mse_loss.
  cbn [data requires_grad orb andb].
  destruct (vop fsub backup (data q_i)) as [difference|e]; [| reflexivity].
  cbn [bind data requires_grad].
  destruct (masked_mean (T0 (fmean (map (fun d => fmul d d) difference))) loss_masks)
    as [mean|e]; [| reflexivity].
  cbn [bind data requires_grad andb]. reflexivity.
Qed.

Section QLoss.

Variable self : t.
Variable streams : list Stream.
Variable dones : Tensor (list fl).
Variable loss_masks : list bool.

Hypothesis Hnames : NoDup (map stream_name streams).
Hypothesis Hgammas : gammas self = map stream_gamma streams.
Hypothesis Hdones :
  use_dones_in_backup self = map (fun s => (stream_name s, done_mask s)) streams.
Hypothesis Hshapes :
  Forall (fun s => length (data (stream_reward s)) = length (data dones)
                   /\ length (data (stream_target_value s)) = length (data dones))
         streams.

Let q1_out := map (fun s => (stream_name s, stream_q1 s)) streams.
Let q2_out := map (fun s => (stream_name s, stream_q2 s)) streams.
Let target_values := map (fun s => (stream_name s, stream_target_value s)) streams.
Let rewards := map (fun s => (stream_name s, stream_reward s)) streams.

Lemma q_backup_spec (i : nat) (s : Stream) :
  In s streams -> nth_error streams i = Some s ->
  q_backup self i (stream_name s) target_values dones rewards
  = OK (mkTensor (stream_backup s (data dones)) false).
Proof.
  intros Hin Hi. unfold q_backup, rewards, target_values.
  rewrite (dict_get_In stream_reward) by assumption. cbn [bind].
  rewrite Hdones, (dict_get_In done_mask) by assumption. cbn [bind].
  unfold list_get. rewrite Hgammas, nth_error_map, Hi. cbn [option_map bind].
  rewrite (dict_get_In stream_target_value) by assumption. cbn [bind].
  rewrite Forall_forall in Hshapes. destruct (Hshapes s Hin) as [Hr Ht].
  unfold op2e, op1. cbn [data requires_grad andb].
  rewrite map_map, vop_zip by now rewrite length_map.
  cbn [bind data]. rewrite vop_zip by now rewrite length_map, length_combine,
                                    length_map, Ht, Nat.min_id.
  cbn [bind]. do 2 f_equal. unfold stream_backup.
  repeat (rewrite combine_map_r || rewrite combine_map_l || rewrite map_map).
  apply map_ext. intros [r [d tv]]. reflexivity.
Qed.

Lemma q_stream_losses_spec (i : nat) (s : Stream) :
  In s streams -> nth_error streams i = Some s ->
  q_stream_losses self q1_out q2_out target_values dones rewards loss_masks i
                  (stream_name s)
  = stream_q_losses (data dones) loss_masks s.
Proof.
  intros Hin Hi. unfold q_stream_losses, stream_q_losses, q1_out, q2_out.
  rewrite (dict_get_In stream_q1) by assumption. cbn [bind].
  destruct (op1e true squeeze (stream_q1 s)) as [q1s|e]; [| reflexivity]. cbn [bind].
  rewrite (dict_get_In stream_q2) by assumption. cbn [bind].
  destruct (op1e true squeeze (stream_q2 s)) as [q2s|e]; [| reflexivity]. cbn [bind].
  rewrite q_backup_spec by assumption. cbn [bind].
  now rewrite !half_masked_mse_spec.
Qed.

Lemma q_losses_loop (done rest : list Stream) :
  streams = done ++ rest ->
  map_enum_e (q_stream_losses self q1_out q2_out target_values dones rewards loss_masks)
             (length done) (map stream_name rest)
  = map_e (stream_q_losses (data dones) loss_masks) rest.
Proof.
  revert done. induction rest as [|s rest IH]; intros done Hsplit; [reflexivity |].
  cbn [map map_enum_e map_e].
  rewrite q_stream_losses_spec.
  - destruct (stream_q_losses (data dones) loss_masks s); [| reflexivity]. cbn [bind].
    specialize (IH (done ++ [s])). rewrite length_app, Nat.add_1_r in IH.
    rewrite IH by now rewrite <- app_assoc. reflexivity.
  - rewrite Hsplit. apply in_or_app. right. now left.
  - rewrite Hsplit, nth_error_app2, Nat.sub_diag by lia. reflexivity.
Qed.

Lemma sac_q_loss_spec :
  sac_q_loss self q1_out q2_out target_values dones rewards loss_masks
  = (losses <- map_e (stream_q_losses (data dones) loss_masks) streams ;;
     q1_loss <- opn true mean_scalars (map fst losses) ;;
     q2_loss <- opn true mean_scalars (map snd losses) ;;
     OK (q1_loss, q2_loss)).
Proof.
  unfold sac_q_loss.
  replace (Dict.keys q1_out) with (map stream_name streams)
    by (unfold q1_out, Dict.keys; now rewrite map_map).
  pose proof (q_losses_loop [] streams eq_refl) as H. cbn [length] in H.
  now rewrite H.
Qed.

End QLoss.

Lemma mean_scalars_data (ts : list (Tensor fl)) :
  ts <> [] ->
  opn true mean_scalars ts
  = OK (mkTensor (fmean (map data ts)) (existsb requires_grad ts)).
Proof. destruct ts as [|x ts]; [congruence | reflexivity]. Qed.

Lemma init_streams (g : RNG) (policy0 : TorchPolicy) (params : TrainerSettings.t)
      (self : t) (g' : RNG) (streams : list Stream) :
  __init__ g policy0 params = OK (self, g') ->
  NoDup (map stream_name streams) ->
  TrainerSettings.reward_signals params
  = map (fun s => (stream_name s, {| gamma := stream_gamma s |})) streams ->
  create_reward_signals (TrainerSettings.reward_signals params)
  = map (fun s => (stream_name s, {| ignore_done := stream_ignore_done s |})) streams ->
  gammas self = map stream_gamma streams
  /\ use_dones_in_backup self = map (fun s => (stream_name s, done_mask s)) streams.
Proof.
  intros Hinit Hnd Hsettings Hproviders.
  destruct (init_inv _ _ _ _ _ Hinit)
    as (_ & _ & _ & _ & _ & _ & Hrs & Hg & Hud).
  split.
  - rewrite Hg, Hsettings. unfold Dict.values. rewrite !map_map. reflexivity.
  - rewrite Hrs, Hproviders in Hud. unfold Dict.keys in Hud.
    rewrite map_map, map_e_map in Hud. cbn [fst] in Hud.
    rewrite (map_e_total _ (fun s => (stream_name s, done_mask s))) in Hud.
    + now inversion Hud.
    + intros s Hs.
      rewrite (dict_get_In (fun s => {| ignore_done := stream_ignore_done s |}))
        by assumption.
      reflexivity.
Qed.

(** C1.  The constructor takes the discounts from the settings of the
    reward signals and sets [done_mask_i] to 1 unless the reward signal
    ignores terminal states, then 0.  For streams of one batch size, the Q
    loss takes for every stream the backup
    [reward_i + (1 - done_mask_i * done) * gamma_i * target_value_i], a
    tensor that carries no gradient; each Q head gets
    [0.5 * masked_mean(mse(backup, q_i))] on its own, and each returned
    loss is the mean of the losses of the streams. *)
Theorem q_loss_bootstrap_target :
  (forall g policy0 params self g' (streams : list Stream),
      __init__ g policy0 params = OK (self, g') ->
      NoDup (map stream_name streams) ->
      TrainerSettings.reward_signals params
      = map (fun s => (stream_name s, {| gamma := stream_gamma s |})) streams ->
      create_reward_signals (TrainerSettings.reward_signals params)
      = map (fun s => (stream_name s, {| ignore_done := stream_ignore_done s |}))
            streams ->
      gammas self = map stream_gamma streams
      /\ use_dones_in_backup self = map (fun s => (stream_name s, done_mask s)) streams)
  /\ (forall (self : t) (streams : list Stream) (dones : Tensor (list fl))
             (loss_masks : list bool),
         NoDup (map stream_name streams) ->
         gammas self = map stream_gamma streams ->
         use_dones_in_backup self
         = map (fun s => (stream_name s, done_mask s)) streams ->
         Forall (fun s => length (data (stream_reward s)) = length (data dones)
                          /\ length (data (stream_target_value s))
                             = length (data dones))
                streams ->
         (forall i s,
             nth_error streams i = Some s ->
             q_backup self i (stream_name s)
                      (map (fun s => (stream_name s, stream_target_value s)) streams)
                      dones
                      (map (fun s => (stream_name s, stream_reward s)) streams)
             = OK (mkTensor (stream_backup s (data dones)) false))
         /\ sac_q_loss self
                       (map (fun s => (stream_name s, stream_q1 s)) streams)
                       (map (fun s => (stream_name s, stream_q2 s)) streams)
                       (map (fun s => (stream_name s, stream_target_value s)) streams)
                       dones
                       (map (fun s => (stream_name s, stream_reward s)) streams)
                       loss_masks
            = (losses <- map_e (stream_q_losses (data dones) loss_masks) streams ;;
               q1_loss <- opn true mean_scalars (map fst losses) ;;
               q2_loss <- opn true mean_scalars (map snd losses) ;;
               OK (q1_loss, q2_loss))
         /\ (forall losses,
                streams <> [] ->
                map_e (stream_q_losses (data dones) loss_masks) streams = OK losses ->
                sac_q_loss self
                           (map (fun s => (stream_name s, stream_q1 s)) streams)
                           (map (fun s => (stream_name s, stream_q2 s)) streams)
                           (map (fun s => (stream_name s, stream_target_value s))
                                streams)
                           dones
                           (map (fun s => (stream_name s, stream_reward s)) streams)
                           loss_masks
                = OK (mkTensor (fmean (map (fun l => data (fst l)) losses))
                               (existsb requires_grad (map fst losses)),
                      mkTensor (fmean (map (fun l => data (snd l)) losses))
                               (existsb requires_grad (map snd losses))))).
Proof.
  split; [exact init_streams |].
  intros self streams dones loss_masks Hnames Hgammas Hdones Hshapes.
  split; [| split].
  - intros i s Hi. apply q_backup_spec; try assumption.
    eapply nth_error_In; eauto.
  - now apply sac_q_loss_spec.
  - intros losses Hne Hlosses.
    rewrite sac_q_loss_spec by assumption. rewrite Hlosses. cbn [bind].
    assert (Hl : losses <> []).
    { destruct streams as [|s ss]; [congruence |]. simpl in Hlosses.
      destruct (stream_q_losses (data dones) loss_masks s); [| discriminate].
      simpl in Hlosses. destruct (map_e _ ss); [| discriminate].
      inversion Hlosses. discriminate. }
    rewrite !mean_scalars_data by (destruct losses; [congruence | discriminate]).
    cbn [bind]. now rewrite !map_map.
Qed.

(** ** The backup of the value loss *)

Lemma map_combine_fst {A B D : Type} (f : A -> D) (xs : list A) (ys : list B) :
  length xs = length ys -> map (fun x => f (fst x)) (combine xs ys) = map f xs.
Proof.
  revert ys. induction xs as [|x xs IH]; intros [|y ys] Hlen; simpl in Hlen;
    try discriminate; [reflexivity |].
  simpl. f_equal. apply IH. lia.
Qed.

Lemma iadd_zip (a b : list fl) :
  length a = length b ->
  iadd a b = OK (map (fun xy => fadd (fst xy) (snd xy)) (combine a b)).
Proof.
  intros Hlen. unfold iadd.
  destruct b as [|y [|y' b]].
  - now apply zip_with_e_total.
  - destruct a as [|x [|x' a]]; simpl in Hlen; try discriminate. reflexivity.
  - now apply zip_with_e_total.
Qed.

Lemma cont_entropy_term_real (mode : bool) (alpha : R) (fa : bool)
      (log_probs : ActionLogProbs.t) (L : list (list R)) (fl' : bool) :
  ActionLogProbs.continuous_tensor log_probs = mkTensor (map (map Fin) L) fl' ->
  cont_entropy_term mode (mkTensor (Fin alpha) fa) log_probs
  = mkTensor (map (fun row => Fin (entropy_term alpha row)) L) (mode && (fa || fl')).
Proof.
  intros HL. unfold cont_entropy_term, op2. rewrite HL. cbn [data requires_grad].
  f_equal. unfold sum_dim1, msmul, smul. rewrite !map_map.
  apply map_ext. intros row. unfold fsum, entropy_term.
  rewrite map_map, <- (map_map (Rmult alpha) Fin). apply fsum_Fin.
Qed.

(** With continuous actions only, the backup of a sample is
    [min_q - sum(alpha * log_prob) + mede_strength * mede_reward]. *)
Lemma v_backup_continuous_real (self : t) (log_probs : ActionLogProbs.t)
      (alpha : R) (fa : bool) (q : list R) (fq : bool) (m : list R) (fm : bool)
      (L : list (list R)) (fl' : bool) (strength : R) :
  mede_strength self = Fin strength ->
  ActionLogProbs.continuous_tensor log_probs = mkTensor (map (map Fin) L) fl' ->
  length L = length q -> length m = length q ->
  v_backup_continuous self log_probs (mkTensor (Fin alpha) fa)
                      (mkTensor (map Fin q) fq) (mkTensor (map Fin m) fm)
  = OK (mkTensor
          (map (fun x => Fin (fst (fst x) - entropy_term alpha (snd (fst x))
                              + strength * snd x))
               (combine (combine q L) m))
          false).
Proof.
  intros Hs HL Hlen Hm. unfold v_backup_continuous.
  rewrite (cont_entropy_term_real false alpha fa log_probs L fl' HL), Hs.
  unfold op2e, op1. cbn [data requires_grad andb].
  rewrite vop_zip by now rewrite !length_map.
  cbn [bind data]. unfold smul.
  rewrite iadd_zip
    by now rewrite !length_map, length_combine, !length_map, Hlen, Nat.min_id.
  cbn [bind]. do 2 f_equal.
  repeat (rewrite combine_map_r || rewrite combine_map_l || rewrite map_map).
  apply map_ext. intros [[x l] y]. reflexivity.
Qed.

(** With discrete actions, the backup of a sample is
    [min_q - mean_bonus + mede_strength * mede_reward], to which the code
    adds [sum(alpha * log_prob)] of the continuous actions when there are
    some. *)
Lemma v_backup_discrete_real (self : t) (log_probs : ActionLogProbs.t)
      (alpha : R) (fa : bool) (bonus : Tensor (list (list fl))) (mb : list R)
      (q : list R) (fq : bool) (m : list R) (fm : bool)
      (L : list (list R)) (fl' : bool) (strength : R) :
  mede_strength self = Fin strength ->
  ActionLogProbs.continuous_tensor log_probs = mkTensor (map (map Fin) L) fl' ->
  mean_dim0 (data bonus) = map Fin mb ->
  length mb = length q -> length m = length q -> length L = length q ->
  v_backup_discrete self log_probs (mkTensor (Fin alpha) fa) bonus
                    (mkTensor (map Fin q) fq) (mkTensor (map Fin m) fm)
  = OK (mkTensor
          (map (fun x =>
                  let base := fst (fst (fst x)) - snd (fst (fst x))
                              + strength * snd (fst x) in
                  Fin (if (0 <? continuous_size (_action_spec self))%nat
                       then base + entropy_term alpha (snd x) else base))
               (combine (combine (combine q mb) m) L))
          false).
Proof.
  intros Hs HL Hb Hmb Hm Hlen. unfold v_backup_discrete.
  unfold op2e at 1, op1 at 1. cbn [data requires_grad andb].
  rewrite Hb, vop_zip by now rewrite !length_map.
  cbn [bind]. rewrite Hs. unfold op2e at 1, op1, smul. cbn [data requires_grad andb].
  rewrite iadd_zip
    by now rewrite !length_map, length_combine, !length_map, Hmb, Nat.min_id.
  cbn [bind].
  assert (Hcomb : length (combine (combine q mb) m) = length L).
  { rewrite !length_combine. lia. }
  destruct (0 <? continuous_size (_action_spec self))%nat.
  - rewrite (cont_entropy_term_real false alpha fa log_probs L fl' HL).
    unfold op2e. cbn [data requires_grad andb].
    repeat (rewrite combine_map_r || rewrite combine_map_l || rewrite map_map).
    rewrite iadd_zip by now rewrite !length_map.
    cbn [bind]. do 2 f_equal.
    repeat (rewrite combine_map_r || rewrite combine_map_l || rewrite map_map).
    apply map_ext. intros [[[x b] y] l]. reflexivity.
  - do 2 f_equal.
    repeat (rewrite combine_map_r || rewrite combine_map_l || rewrite map_map).
    symmetry.
    apply (map_combine_fst
             (fun y => Fin (fst (fst y) - snd (fst y) + strength * snd y))).
    exact Hcomb.
Qed.

End UpdateSteps.

(** ** The properties at the small instance *)

(** Settles the comparisons of real constants that the arithmetic of the
    tensor elements is waiting for. *)
Ltac settle d :=
  let H := fresh in
  first [ destruct d as [H|H]; [| exfalso; apply H; lra]
        | destruct d as [H|H]; [exfalso; lra |] ].

Ltac settle_reals :=
  repeat (cbn; unfold Rmax, Rmin, by_sign;
          match goal with
          | |- context [Rle_dec ?a ?b] => settle (Rle_dec a b)
          | |- context [Req_dec_T ?a ?b] => settle (Req_dec_T a b)
          | |- context [Rlt_dec ?a ?b] => settle (Rlt_dec a b)
          end).

Lemma non_finite_value_loss_is_fatal_witness :
  exists self g',
    @TorchSACOptimizer.__init__ Toy.collaborators tt
      (Toy.policy false Toy.continuous_only) Toy.params = OK (self, g')
    /\ @TorchSACOptimizer.update Toy.collaborators self tt
         {| Toy.observation := PInf; Toy.reward := Fin 0; Toy.done := Fin 0 |} 0
       = Raise (UnityTrainerException "Inf found").
Proof.
  eexists. eexists. split; [reflexivity |].
  eapply (proj1 (proj2 (@non_finite_value_loss_is_fatal Toy.collaborators))).
  - reflexivity.
  - reflexivity.
  - reflexivity.
  - settle_reals. reflexivity.
Defined.

Lemma mede_reward_centering_witness :
  exists r,
    DiverseNetworkVariational.rewards
      unit Toy.predict (fun _ g t => (t, g))
      (example_discriminator (Fin 0) true false) true tt Toy.goal_obs Toy.sampled
      Toy.log_probs false false = OK (r, tt)
    /\ length (data r) = 1%nat
    /\ Forall (fun x => exists c, x = Fin c /\ Rabs c < 1e-6) (data r).
Proof.
  apply (proj2 mede_reward_centering
               unit Toy.predict (fun _ g t => (t, g))
               (example_discriminator (Fin 0) true false) true tt Toy.goal_obs
               Toy.sampled Toy.log_probs false false
               [[Fin 0; Fin 1; Fin 0; Fin 0]] (mkTensor [uniform4] true)
               (mkTensor [[Fin 0]] true) tt).
  - reflexivity.
  - reflexivity.
  - reflexivity.
  - reflexivity.
  - reflexivity.
  - constructor; [| constructor]. exists 1%nat. reflexivity.
Defined.

Lemma beta_updated_once_and_nonnegative_witness :
  exists self0 self1 losses b,
    DiverseNetworkVariational.__init__ 1 Toy.goal_specs (Toy.settings true) = OK self0
    /\ DiverseNetworkVariational.loss
         unit Toy.predict (fun _ g t => (t, g)) ModelUtils.masked_mean self0 true tt
         Toy.goal_obs Toy.sampled Toy.log_probs [true] true true
       = OK (self1, losses, tt)
    /\ DiverseNetworkVariational._beta self1 = Some (mkTensor (Fin b) false)
    /\ 0 <= b.
Proof.
  unshelve epose proof
           (proj2 beta_updated_once_and_nonnegative
                  1%nat Toy.goal_specs (Toy.settings true) _ 0.5 _ _ eq_refl eq_refl _)
    as H.
  3: reflexivity.
  2:{ eapply discriminator_run_step; [apply discriminator_run_refl |].
      eapply (discriminator_step_loss
                unit Toy.predict (fun _ g t => (t, g)) ModelUtils.masked_mean _ true tt
                Toy.goal_obs Toy.sampled Toy.log_probs [true] true true);
        [reflexivity |].
      intros kl Hkl. inversion Hkl; subst kl; clear Hkl.
      settle_reals. eexists. reflexivity. }
  destruct H as (b & Hb & Hpos).
  do 3 eexists. exists b.
  split; [reflexivity |]. split; [reflexivity |]. split; [exact Hb | exact Hpos].
Defined.

Lemma target_entropy_at_construction_witness :
  exists self g',
    @TorchSACOptimizer.__init__ Toy.collaborators tt (Toy.policy false Toy.hybrid)
      Toy.params = OK (self, g')
    /\ TargetEntropy.continuous (TorchSACOptimizer.target_entropy self)
       = Fin (-1 * 1.0 * INR 1)
    /\ nth_error (TargetEntropy.discrete (TorchSACOptimizer.target_entropy self)) 0
       = Some (Fin (0.2 * ln (INR 2))).
Proof.
  unshelve epose proof
           (proj1 (@target_entropy_at_construction Toy.collaborators)
                  tt (Toy.policy false Toy.hybrid) Toy.params _ _ _) as H.
  3: reflexivity.
  destruct H as (Hc & _ & Hd).
  do 2 eexists. split; [reflexivity |].
  split; [exact Hc |]. apply (Hd 0%nat 2%nat eq_refl). lia.
Defined.

Lemma condense_averages_selected_witness :
  exists self g',
    @TorchSACOptimizer.__init__ Toy.collaborators tt (Toy.policy false Toy.hybrid)
      Toy.params = OK (self, g')
    /\ TorchSACOptimizer._condense_q_streams
         self (map q_tensor [("extrinsic"%string, [[5; 7]], true)]) (mkLong 1 [[1%nat]])
       = OK [("extrinsic"%string,
              mkTensor (Vec [Fin (condensed [2%nat] [1%nat] [5; 7])]) true)].
Proof.
  eexists. eexists. split; [reflexivity |].
  refine (proj1 (@condense_averages_selected Toy.collaborators)
                _ [("extrinsic"%string, [[5; 7]], true)] [[1%nat]] _ _ _).
  - discriminate.
  - discriminate.
  - constructor; [| constructor]. split; [reflexivity |]. split.
    + constructor; [| constructor]. split; [reflexivity |].
      intros [|j] Hj; simpl in *; lia.
    + constructor; [reflexivity | constructor].
Defined.

Lemma q_loss_bootstrap_target_witness :
  exists self g',
    @TorchSACOptimizer.__init__ Toy.collaborators tt
      (Toy.policy false Toy.continuous_only) Toy.params = OK (self, g')
    /\ @TorchSACOptimizer.sac_q_loss Toy.collaborators self
         [("extrinsic"%string, mkTensor (Vec [Fin 0]) true)]
         [("extrinsic"%string, mkTensor (Vec [Fin 1]) false)]
         [("extrinsic"%string, mkTensor [Fin 2] false)]
         (constant [Fin 0])
         [("extrinsic"%string, constant [Fin 1])]
         [true]
       = OK (mkTensor (Fin 4.4402) true, mkTensor (Fin 1.9602) false).
Proof.
  eexists. eexists. split; [reflexivity |].
  refine (eq_trans
            (proj1 (proj2 (proj2 (@q_loss_bootstrap_target Toy.collaborators)
                                 _
                                 [ {| stream_name := "extrinsic";
                                      stream_reward := constant [Fin 1];
                                      stream_target_value := mkTensor [Fin 2] false;
                                      stream_q1 := mkTensor (Vec [Fin 0]) true;
                                      stream_q2 := mkTensor (Vec [Fin 1]) false;
                                      stream_gamma := Fin 0.99;
                                      stream_ignore_done := false |} ]
                                 (constant [Fin 0]) [true] _ _ _ _)))
            _).
  - constructor; [intros [] | constructor].
  - reflexivity.
  - reflexivity.
  - constructor; [split; reflexivity | constructor].
  - settle_reals. do 2 f_equal; f_equal; f_equal; lra.
Defined.


Lemma soft_update_convergence_and_order_witness :
  (exists N, forall n, (N <= n)%nat ->
                       within 0.1 (soft_updates n [Fin 1] [Fin 0] (Fin 0.5)) [1])
  /\ exists self g' self' stats trace g'',
      @TorchSACOptimizer.__init__ Toy.collaborators tt
        (Toy.policy false Toy.continuous_only) Toy.params = OK (self, g')
      /\ @TorchSACOptimizer.update Toy.collaborators self tt Toy.batch 0
         = OK (self', stats, trace, g'')
      /\ parameters (TorchSACOptimizer.target_network self')
         = soft_updates 1 (parameters (TorchSACOptimizer._critic self'))
                        (parameters (TorchSACOptimizer.target_network self))
                        (TorchSACOptimizer.tau self).
Proof.
  split.
  - apply (proj1 (proj2 (@soft_update_convergence_and_order Toy.collaborators))
                 0.5 [1] [0] 0.1); [lra | reflexivity | lra].
  - unshelve epose proof
             (@constructed_init Toy.collaborators tt
                (Toy.policy false Toy.continuous_only) Toy.params _ _ _) as Hc.
    3: reflexivity.
    match type of Hc with
    | constructed ?S =>
        eassert (Hupd : @TorchSACOptimizer.update Toy.collaborators S tt Toy.batch 0
                        = OK (_, _, _, _))
          by (unfold TorchSACOptimizer.update; settle_reals; reflexivity)
    end.
    destruct (proj2 (proj2 (proj2 (proj2
                (@soft_update_convergence_and_order Toy.collaborators))))
                _ _ _ _ _ _ _ _ Hupd) as (Htarget & _).
    do 6 eexists. split; [reflexivity |]. split; [exact Hupd | exact Htarget].
Defined.

(** C2, where the code departs from it.  For one sample with the minimum
    policy Q value 0, no bonus of the discrete branch, no reward of the
    discriminator, the entropy coefficient 2 and the log-probability -1 of
    the continuous action, the backup with continuous actions only is
    0 - 2 * (-1) = 2, the entropy term subtracted; with a discrete branch
    beside the continuous action it is 0 - 0 + 2 * (-1) = -2, the same
    term added. *)
Theorem hybrid_backup_adds_continuous_entropy_term :
  exists self_c g_c self_h g_h x y,
    @TorchSACOptimizer.__init__ Toy.collaborators tt
      (Toy.policy false Toy.continuous_only) Toy.params = OK (self_c, g_c)
    /\ @TorchSACOptimizer.__init__ Toy.collaborators tt
         (Toy.policy false Toy.hybrid) Toy.params = OK (self_h, g_h)
    /\ TorchSACOptimizer.v_backup_continuous
         self_c Toy.log_probs (mkTensor (Fin 2) false) (mkTensor [Fin 0] false)
         (constant [Fin 0])
       = OK (mkTensor [Fin x] false)
    /\ x = 2
    /\ TorchSACOptimizer.v_backup_discrete
         self_h Toy.log_probs (mkTensor (Fin 2) false) (mkTensor [[Fin 0]] false)
         (mkTensor [Fin 0] false) (constant [Fin 0])
       = OK (mkTensor [Fin y] false)
    /\ y = -2.
Proof.
  do 6 eexists. split; [reflexivity |]. split; [reflexivity |].
  split; [| split; [| split]].
  - refine (@v_backup_continuous_real Toy.collaborators _ Toy.log_probs 2 false
              [0] false [0] false [[-1]] true 0 _ _ _ _); reflexivity.
  - unfold entropy_term. simpl. lra.
  - refine (@v_backup_discrete_real Toy.collaborators _ Toy.log_probs 2 false
              (mkTensor [[Fin 0]] false) [(0 + 0) / INR 1]
              [0] false [0] false [[-1]] true 0 _ _ _ _ _ _); try reflexivity.
    unfold mean_dim0, fmean, fsum, of_nat. cbn [data length seq map nth fold_left fadd].
    now rewrite fdiv_Fin by (simpl; lra).
  - unfold entropy_term. simpl. lra.
Qed.


(** * Further properties

    Of the parts of the two classes that the properties above do not
    reach: the construction, the forward pass and the saliency of the
    discriminator, the gradients and the preconditions of the losses, the
    statistics and the invariants of the update, the reward signals and the
    modules to save. *)

(** ** Lists, exceptions and dictionaries *)

Lemma map_e_inv {A B : Type} (f : A -> exc B) (xs : list A) (ys : list B) :
  map_e f xs = OK ys -> Forall2 (fun x y => f x = OK y) xs ys.
Proof.
  revert ys. induction xs as [|x xs IH]; intros ys H; simpl in H.
  - inversion H. constructor.
  - inv_bind H. inv_bind H. inversion H; subst. constructor; auto.
Qed.

Lemma map_e_In {A B : Type} (f : A -> exc B) (xs : list A) (ys : list B) :
  map_e f xs = OK ys -> Forall (fun y => exists x, In x xs /\ f x = OK y) ys.
Proof.
  intros H. apply map_e_inv in H.
  induction H as [|x y xs' ys' Hxy _ IH]; constructor.
  - exists x. simpl. auto.
  - eapply Forall_impl; [| exact IH]. intros z (a & Ha & Hz). exists a. simpl. auto.
Qed.

(** Every element of a broadcast operation comes from one element of each
    operand. *)

Lemma map_e_succeeds {A B : Type} (f : A -> exc B) (xs : list A) :
  (forall x, In x xs -> exists y, f x = OK y) -> exists ys, map_e f xs = OK ys.
Proof.
  induction xs as [|x xs IH]; intros H; [exists []; reflexivity |].
  destruct (H x (or_introl eq_refl)) as (y & Hy).
  destruct IH as (ys & Hys); [intros; apply H; now right |].
  exists (y :: ys). simpl. now rewrite Hy, Hys.
Qed.

Lemma map_enum_e_inv {A B : Type} (f : nat -> A -> exc B) (xs : list A) :
  forall (i : nat) (ys : list B),
    map_enum_e f i xs = OK ys ->
    length ys = length xs
    /\ forall j x, nth_error xs j = Some x ->
                   exists y, f (i + j)%nat x = OK y /\ nth_error ys j = Some y.
Proof.
  induction xs as [|x xs IH]; intros i ys H; simpl in H.
  - inversion H. split; [reflexivity |]. intros [|j] x Hx; discriminate.
  - inv_bind H. inv_bind H. inversion H; subst; clear H.
    destruct (IH _ _ E0) as (Hlen & Hall). split; [simpl; now rewrite Hlen |].
    intros [|j] x' Hx; simpl in Hx.
    + inversion Hx; subst x'. exists x0. rewrite Nat.add_0_r. auto.
    + destruct (Hall j x' Hx) as (y & Hy & Hnth). exists y.
      rewrite Nat.add_succ_r. auto.
Qed.

Lemma zip_with_e_inv {A B C : Type} (f : A -> B -> exc C)
      (xs : list A) (ys : list B) (zs : list C) :
  zip_with_e f xs ys = OK zs ->
  Forall (fun z => exists x y, In x xs /\ In y ys /\ f x y = OK z) zs.
Proof.
  revert ys zs. induction xs as [|x xs IH]; intros [|y ys] zs H; simpl in H;
    try discriminate.
  - inversion H. constructor.
  - inv_bind H. inv_bind H. inversion H; subst. constructor.
    + exists x, y. simpl. auto.
    + eapply Forall_impl; [| exact (IH _ _ E0)].
      intros z (a & b & Ha & Hb & Hz). exists a, b. simpl. auto.
Qed.

Lemma broadcast_inv {A B C : Type} (f : A -> B -> exc C)
      (xs : list A) (ys : list B) (zs : list C) :
  broadcast f xs ys = OK zs ->
  Forall (fun z => exists x y, In x xs /\ In y ys /\ f x y = OK z) zs.
Proof.
  intros H.
  assert (Hl : forall x, In x xs -> map_e (f x) ys = OK zs ->
                         Forall (fun z => exists x y, In x xs /\ In y ys /\ f x y = OK z) zs).
  { intros x Hx Hm. eapply Forall_impl; [| exact (map_e_In _ _ _ Hm)].
    intros z (y & Hy & Hz). exists x, y. auto. }
  assert (Hr : forall y, In y ys -> map_e (fun x => f x y) xs = OK zs ->
                         Forall (fun z => exists x y, In x xs /\ In y ys /\ f x y = OK z) zs).
  { intros y Hy Hm. eapply Forall_impl; [| exact (map_e_In _ _ _ Hm)].
    intros z (x & Hx & Hz). exists x, y. auto. }
  unfold broadcast in H.
  destruct xs as [|x [|x' xs]].
  - destruct ys as [|y [|y' ys]];
      try (apply (Hr y); [now left | exact H]); apply zip_with_e_inv; exact H.
  - apply (Hl x); [now left | exact H].
  - destruct ys as [|y [|y' ys]];
      try (apply (Hr y); [now left | exact H]); apply zip_with_e_inv; exact H.
Qed.

Lemma list_set_inv {A : Type} (xs : list A) (i : nat) (v : A) (ys : list A) :
  list_set xs i v = OK ys ->
  (i < length xs)%nat
  /\ length ys = length xs
  /\ nth_error ys i = Some v
  /\ forall k, k <> i -> nth_error ys k = nth_error xs k.
Proof.
  revert i ys. induction xs as [|x xs IH]; intros i ys H; [discriminate |].
  destruct i as [|i]; simpl in H.
  - inversion H; subst. simpl. repeat split; auto; [lia |].
    intros [|k] Hk; [congruence | reflexivity].
  - inv_bind H. inversion H; subst; clear H.
    destruct (IH i x0 E) as (Hi & Hlen & Hnth & Hother).
    simpl. repeat split; auto; [lia |].
    intros [|k] Hk; [reflexivity |]. simpl. apply Hother. congruence.
Qed.

(** What the loop over the observations leaves in each drop tensor. *)

Lemma existsb_Forall2 {A B : Type} (p : A -> bool) (q : B -> bool)
      (xs : list A) (ys : list B) :
  Forall2 (fun x y => p x = q y) xs ys -> existsb p xs = existsb q ys.
Proof. induction 1 as [|x y xs ys Hxy _ IH]; simpl; [reflexivity | now rewrite Hxy, IH]. Qed.

Lemma Forall2_map_l_In {A B D : Type} (f : A -> B) (R : B -> D -> Prop)
      (Q : A -> D -> Prop) (xs : list A) (ys : list D) :
  (forall x y, In x xs -> R (f x) y -> Q x y) ->
  Forall2 R (map f xs) ys -> Forall2 Q xs ys.
Proof.
  revert ys. induction xs as [|x xs IH]; intros ys HQ H; inversion H; subst;
    constructor.
  - apply HQ; [now left | assumption].
  - apply IH; [intros; apply HQ; [now right | assumption] | assumption].
Qed.

Lemma dict_get_keys {V : Type} (d : Dict.t V) (k : string) (v : V) :
  Dict.get d k = OK v -> In k (Dict.keys d).
Proof.
  induction d as [|[k' v'] d IH]; simpl; [discriminate |].
  destruct (String.eqb_spec k' k) as [->|_]; [now left | right; auto].
Qed.

Lemma dict_get_of_key {V : Type} (d : Dict.t V) (k : string) :
  In k (Dict.keys d) -> exists v, Dict.get d k = OK v.
Proof.
  induction d as [|[k' v'] d IH]; simpl; [contradiction |].
  intros [->|Hin].
  - rewrite String.eqb_refl. eauto.
  - destruct (String.eqb k' k); [eauto | auto].
Qed.

Lemma dict_get_missing {V : Type} (d : Dict.t V) (k : string) :
  ~ In k (Dict.keys d) -> Dict.get d k = Raise (KeyError k).
Proof.
  induction d as [|[k' v'] d IH]; simpl; intros Hnot; [reflexivity |].
  destruct (String.eqb_spec k' k) as [->|_]; [tauto | apply IH; tauto].
Qed.

Lemma dict_get_entry {V : Type} (d : Dict.t V) (k : string) (v : V) :
  NoDup (Dict.keys d) -> In (k, v) d -> Dict.get d k = OK v.
Proof.
  induction d as [|[k' v'] d IH]; intros Hnd Hin; [contradiction |].
  inversion Hnd as [|? ? Hnot Hnd']; subst. simpl.
  destruct Hin as [E|Hin].
  - inversion E; subst. now rewrite String.eqb_refl.
  - destruct (String.eqb_spec k' k) as [->|_]; [| now apply IH].
    exfalso. apply Hnot. apply (in_map fst) in Hin. exact Hin.
Qed.

Lemma dict_get_set {V : Type} (d : Dict.t V) (k k' : string) (v : V) :
  Dict.get (Dict.set d k v) k' = if String.eqb k k' then OK v else Dict.get d k'.
Proof.
  induction d as [|[k0 v0] d IH]; simpl.
  - destruct (String.eqb_spec k k'); reflexivity.
  - destruct (String.eqb_spec k0 k) as [->|Hne]; simpl.
    + destruct (String.eqb_spec k k'); reflexivity.
    + destruct (String.eqb_spec k0 k') as [->|Hne'].
      * destruct (String.eqb_spec k k'); [congruence | reflexivity].
      * exact IH.
Qed.

Lemma dict_keys_set_present {V : Type} (d : Dict.t V) (k : string) (v : V) :
  In k (Dict.keys d) -> Dict.keys (Dict.set d k v) = Dict.keys d.
Proof.
  induction d as [|[k' v'] d IH]; simpl; [contradiction |]. intros Hin.
  destruct (String.eqb_spec k' k) as [->|Hne]; [reflexivity |].
  simpl. f_equal. apply IH. destruct Hin; [contradiction | assumption].
Qed.

Lemma dict_keys_set_incl {V : Type} (d : Dict.t V) (k k' : string) (v : V) :
  In k' (Dict.keys d) \/ k' = k <-> In k' (Dict.keys (Dict.set d k v)).
Proof.
  induction d as [|[k0 v0] d IH]; simpl.
  - split; [intros [[]| ->]; auto | intros [<-|[]]; auto].
  - destruct (String.eqb_spec k0 k) as [->|Hne]; simpl.
    + split; [intros [[H|H]|H]; auto | tauto].
    + rewrite <- IH. tauto.
Qed.

(** A lookup after [d.update(e)]: the entries of [e] win. *)

Lemma dict_get_update_other {V : Type} (e d : Dict.t V) (k : string) :
  ~ In k (Dict.keys e) -> Dict.get (Dict.update d e) k = Dict.get d k.
Proof.
  unfold Dict.update. revert d.
  induction e as [|[k0 v0] e IH]; intros d Hnot; [reflexivity |].
  simpl in Hnot. cbn [fold_left fst snd]. rewrite IH by tauto.
  rewrite dict_get_set. destruct (String.eqb_spec k0 k); [tauto | reflexivity].
Qed.

Lemma dict_keys_update {V : Type} (e d : Dict.t V) (k : string) :
  In k (Dict.keys d) \/ In k (Dict.keys e) <-> In k (Dict.keys (Dict.update d e)).
Proof.
  unfold Dict.update. revert d.
  induction e as [|[k0 v0] e IH]; intros d; cbn [fold_left fst snd].
  - simpl. tauto.
  - rewrite <- IH, <- dict_keys_set_incl. simpl. intuition congruence.
Qed.

(** ** Tensor elements *)

Lemma ln_monotone (x y : R) : 0 < x -> x <= y -> ln x <= ln y.
Proof.
  intros Hx [Hlt | ->]; [left; now apply ln_increasing | right; reflexivity].
Qed.

Lemma ln_inv_nat (n : nat) : n <> 0%nat -> ln (1 / INR n) <= 0.
Proof.
  intros Hn. assert (1 <= INR n).
  { replace 1 with (INR 1) by reflexivity. apply le_INR. lia. }
  rewrite <- ln_1. apply ln_monotone.
  - apply Rdiv_lt_0_compat; lra.
  - apply Rmult_le_reg_r with (INR n); [lra |]. unfold Rdiv.
    rewrite Rmult_assoc, Rinv_l by lra. lra.
Qed.

Lemma fexp_fln (a : R) : 0 <= a -> fexp (fln (Fin a)) = Fin a.
Proof.
  intros Ha. unfold fln. destruct (Rlt_dec 0 a) as [Hpos|Hz].
  - cbn. now rewrite exp_ln.
  - destruct (Rlt_dec a 0); [lra |]. cbn. f_equal. lra.
Qed.

Lemma fgt_nan (a : fl) : fgt a NaN = false.
Proof. destruct a; reflexivity. Qed.

(** Every element that [drop_channels] returns is an element of the
    tensor, kept or multiplied by zero as a draw and a rate decide, plus
    the offset. *)

Lemma fsum_nonneg (xs : list fl) :
  Forall (fun x => exists r, x = Fin r /\ 0 <= r) xs ->
  exists s, fsum xs = Fin s /\ 0 <= s.
Proof.
  intros H.
  assert (G : forall a, 0 <= a -> exists s, fold_left fadd xs (Fin a) = Fin s /\ 0 <= s).
  { induction H as [|x xs (r & -> & Hr) _ IH]; intros a Ha; simpl.
    - exists a. auto.
    - apply IH. lra. }
  apply G. lra.
Qed.

Lemma fmean_nonneg (xs : list fl) :
  xs <> [] ->
  Forall (fun x => exists r, x = Fin r /\ 0 <= r) xs ->
  exists m, fmean xs = Fin m /\ 0 <= m.
Proof.
  intros Hne H. destruct (fsum_nonneg xs H) as (s & Hs & Hpos).
  unfold fmean, of_nat. rewrite Hs.
  assert (0 < INR (length xs)).
  { apply lt_0_INR. destruct xs; [congruence | simpl; lia]. }
  rewrite fdiv_Fin by lra. eexists. split; [reflexivity |].
  apply Rmult_le_pos; [exact Hpos |]. left. now apply Rinv_0_lt_compat.
Qed.

Lemma fold_Rplus_div (f : R -> R) (S : R) (l : list R) (a : R) :
  fold_left Rplus (map (fun x => f x / S) l) (a / S)
  = fold_left Rplus (map f l) a / S.
Proof.
  revert a. induction l as [|x l IH]; intros a; simpl; [reflexivity |].
  rewrite <- IH. f_equal. unfold Rdiv. ring.
Qed.

Lemma fold_Rplus_bound (f : R -> R) (l : list R) :
  (forall x, 0 < f x) ->
  forall a, 0 <= a ->
            a <= fold_left Rplus (map f l) a
            /\ forall x, In x l -> f x <= fold_left Rplus (map f l) a.
Proof.
  intros Hf. induction l as [|y l IH]; intros a Ha; simpl.
  - split; [lra | contradiction].
  - pose proof (Hf y) as Hy.
    destruct (IH (a + f y) ltac:(lra)) as [Hacc Hall].
    split; [lra |]. intros x [<-|Hin]; [lra | auto].
Qed.

(** The softmax of a row of numbers is a distribution. *)

(** ** The construction of the discriminator *)

Lemma first_goal_spec (specs : list ObservationSpec) :
  match nth_error (filter (fun s => is_goal (observation_type s)) specs) 0 with
  | Some s =>
      exists i, nth_error specs i = Some s
                /\ observation_type s = GOAL_SIGNAL
                /\ forall j s', (j < i)%nat -> nth_error specs j = Some s' ->
                                observation_type s' = DEFAULT
  | None => Forall (fun s => observation_type s = DEFAULT) specs
  end.
Proof.
  induction specs as [|s specs IH]; [constructor |].
  cbn [filter]. destruct (observation_type s) eqn:Ht; cbn [is_goal].
  - destruct (nth_error (filter _ specs) 0) as [s1|].
    + destruct IH as (i & Hi & Hg & Hbefore). exists (S i).
      split; [exact Hi |]. split; [exact Hg |].
      intros [|j] s' Hj Hs'; simpl in Hs'; [now inversion Hs'; subst |].
      apply (Hbefore j); [lia | exact Hs'].
    + now constructor.
  - exists 0%nat. cbn. repeat split; auto. intros j s' Hj. lia.
Qed.

Lemma find_diverse_index_spec (specs : list ObservationSpec) (start : Z) (i : nat) :
  (Forall (fun s => observation_type s = DEFAULT) specs
   /\ DiverseNetworkVariational.find_diverse_index start i specs = start)
  \/ exists j s,
       nth_error specs j = Some s /\ observation_type s = GOAL_SIGNAL
       /\ DiverseNetworkVariational.find_diverse_index start i specs = Z.of_nat (i + j)
       /\ forall k s', (j < k)%nat -> nth_error specs k = Some s' ->
                       observation_type s' = DEFAULT.
Proof.
  revert start i. induction specs as [|s specs IH]; intros start i.
  - left. split; [constructor | reflexivity].
  - cbn [DiverseNetworkVariational.find_diverse_index].
    destruct (IH (if is_goal (observation_type s) then Z.of_nat i else start) (S i))
      as [[Hall Hidx] | (j & s1 & Hj & Hg & Hidx & Hafter)].
    + destruct (observation_type s) eqn:Ht; cbn [is_goal] in Hidx.
      * left. split; [now constructor | exact Hidx].
      * right. exists 0%nat, s. cbn [nth_error]. rewrite Nat.add_0_r.
        repeat split; auto.
        intros [|k] s' Hk Hs'; [lia |]. simpl in Hs'.
        rewrite Forall_forall in Hall. apply Hall. eapply nth_error_In; eauto.
    + right. exists (S j), s1. cbn [nth_error].
      split; [exact Hj |]. split; [exact Hg |].
      split; [rewrite Hidx; f_equal; lia |].
      intros [|k] s' Hk Hs'; [lia |]. simpl in Hs'. apply (Hafter k); [lia | exact Hs'].
Qed.

(** X1.  The discriminator needs a goal signal: for a behaviour without a
    goal-signal observation its constructor raises [IndexError], and so it
    does when the first goal-signal observation has an empty shape. *)
Theorem discriminator_needs_goal_signal :
  forall (hidden_units : nat) (specs : BehaviorSpec) (params : SACSettings.t),
    (Forall (fun s => observation_type s = DEFAULT) (observation_specs specs) ->
     DiverseNetworkVariational.__init__ hidden_units specs params = Raise IndexError)
    /\ (forall i s,
           nth_error (observation_specs specs) i = Some s ->
           observation_type s = GOAL_SIGNAL ->
           (forall j s', (j < i)%nat ->
                         nth_error (observation_specs specs) j = Some s' ->
                         observation_type s' = DEFAULT) ->
           shape s = [] ->
           DiverseNetworkVariational.__init__ hidden_units specs params
           = Raise IndexError).
Proof.
  intros hidden_units specs params.
  pose proof (first_goal_spec (observation_specs specs)) as Hfirst.
  unfold DiverseNetworkVariational.__init__, list_get.
  destruct (nth_error (filter _ (observation_specs specs)) 0) as [s1|] eqn:E1.
  - destruct Hfirst as (i1 & Hi1 & Hg1 & Hbefore). cbn [bind]. split.
    + intros Hall. rewrite Forall_forall in Hall.
      specialize (Hall s1 (nth_error_In _ _ Hi1)). congruence.
    + intros i s Hi Hg Hb Hshape.
      assert (i = i1).
      { destruct (Nat.lt_trichotomy i i1) as [Hlt|[Heq|Hlt]]; [| exact Heq |].
        - specialize (Hbefore i s Hlt Hi). congruence.
        - specialize (Hb i1 s1 Hlt Hi1). congruence. }
      subst i. rewrite Hi1 in Hi. inversion Hi; subst s1.
      rewrite Hshape. reflexivity.
  - cbn [bind]. split; reflexivity.
Qed.

(** X2.  What the constructor records of the goal signal: [diverse_size]
    is the first dimension of the first goal-signal observation, while
    [_diverse_index] is the index of the last one; the drop tensors are
    zero, one for each observation that is not a goal signal. *)

Theorem discriminator_goal_bookkeeping :
  forall (hidden_units : nat) (specs : BehaviorSpec) (params : SACSettings.t)
         (self : DiverseNetworkVariational.t),
    DiverseNetworkVariational.__init__ hidden_units specs params = OK self ->
    (exists first s1 rest last s2,
        nth_error (observation_specs specs) first = Some s1
        /\ observation_type s1 = GOAL_SIGNAL
        /\ (forall j s', (j < first)%nat ->
                         nth_error (observation_specs specs) j = Some s' ->
                         observation_type s' = DEFAULT)
        /\ shape s1 = DiverseNetworkVariational.diverse_size self :: rest
        /\ nth_error (observation_specs specs) last = Some s2
        /\ observation_type s2 = GOAL_SIGNAL
        /\ (forall k s', (last < k)%nat ->
                         nth_error (observation_specs specs) k = Some s' ->
                         observation_type s' = DEFAULT)
        /\ DiverseNetworkVariational._diverse_index self = Z.of_nat last
        /\ (first <= last)%nat)
    /\ DiverseNetworkVariational.observations_sal_drop self
       = map (fun s => zeros (fold_right Nat.mul 1%nat (shape s)))
             (filter (fun s => negb (is_goal (observation_type s)))
                     (observation_specs specs))
    /\ DiverseNetworkVariational.cont_actions_sal_drop self
       = zeros (continuous_size (action_spec specs)).
Proof.
  intros hidden_units specs params self Hinit.
  pose proof (first_goal_spec (observation_specs specs)) as Hfirst.
  unfold DiverseNetworkVariational.__init__, list_get in Hinit.
  destruct (nth_error (filter _ (observation_specs specs)) 0) as [s1|];
    [| discriminate].
  cbn [bind] in Hinit.
  destruct (shape s1) as [|n rest] eqn:Hshape; [discriminate |].
  cbn [nth_error bind] in Hinit. inversion Hinit; subst self; clear Hinit.
  cbn [DiverseNetworkVariational.diverse_size DiverseNetworkVariational._diverse_index
       DiverseNetworkVariational.observations_sal_drop
       DiverseNetworkVariational.cont_actions_sal_drop].
  split; [| split; reflexivity].
  destruct Hfirst as (first & Hi & Hg & Hbefore).
  destruct (find_diverse_index_spec (observation_specs specs) (-1) 0)
    as [[Hall _] | (last & s2 & Hl & Hg2 & Hidx & Hafter)].
  - rewrite Forall_forall in Hall.
    specialize (Hall s1 (nth_error_In _ _ Hi)). congruence.
  - exists first, s1, rest, last, s2. repeat split; auto.
    destruct (Nat.le_gt_cases first last) as [Hle|Hgt]; [exact Hle |].
    specialize (Hbefore last s2 Hgt Hl). congruence.
Qed.

(** ** The saliency of the discriminator, further *)

Lemma any_zeros (n : nat) : any (zeros n) = false.
Proof.
  unfold any, zeros. induction n as [|n IH]; [reflexivity |].
  cbn [repeat existsb nonzero]. destruct (Req_dec_T 0 0); [exact IH | lra].
Qed.

Lemma drop_index_Forall {A : Type} (P : A -> Prop) (skip : Z) (xs : list A) (i : nat) :
  Forall P xs -> Forall P (drop_index skip i xs).
Proof.
  intros H. revert i. induction H as [|x xs Hx _ IH]; intros i; simpl; [constructor |].
  destruct (Z.of_nat i =? skip)%Z; [apply IH | constructor; [exact Hx | apply IH]].
Qed.

Lemma update_saliency_observations_skip (m : fl) (sals drops : list (list fl)) (i : nat) :
  Forall (fun sal => any sal = false) sals ->
  DiverseNetworkVariational.update_saliency_observations m i sals drops = OK drops.
Proof.
  intros H. revert i. induction H as [|sal sals Hsal _ IH]; intros i; [reflexivity |].
  cbn [DiverseNetworkVariational.update_saliency_observations]. rewrite Hsal. apply IH.
Qed.

(** X3.  Saliencies that are all zero, as they are when the optimizer is
    built, or that are empty, leave the discriminator as it is. *)

Theorem update_saliency_zero_is_noop :
  forall (self : DiverseNetworkVariational.t) (sizes : list nat) (n : nat),
    DiverseNetworkVariational.update_saliency self (map zeros sizes) (zeros n) = OK self.
Proof.
  intros self sizes n. unfold DiverseNetworkVariational.update_saliency. cbv zeta.
  rewrite update_saliency_observations_skip.
  - cbn [bind]. rewrite any_zeros. cbn [bind]. destruct self; reflexivity.
  - apply drop_index_Forall. apply Forall_map, Forall_forall.
    intros k _. apply any_zeros.
Qed.

Lemma update_saliency_observations_nth (m : fl) (sals : list (list fl)) :
  forall (i : nat) (drops drops' : list (list fl)),
    DiverseNetworkVariational.update_saliency_observations m i sals drops = OK drops' ->
    length drops' = length drops
    /\ (forall k, (k < i)%nat -> nth_error drops' k = nth_error drops k)
    /\ forall j sal,
         nth_error sals j = Some sal ->
         if any sal
         then exists d, DiverseNetworkVariational.saliency_drop m sal = OK d
                        /\ nth_error drops' (i + j) = Some d
         else nth_error drops' (i + j) = nth_error drops (i + j).
Proof.
  induction sals as [|sal sals IH]; intros i drops drops' H.
  - inversion H; subst. repeat split; auto. intros [|j] sal Hs; discriminate.
  - cbn [DiverseNetworkVariational.update_saliency_observations] in H.
    destruct (any sal) eqn:Hany.
    + inv_bind H. inv_bind H.
      destruct (list_set_inv _ _ _ _ E0) as (Hi & Hlen & Hnth & Hother).
      destruct (IH _ _ _ H) as (Hlen' & Hkeep & Hall).
      split; [congruence |]. split.
      * intros k Hk. rewrite Hkeep by lia. apply Hother. lia.
      * intros [|j] s Hs; simpl in Hs.
        -- inversion Hs; subst s. rewrite Hany. exists x.
           split; [exact E |]. rewrite Nat.add_0_r, Hkeep by lia. exact Hnth.
        -- specialize (Hall j s Hs). rewrite Nat.add_succ_r.
           change (S i + j)%nat with (S (i + j)) in Hall.
           destruct (any s); [exact Hall |].
           rewrite Hall. apply Hother. lia.
    + destruct (IH _ _ _ H) as (Hlen' & Hkeep & Hall).
      split; [exact Hlen' |]. split.
      * intros k Hk. apply Hkeep. lia.
      * intros [|j] s Hs; simpl in Hs.
        -- inversion Hs; subst s. rewrite Hany. rewrite Nat.add_0_r. apply Hkeep. lia.
        -- specialize (Hall j s Hs). rewrite Nat.add_succ_r. exact Hall.
Qed.

Lemma fold_fmin_repeat (x : fl) (n : nat) :
  fmin x x = x -> fold_left fmin (repeat x n) x = x.
Proof. intros H. induction n as [|n IH]; simpl; [reflexivity | now rewrite H]. Qed.

Lemma fold_fmax_repeat (x : fl) (n : nat) :
  fmax x x = x -> fold_left fmax (repeat x n) x = x.
Proof. intros H. induction n as [|n IH]; simpl; [reflexivity | now rewrite H]. Qed.

(** The rescaling of a tensor whose channels are all equal divides zero by
    zero. *)

Lemma saliency_drop_constant (m : fl) (c : R) (n : nat) :
  (0 < n)%nat ->
  DiverseNetworkVariational.saliency_drop m (repeat (Fin c) n) = OK (repeat NaN n).
Proof.
  intros Hn. destruct n as [|n]; [lia |].
  unfold DiverseNetworkVariational.saliency_drop.
  cbn [repeat min_all bind].
  rewrite fold_fmin_repeat
    by (cbn; f_equal; unfold Rmin; destruct (Rle_dec c c); reflexivity).
  change (Fin c :: repeat (Fin c) n) with (repeat (Fin c) (S n)).
  rewrite map_repeat. cbn [repeat max_all bind].
  rewrite fold_fmax_repeat
    by (cbn; f_equal; unfold Rmax; destruct (Rle_dec (c + - c) (c + - c)); reflexivity).
  change (fsub (Fin c) (Fin c) :: repeat (fsub (Fin c) (Fin c)) n)
    with (repeat (fsub (Fin c) (Fin c)) (S n)).
  rewrite !map_repeat. do 2 f_equal.
  cbn [fsub fneg fadd fdiv].
  destruct (Req_dec_T (c + - c) 0) as [_|Hne]; [| exfalso; apply Hne; lra].
  unfold by_sign.
  destruct (Rlt_dec 0 (c + - c)); [lra |]. destruct (Rlt_dec (c + - c) 0); [lra |].
  reflexivity.
Qed.

Lemma any_constant (c : R) (n : nat) :
  c <> 0 -> (0 < n)%nat -> any (repeat (Fin c) n) = true.
Proof.
  intros Hc Hn. destruct n as [|n]; [lia |].
  unfold any. cbn [repeat existsb nonzero].
  destruct (Req_dec_T c 0); [contradiction | reflexivity].
Qed.

(** X4.  A saliency tensor whose channels all have the same value, other
    than zero, makes every drop rate of its tensor NaN: the rescaling
    divides by the greatest shifted saliency, which is zero. *)

Theorem update_saliency_constant_gives_nan :
  forall (self self' : DiverseNetworkVariational.t) (sal_obs : list (list fl))
         (sal_act : list fl),
    DiverseNetworkVariational.update_saliency self sal_obs sal_act = OK self' ->
    (forall (c : R) (n : nat),
        c <> 0 -> (0 < n)%nat -> sal_act = repeat (Fin c) n ->
        DiverseNetworkVariational.cont_actions_sal_drop self' = repeat NaN n)
    /\ (forall (j : nat) (c : R) (n : nat),
           c <> 0 -> (0 < n)%nat ->
           nth_error (drop_index (DiverseNetworkVariational._diverse_index self) 0 sal_obs) j
           = Some (repeat (Fin c) n) ->
           nth_error (DiverseNetworkVariational.observations_sal_drop self') j
           = Some (repeat NaN n)).
Proof.
  intros self self' sal_obs sal_act H.
  unfold DiverseNetworkVariational.update_saliency in H. cbv zeta in H.
  inv_bind H. inv_bind H. inversion H; subst self'; clear H.
  cbn [DiverseNetworkVariational.with_sal_drop
       DiverseNetworkVariational.cont_actions_sal_drop
       DiverseNetworkVariational.observations_sal_drop].
  split.
  - intros c n Hc Hn ->. rewrite any_constant in E0 by assumption.
    rewrite saliency_drop_constant in E0 by exact Hn. now inversion E0.
  - intros j c n Hc Hn Hj.
    destruct (update_saliency_observations_nth _ _ _ _ _ E) as (_ & _ & Hall).
    specialize (Hall j _ Hj). rewrite any_constant in Hall by assumption.
    destruct Hall as (d & Hd & Hnth).
    rewrite saliency_drop_constant in Hd by exact Hn. inversion Hd; subst d.
    exact Hnth.
Qed.

(** The rates after the rescaling of a tensor of reals with two different
    values lie between zero and the configured maximum. *)

Lemma saliency_drop_range (maxd : R) (sal : list R) :
  0 <= maxd -> spread sal ->
  exists drop,
    DiverseNetworkVariational.saliency_drop (Fin maxd) (map Fin sal) = OK drop
    /\ Forall (fun d => exists r, d = Fin r /\ 0 <= r <= maxd) drop.
Proof.
  intros Hmax Hsp.
  destruct (saliency_drop_real maxd sal Hsp) as (m & h & Hh & Hall & _ & _ & Hdrop).
  eexists. split; [exact Hdrop |].
  apply Forall_map. eapply Forall_impl; [| exact Hall].
  intros s [Hlo Hhi]. cbv beta. eexists. split; [reflexivity |].
  assert (Hq : 0 <= (s + - m) / h <= 1).
  { split.
    - apply Rmult_le_pos; [lra |]. left. now apply Rinv_0_lt_compat.
    - apply Rmult_le_reg_r with h; [exact Hh |]. unfold Rdiv.
      rewrite Rmult_assoc, Rinv_l by lra. lra. }
  split; nra.
Qed.

(** X5.  For a maximum that is not negative, the rescaling of a saliency
    tensor of reals with two different values leaves drop rates between
    zero and the configured maximum, in the tensor of the continuous
    actions and in that of every observation. *)

Theorem update_saliency_rates_in_range :
  forall (self self' : DiverseNetworkVariational.t) (maxd : R)
         (sal_obs : list (list R)) (sal_act : list R),
    0 <= maxd ->
    DiverseNetworkVariational._max_saliency_dropout self = Fin maxd ->
    DiverseNetworkVariational.update_saliency self (map (map Fin) sal_obs)
                                              (map Fin sal_act) = OK self' ->
    (spread sal_act ->
     Forall (fun d => exists r, d = Fin r /\ 0 <= r <= maxd)
            (DiverseNetworkVariational.cont_actions_sal_drop self'))
    /\ (forall j sal,
           nth_error (drop_index (DiverseNetworkVariational._diverse_index self) 0 sal_obs)
                     j = Some sal ->
           spread sal ->
           exists drop,
             nth_error (DiverseNetworkVariational.observations_sal_drop self') j
             = Some drop
             /\ Forall (fun d => exists r, d = Fin r /\ 0 <= r <= maxd) drop).
Proof.
  intros self self' maxd sal_obs sal_act Hmax Hcfg H.
  unfold DiverseNetworkVariational.update_saliency in H. cbv zeta in H.
  rewrite Hcfg, drop_index_map in H.
  inv_bind H. inv_bind H. inversion H; subst self'; clear H.
  cbn [DiverseNetworkVariational.with_sal_drop
       DiverseNetworkVariational.cont_actions_sal_drop
       DiverseNetworkVariational.observations_sal_drop].
  split.
  - intros Hsp. rewrite (any_spread _ Hsp) in E0.
    destruct (saliency_drop_range maxd sal_act Hmax Hsp) as (d & Hd & Hr).
    rewrite Hd in E0. now inversion E0; subst.
  - intros j sal Hj Hsp.
    destruct (update_saliency_observations_nth _ _ _ _ _ E) as (_ & _ & Hall).
    specialize (Hall j (map Fin sal)). rewrite nth_error_map, Hj in Hall.
    specialize (Hall eq_refl). rewrite (any_spread _ Hsp) in Hall.
    destruct Hall as (d & Hd & Hnth).
    destruct (saliency_drop_range maxd sal Hmax Hsp) as (d' & Hd' & Hr).
    rewrite Hd' in Hd. inversion Hd; subst d'. exists d. auto.
Qed.

Lemma spread_affine (a b : R) (sal : list R) :
  a <> 0 -> spread sal -> spread (map (fun s => a * s + b) sal).
Proof.
  intros Ha (x & y & Hx & Hy & Hxy).
  exists (a * x + b), (a * y + b).
  split; [now apply (in_map (fun s => a * s + b)) |].
  split; [now apply (in_map (fun s => a * s + b)) |].
  intros H. apply Hxy. apply Rmult_eq_reg_l with a; [lra | exact Ha].
Qed.

(** The rescaling of a tensor of reals sees the saliencies only relative
    to each other. *)

Lemma saliency_drop_affine (maxd a b : R) (sal : list R) :
  0 < a -> spread sal ->
  DiverseNetworkVariational.saliency_drop (Fin maxd)
    (map Fin (map (fun s => a * s + b) sal))
  = DiverseNetworkVariational.saliency_drop (Fin maxd) (map Fin sal).
Proof.
  intros Ha Hsp.
  destruct (saliency_drop_real maxd sal Hsp) as (m & h & Hh & Hall & Hm & HM & ->).
  destruct (saliency_drop_real maxd _ (spread_affine a b sal ltac:(lra) Hsp))
    as (m' & h' & Hh' & Hall' & Hm' & HM' & ->).
  rewrite Forall_forall in Hall, Hall'.
  apply in_map_iff in Hm'. destruct Hm' as (s1 & Hs1 & Hin1).
  apply in_map_iff in HM'. destruct HM' as (s2 & Hs2 & Hin2).
  assert (Em : m' = a * m + b).
  { pose proof (Hall' (a * m + b) (in_map (fun s => a * s + b) _ _ Hm)).
    pose proof (Hall s1 Hin1). nra. }
  assert (Eh : h' = a * h).
  { pose proof (Hall' (a * (m + h) + b) (in_map (fun s => a * s + b) _ _ HM)).
    pose proof (Hall s2 Hin2). nra. }
  subst m' h'. f_equal. rewrite map_map. apply map_ext. intros s.
  assert (Es : s1 = m) by (apply Rmult_eq_reg_l with a; lra).
  rewrite Es. f_equal. field. split; lra.
Qed.

(** X6.  For saliencies of the continuous actions that are reals with two
    different values, and a configured maximum that is a number, the drop
    rates depend on the saliencies only relative to each other: scaling
    them by a positive factor and shifting them changes nothing.  (A
    constant tensor is another matter: shifted to zero it is skipped,
    shifted elsewhere it gives NaN.) *)

Theorem update_saliency_affine_invariant :
  forall (self : DiverseNetworkVariational.t) (maxd a b : R)
         (sal_obs : list (list fl)) (sal_act : list R),
    0 < a -> spread sal_act ->
    DiverseNetworkVariational._max_saliency_dropout self = Fin maxd ->
    DiverseNetworkVariational.update_saliency
      self sal_obs (map Fin (map (fun s => a * s + b) sal_act))
    = DiverseNetworkVariational.update_saliency self sal_obs (map Fin sal_act).
Proof.
  intros self maxd a b sal_obs sal_act Ha Hsp Hcfg.
  unfold DiverseNetworkVariational.update_saliency. cbv zeta.
  rewrite Hcfg.
  rewrite (any_spread _ Hsp), (any_spread _ (spread_affine a b _ ltac:(lra) Hsp)).
  now rewrite saliency_drop_affine.
Qed.

Lemma drop_index_agree {A : Type} (skip : Z) (xs : list A) :
  forall (i : nat) (ys : list A),
    length xs = length ys ->
    (forall j, Z.of_nat (i + j) <> skip -> nth_error xs j = nth_error ys j) ->
    drop_index skip i xs = drop_index skip i ys.
Proof.
  induction xs as [|x xs IH]; intros i [|y ys] Hlen Hagree; simpl in Hlen;
    try discriminate; [reflexivity |].
  cbn [drop_index].
  assert (Htl : drop_index skip (S i) xs = drop_index skip (S i) ys).
  { apply IH; [lia |]. intros j Hj. apply (Hagree (S j)).
    now rewrite Nat.add_succ_r. }
  destruct (Z.eqb_spec (Z.of_nat i) skip) as [_|Hne]; [exact Htl |].
  specialize (Hagree 0%nat). rewrite Nat.add_0_r in Hagree.
  specialize (Hagree Hne). simpl in Hagree. inversion Hagree. now rewrite Htl.
Qed.

(** X7.  The saliency of the goal signal is never used: two lists of
    saliencies that differ only at [_diverse_index] give the same
    discriminator. *)

Theorem update_saliency_ignores_goal_signal :
  forall (self : DiverseNetworkVariational.t) (sal_obs sal_obs' : list (list fl))
         (sal_act : list fl),
    length sal_obs = length sal_obs' ->
    (forall j, Z.of_nat j <> DiverseNetworkVariational._diverse_index self ->
               nth_error sal_obs j = nth_error sal_obs' j) ->
    DiverseNetworkVariational.update_saliency self sal_obs sal_act
    = DiverseNetworkVariational.update_saliency self sal_obs' sal_act.
Proof.
  intros self sal_obs sal_obs' sal_act Hlen Hagree.
  unfold DiverseNetworkVariational.update_saliency. cbv zeta.
  now rewrite (drop_index_agree _ sal_obs 0 sal_obs' Hlen Hagree).
Qed.

(** ** The reward of the discriminator, further *)

Lemma mop_fmul_nonneg (P truth products : list (list fl)) :
  mop fmul P truth = OK products ->
  Forall (Forall (fun x => exists r, x = Fin r /\ 0 <= r)) P ->
  Forall (Forall (fun x => exists r, x = Fin r /\ 0 <= r)) truth ->
  Forall (Forall (fun x => exists r, x = Fin r /\ 0 <= r)) products.
Proof.
  intros H HP HT. unfold mop in H. apply broadcast_inv in H.
  rewrite Forall_forall in HP, HT.
  eapply Forall_impl; [| exact H].
  intros q (p & t & Hp & Ht & Hq). unfold vop in Hq. apply broadcast_inv in Hq.
  specialize (HP p Hp). specialize (HT t Ht). rewrite Forall_forall in HP, HT.
  eapply Forall_impl; [| exact Hq].
  intros z (x & y & Hx & Hy & Hz).
  destruct (HP x Hx) as (a & -> & Ha). destruct (HT y Hy) as (b & -> & Hb).
  inversion Hz. exists (a * b). split; [reflexivity | now apply Rmult_le_pos].
Qed.

(** X8.  Without discrete actions, a prediction and a goal signal whose
    elements are numbers that are not negative give rewards that are
    numbers, never less than [ln EPSILON]: the constant keeps the logarithm
    away from minus infinity, also when the reward is centered. *)

Theorem mede_reward_is_bounded_below :
  forall (G : Type) predict dropout self mode (g : G) obs act lp det noise
         truth P mu g1 r g2,
    (DiverseNetworkVariational._use_actions self
     && (0 <? length (DiverseNetworkVariational.disc_sizes self))%nat) = false ->
    py_index obs (DiverseNetworkVariational._diverse_index self) = OK truth ->
    predict self mode g obs act det noise = OK (P, mu, g1) ->
    Forall (Forall (fun x => exists v, x = Fin v /\ 0 <= v)) (data P) ->
    Forall (Forall (fun x => exists v, x = Fin v /\ 0 <= v)) truth ->
    DiverseNetworkVariational.rewards G predict dropout self mode g obs act lp det noise
    = OK (r, g2) ->
    Forall (fun x => exists v, x = Fin v /\ ln 1e-7 <= v) (data r).
Proof.
  intros G predict dropout self mode g obs act lp det noise truth P mu g1 r g2
         Hpath Htruth Hpred HP HT H.
  unfold DiverseNetworkVariational.rewards in H.
  rewrite Htruth in H. cbn [bind] in H. rewrite Hpred in H. cbn [bind] in H.
  rewrite Hpath in H. inv_bind H. destruct x as [r0 g0]. inv_bind E.
  inversion E; subst r0 g0; clear E.
  unfold op2e in E0. inv_bind E0. inversion E0; subst x; clear E0.
  cbn [data constant] in E.
  pose proof (mop_fmul_nonneg _ _ _ E HP HT) as Hprod.
  assert (Hplain : Forall (fun v => exists w, v = Fin w /\ ln 1e-7 <= w)
                          (map (fun v => fln (fadd v DiverseNetworkVariational.EPSILON))
                               (sum_dim1 x0))).
  { unfold sum_dim1. rewrite map_map. apply Forall_map.
    eapply Forall_impl; [| exact Hprod]. intros q Hq. cbv beta.
    destruct (fsum_nonneg q Hq) as (s & -> & Hs).
    unfold DiverseNetworkVariational.EPSILON. cbn [fadd].
    rewrite fln_pos by lra. eexists. split; [reflexivity |].
    apply ln_monotone; lra. }
  destruct (DiverseNetworkVariational.centered_reward self).
  - destruct (Nat.eqb_spec (DiverseNetworkVariational.diverse_size self) 0) as [|Hn];
      [discriminate |].
    inversion H; subst r g2; clear H. unfold op1. cbn [data].
    apply Forall_map. eapply Forall_impl; [| exact Hplain].
    intros v (w & -> & Hw). cbv beta. unfold of_nat.
    assert (0 < INR (DiverseNetworkVariational.diverse_size self)).
    { apply lt_0_INR. lia. }
    destruct (Req_dec_T (INR (DiverseNetworkVariational.diverse_size self)) 0);
      [lra |].
    rewrite fln_pos by (apply Rdiv_lt_0_compat; lra).
    eexists. split; [reflexivity |].
    pose proof (ln_inv_nat _ Hn). lra.
  - inversion H; subst r g2; clear H. exact Hplain.
Qed.

(** ** The losses, further *)

Section Losses.

Context {C : Collaborators}.

Import TorchSACOptimizer.

(** X9.  The Q loss is computed only when there is a stream, and when
    every stream of the first Q head has an output of the second head, a
    target value, a reward and a mask for terminal states under its name
    and a discount at its position; otherwise [sac_q_loss] raises. *)

Theorem q_loss_needs_every_stream :
  forall (self : t) (q1_out q2_out : Dict.t (Tensor tensor))
         (target_values : Dict.t (Tensor (list fl))) (dones : Tensor (list fl))
         (rewards : Dict.t (Tensor (list fl))) (loss_masks : list bool)
         (losses : Tensor fl * Tensor fl),
    sac_q_loss self q1_out q2_out target_values dones rewards loss_masks = OK losses ->
    Dict.keys q1_out <> []
    /\ (length (Dict.keys q1_out) <= length (gammas self))%nat
    /\ Forall (fun name =>
                 In name (Dict.keys q2_out)
                 /\ In name (Dict.keys target_values)
                 /\ In name (Dict.keys rewards)
                 /\ In name (Dict.keys (use_dones_in_backup self)))
              (Dict.keys q1_out).
Proof.
  intros self q1_out q2_out target_values dones rewards loss_masks losses H.
  unfold sac_q_loss in H. inv_bind H. inv_bind H.
  destruct (map_enum_e_inv _ _ _ _ E) as (Hlen & Hall).
  assert (Hstream : forall j name,
             nth_error (Dict.keys q1_out) j = Some name ->
             (j < length (gammas self))%nat
             /\ In name (Dict.keys q2_out) /\ In name (Dict.keys target_values)
             /\ In name (Dict.keys rewards)
             /\ In name (Dict.keys (use_dones_in_backup self))).
  { intros j name Hj. destruct (Hall j name Hj) as (y & Hy & _).
    unfold q_stream_losses in Hy. invert_binds Hy.
    match goal with
    | Hb : q_backup _ _ _ _ _ _ = OK _ |- _ => unfold q_backup, list_get in Hb; invert_binds Hb
    end.
    destruct (nth_error (gammas self) (0 + j)) eqn:Hg; [| discriminate].
    split; [apply nth_error_Some; simpl in Hg; congruence |].
    repeat split; eapply dict_get_keys; eassumption. }
  split; [| split].
  - intros Hnil. destruct x as [|l x]; [discriminate |].
    rewrite Hnil in Hlen. discriminate.
  - destruct (Dict.keys q1_out) as [|name names] eqn:Hk; [simpl; lia |].
    assert (Hlast : exists name', nth_error (name :: names) (length names) = Some name').
    { destruct (nth_error (name :: names) (length names)) eqn:Hn; [eauto |].
      apply nth_error_None in Hn. simpl in Hn. lia. }
    destruct Hlast as (name' & Hn). destruct (Hstream _ _ Hn) as (Hlt & _).
    simpl. lia.
  - apply Forall_forall. intros name Hin.
    destruct (In_nth_error _ _ Hin) as (j & Hj).
    destruct (Hstream j name Hj) as (_ & H'). exact H'.
Qed.

(** X10.  The entropy loss stays the integer 0 of its first statement
    exactly for an action spec without discrete branches and without
    continuous actions, and an update of such an optimizer does not
    return: the integer has no [backward]. *)

Theorem entropy_loss_needs_actions :
  forall (self : t) (log_probs : ActionLogProbs.t) (loss_masks : list bool),
    (sac_entropy_loss self log_probs loss_masks = OK None
     <-> continuous_size (_action_spec self) = 0%nat
         /\ discrete_size (_action_spec self) = 0%nat)
    /\ (continuous_size (_action_spec self) = 0%nat ->
        discrete_size (_action_spec self) = 0%nat ->
        forall g batch n r, update self g batch n <> OK r).
Proof.
  intros self log_probs loss_masks. split; [split |].
  - unfold sac_entropy_loss. intros H.
    destruct (continuous_size (_action_spec self)) as [|c].
    + split; [reflexivity |].
      destruct (discrete_size (_action_spec self)) as [|d]; [reflexivity |].
      cbn [Nat.ltb Nat.leb] in H. invert_binds H. inversion H; subst.
      invert_binds E. discriminate.
    + exfalso. cbn [Nat.ltb Nat.leb] in H. invert_binds H. discriminate.
  - intros [Hc Hd]. unfold sac_entropy_loss. rewrite Hc, Hd. reflexivity.
  - intros Hc Hd g batch n [[[self' stats] trace] g'] Hupd.
    apply update_inv in Hupd.
    destruct Hupd as (fw & ? & ? & ? & ? & el & ? & ? & ? & ? & ? & _ & _ & _ & _
                      & He & _).
    unfold sac_entropy_loss in He. rewrite Hc, Hd in He. discriminate.
Qed.

Lemma half_masked_mse_grad (input target : Tensor (list fl)) (masks : list bool)
      (l : Tensor fl) :
  half_masked_mse input target masks = OK l ->
  requires_grad l = requires_grad input || requires_grad target.
Proof.
  unfold half_masked_mse. intros H. inv_bind H. inv_bind H.
  inversion H; subst l; clear H.
  unfold op2e in E. inv_bind E. inversion E; subst x; clear E.
  unfold op1e in E0. inv_bind E0. inversion E0; subst x0; clear E0.
  reflexivity.
Qed.

Lemma v_backup_continuous_grad self lp coef q mede v :
  v_backup_continuous self lp coef q mede = OK v -> requires_grad v = false.
Proof.
  unfold v_backup_continuous. intros H. inv_bind H.
  unfold op2e in H. inv_bind H. inversion H; subst. reflexivity.
Qed.

Lemma v_backup_discrete_grad self lp coef bonus q mede v :
  v_backup_discrete self lp coef bonus q mede = OK v -> requires_grad v = false.
Proof.
  unfold v_backup_discrete. intros H. inv_bind H. inv_bind H.
  destruct (0 <? continuous_size (_action_spec self))%nat.
  - unfold op2e in H. inv_bind H. inversion H; subst. reflexivity.
  - inversion H; subst v; clear H.
    unfold op2e in E0. inv_bind E0. inversion E0; subst. reflexivity.
Qed.

Lemma assembled_value_loss_grad :
  forall (self : t) (log_probs : ActionLogProbs.t)
         (values : Dict.t (Tensor (list fl))) (q1p_out q2p_out : Dict.t (Tensor tensor))
         (loss_masks : list bool) (mede_rewards : Tensor (list fl))
         (value_loss : Tensor fl),
    NoDup (Dict.keys values) ->
    assembled_value_loss self log_probs values q1p_out q2p_out loss_masks mede_rewards
    = OK value_loss ->
    requires_grad value_loss = existsb (fun kv => requires_grad (snd kv)) values.
Proof.
  intros self lp values q1p q2p masks mede value_loss Hnd H.
  unfold assembled_value_loss in H. cbv zeta in H. inv_bind H. inv_bind H.
  unfold opn in H. inv_bind H. inversion H; subst value_loss; clear H.
  cbn [requires_grad andb].
  assert (Hlosses : Forall2 (fun name loss =>
                               exists v, Dict.get values name = OK v
                                         /\ requires_grad loss = requires_grad v)
                            (Dict.keys values) x0).
  { destruct (discrete_size (_action_spec self) <=? 0)%nat.
    - apply map_e_inv in E0. eapply Forall2_impl; [| exact E0].
      intros name loss Hl. cbv beta in Hl. invert_binds Hl.
      match goal with
      | Hv : v_backup_continuous _ _ _ _ _ = OK _ |- _ =>
          apply v_backup_continuous_grad in Hv; rename Hv into Hg
      end.
      apply half_masked_mse_grad in Hl. rewrite Hg, orb_false_r in Hl. eauto.
    - inv_bind E0. apply map_e_inv in E0. eapply Forall2_impl; [| exact E0].
      intros name loss Hl. cbv beta in Hl. invert_binds Hl.
      match goal with
      | Hv : v_backup_discrete _ _ _ _ _ _ = OK _ |- _ =>
          apply v_backup_discrete_grad in Hv; rename Hv into Hg
      end.
      apply half_masked_mse_grad in Hl. rewrite Hg, orb_false_r in Hl. eauto. }
  symmetry. apply existsb_Forall2.
  assert (Hent : forall kv, In kv values -> Dict.get values (fst kv) = OK (snd kv)).
  { intros [k v] Hin. now apply dict_get_entry. }
  unfold Dict.keys in Hlosses.
  eapply Forall2_map_l_In; [| exact Hlosses].
  intros kv loss Hin (v & Hv & Hg). rewrite (Hent kv Hin) in Hv.
  inversion Hv; subst v. now rewrite Hg.
Qed.

(** X11.  The value loss carries gradients only into the value estimates:
    the backup is computed without gradients, so the loss requires
    gradients exactly when the value estimate of some stream does. *)

Theorem value_loss_gradient_reaches_values_only :
  forall (self : t) (log_probs : ActionLogProbs.t)
         (values : Dict.t (Tensor (list fl))) (q1p_out q2p_out : Dict.t (Tensor tensor))
         (loss_masks : list bool) (mede_rewards : Tensor (list fl))
         (value_loss : Tensor fl),
    NoDup (Dict.keys values) ->
    sac_value_loss self log_probs values q1p_out q2p_out loss_masks mede_rewards
    = OK value_loss ->
    requires_grad value_loss = existsb (fun kv => requires_grad (snd kv)) values.
Proof.
  intros self lp values q1p q2p masks mede value_loss Hnd H.
  unfold sac_value_loss in H. inv_bind H.
  destruct (isinf (data x) || isnan (data x)); [discriminate |].
  inversion H; subst x; clear H.
  now apply assembled_value_loss_grad with self lp q1p q2p masks mede.
Qed.

End Losses.

(** X12.  The total loss of the discriminator: without noise it is the
    base loss; with noise it is the base loss plus the KL penalty weighted
    by beta as it was before this call replaced it. *)

Theorem discriminator_total_loss :
  forall (G : Type) predict dropout mm self mode (g : G) obs act lp masks det noise
         self' losses g',
    DiverseNetworkVariational.loss G predict dropout mm self mode g obs act lp masks
                                   det noise = OK (self', losses, g') ->
    match DiverseNetworkVariational._z_sigma self with
    | None =>
        DiverseNetworkVariational.total_loss losses
        = DiverseNetworkVariational.base_loss losses
        /\ DiverseNetworkVariational.vail_loss losses = None
    | Some _ =>
        exists beta kl vail,
          DiverseNetworkVariational._beta self = Some beta
          /\ DiverseNetworkVariational.kl_loss losses = Some kl
          /\ DiverseNetworkVariational.vail_loss losses = Some vail
          /\ data vail
             = fmul (data beta)
                    (fsub (data kl) (DiverseNetworkVariational.mutual_information self))
          /\ data (DiverseNetworkVariational.total_loss losses)
             = fadd (data (DiverseNetworkVariational.base_loss losses)) (data vail)
    end.
Proof.
  intros G predict dropout mm self mode g obs act lp masks det noise self' losses g' H.
  unfold DiverseNetworkVariational.loss in H.
  inv_bind H. destruct x as [r g1]. inv_bind H.
  destruct (DiverseNetworkVariational._z_sigma self) as [z|].
  - inv_bind H. destruct x0 as [[p mu] g2]. inv_bind H. inv_bind H.
    destruct (DiverseNetworkVariational._beta self) as [beta|]; [| discriminate].
    inversion H; subst; clear H.
    exists beta, x1. eexists. repeat split; reflexivity.
  - inversion H; subst. split; reflexivity.
Qed.

Section Condensing.

Context {C : Collaborators}.

Import TorchSACOptimizer.

(** X13.  Condensing keeps the streams: the result has the names of the Q
    output in their order; every stream had an output with one column for
    each action and has one value for each sample afterwards, requiring
    gradients exactly when the output did. *)

Theorem condense_keeps_streams :
  forall (self : t) (q_output condensed_q_output : Dict.t (Tensor tensor))
         (discrete_actions : LongTensor),
    _condense_q_streams self q_output discrete_actions = OK condensed_q_output ->
    Dict.keys condensed_q_output = Dict.keys q_output
    /\ Forall2 (fun item condensed_item =>
                  requires_grad (snd condensed_item) = requires_grad (snd item)
                  /\ (exists m, data (snd item) = Mat m)
                  /\ exists v, data (snd condensed_item) = Vec v)
               q_output condensed_q_output.
Proof.
  intros self q_output c actions H. unfold _condense_q_streams in H.
  inv_bind H. apply map_e_inv in H.
  induction H as [|kv kv' q c' Hkv _ IH]; [split; constructor |].
  destruct IH as (Hkeys & Hall).
  inv_bind Hkv. inversion Hkv; subst kv'; clear Hkv.
  unfold condense, op1e in E0. inv_bind E0. inversion E0; subst x0; clear E0.
  inv_bind E1. inv_bind E1. inv_bind E1. inversion E1; subst x1; clear E1.
  split; [simpl; f_equal; exact Hkeys |].
  constructor; [| exact Hall]. cbn [snd data requires_grad andb].
  split; [reflexivity |]. split; [| eauto].
  destruct (data (snd kv)); [discriminate | eauto].
Qed.

End Condensing.

(** ** The saliency of the optimizer *)

(** X14.  The smoothing of a saliency tensor by the mean absolute
    gradient of a batch: for a weight between 0 and 1 and real gradients of
    the shape of the tensor, every channel stays a number and keeps at
    least the share [1 - sal_weight] of its value, so a saliency that is
    not negative stays so. *)

Theorem smoothed_saliency_decays_slowly :
  forall (w : R) (input_grad : list (list R)) (sal : list R) (smoothed : list fl),
    0 <= w <= 1 ->
    input_grad <> [] ->
    Forall (fun row => length row = length sal) input_grad ->
    TorchSACOptimizer.smooth_saliency (Fin w) (map (map Fin) input_grad) (map Fin sal)
    = OK smoothed ->
    Forall2 (fun x s => exists v, x = Fin v /\ (1 - w) * s <= v) smoothed sal.
Proof.
  intros w G S r Hw Hne Hrows H.
  unfold TorchSACOptimizer.smooth_saliency in H. cbv zeta in H.
  destruct (Nat.eqb_spec
              (length (mean_dim0 (map (map fabs) (map (map Fin) G))))
              (length (map Fin S))) as [Hlen|]; [| discriminate].
  inversion H; subst r; clear H.
  set (grad := mean_dim0 (map (map fabs) (map (map Fin) G))) in *.
  assert (Hgrad : Forall (fun x => exists m, x = Fin m /\ 0 <= m) grad).
  { subst grad. destruct G as [|row0 G']; [congruence |].
    remember (row0 :: G') as G eqn:HG.
    assert (Hfirst : mean_dim0 (map (map fabs) (map (map Fin) G))
                     = map (fun j => fmean (map (fun u => nth j u NaN)
                                                (map (map fabs) (map (map Fin) G))))
                           (seq 0 (length row0))).
    { subst G. cbn [map mean_dim0]. rewrite !length_map. reflexivity. }
    rewrite Hfirst. apply Forall_map. apply Forall_forall.
    intros j Hj. apply in_seq in Hj.
    apply fmean_nonneg; [subst G; discriminate |].
    rewrite !map_map. apply Forall_map. apply Forall_forall.
    intros row Hrow. rewrite Forall_forall in Hrows.
    pose proof (Hrows row Hrow) as Hr.
    pose proof (Hrows row0 ltac:(subst G; now left)) as H0.
    rewrite map_map.
    rewrite (nth_indep _ NaN (fabs (Fin 0))) by (rewrite length_map; lia).
    rewrite (map_nth (fun x => fabs (Fin x))). cbn [fabs].
    eexists. split; [reflexivity | apply Rabs_pos]. }
  rewrite length_map in Hlen. clearbody grad. clear Hne Hrows.
  revert grad Hlen Hgrad. induction S as [|s S IH]; intros [|x grad] Hlen Hgrad;
    simpl in Hlen; try discriminate; [constructor |].
  inversion Hgrad as [|? ? (m & -> & Hm) Hgrad']; subst.
  cbn [map combine fst snd]. constructor; [| apply IH; [lia | exact Hgrad']].
  cbn. eexists. split; [reflexivity |]. nra.
Qed.

(** ** The construction and the update of the optimizer, further *)

Section Construction.

Context {C : Collaborators}.

Import TorchSACOptimizer.

(** X15.  For a policy that does not share its critic, the optimizer is
    built whenever MEDE is off; with MEDE on it is built exactly when the
    discriminator can be, and the constructor raises what the constructor
    of the discriminator raises. *)

Theorem optimizer_construction :
  forall (g : RNG) (policy0 : TorchPolicy) (params : TrainerSettings.t),
    shared_critic policy0 = false ->
    if SACSettings.mede (TrainerSettings.hyperparameters params)
    then match DiverseNetworkVariational.__init__
                 mede_hidden_units (behavior_spec policy0)
                 (TrainerSettings.hyperparameters params) with
         | OK network =>
             exists self g', __init__ g policy0 params = OK (self, g')
                             /\ _mede_network self = Some network
         | Raise e => __init__ g policy0 params = Raise e
         end
    else exists self g', __init__ g policy0 params = OK (self, g')
                         /\ _mede_network self = None.
Proof.
  intros g policy0 params Hs. unfold __init__. rewrite Hs. cbv zeta.
  destruct (new_value_network g _ _) as [critic g1].
  destruct (map_e_succeeds
              (fun name =>
                 provider <- Dict.get (create_reward_signals
                                         (TrainerSettings.reward_signals params)) name ;;
                 OK (name, if ignore_done provider then 0%Z else 1%Z))
              (Dict.keys (create_reward_signals (TrainerSettings.reward_signals params))))
    as (dones & Hdones).
  { intros name Hin. destruct (dict_get_of_key _ _ Hin) as (p & Hp).
    rewrite Hp. cbn [bind]. eauto. }
  rewrite Hdones. cbn [bind].
  destruct (new_q_network g1 _ _ _) as [q g2].
  destruct (new_value_network g2 _ _) as [target g3].
  destruct (SACSettings.mede (TrainerSettings.hyperparameters params)).
  - destruct (DiverseNetworkVariational.__init__ _ _ _) as [network|e];
      cbn [bind]; [| reflexivity].
    destruct (new_mede_weights g3 _ _) as [w g4].
    do 2 eexists. split; reflexivity.
  - cbn [bind]. do 2 eexists. split; reflexivity.
Qed.

(** X16.  The entropy coefficients start at the configured value: the
    constructor stores its logarithm, once for the continuous actions and
    once for every discrete branch, as parameters that require gradients,
    and the exponential that the losses take gives the value back when it
    is not negative. *)

Theorem initial_entropy_coefficients :
  forall (g : RNG) (policy0 : TorchPolicy) (params : TrainerSettings.t)
         (self : t) (g' : RNG) (a : R),
    __init__ g policy0 params = OK (self, g') ->
    SACSettings.init_entcoef (TrainerSettings.hyperparameters params) = Fin a ->
    0 <= a ->
    fexp (data (LogEntCoef.continuous (_log_ent_coef self))) = Fin a
    /\ map fexp (data (LogEntCoef.discrete (_log_ent_coef self)))
       = repeat (Fin a) (length (discrete_branches (action_spec (behavior_spec policy0))))
    /\ requires_grad (LogEntCoef.continuous (_log_ent_coef self)) = true
    /\ requires_grad (LogEntCoef.discrete (_log_ent_coef self)) = true.
Proof.
  intros g policy0 params self g' a H Ha Hpos. unfold __init__ in H.
  destruct (shared_critic policy0); [discriminate |].
  invert_binds H. inversion H; subst self; clear H.
  cbn [_log_ent_coef LogEntCoef.continuous LogEntCoef.discrete data requires_grad].
  rewrite Ha. split; [now apply fexp_fln |]. split; [| split; reflexivity].
  rewrite !map_repeat. now rewrite fexp_fln.
Qed.

End Construction.

(** Takes a finished update apart, into one goal for each way through it:
    without the discriminator, with it, and with it and the saliency. *)

Ltac update_cases H :=
  unfold TorchSACOptimizer.update in H; invert_binds H;
  match goal with
  | E : match ?x with Some _ => _ | None => Raise AttributeError end = OK ?y |- _ =>
      destruct x as [?entropy_loss|]; [| discriminate];
      invert_binds E; inversion E; subst y; clear E
  end;
  match goal with
  | E : (if TorchSACOptimizer.use_mede ?self then _ else _) = OK _ |- _ =>
      destruct (TorchSACOptimizer.use_mede self) eqn:?Hmede;
      [ repeat match type of E with
               | match ?o with Some _ => _ | None => _ end = OK _ =>
                   destruct o eqn:?; [| discriminate]
               end;
        invert_binds E;
        match goal with
        | E' : (if positive _ then _ else _) = OK _ |- _ =>
            destruct (positive (TorchSACOptimizer.mede_saliency_dropout self)) eqn:?Hsal;
            invert_binds E'; inversion E'; subst; clear E'
        end
      | ];
      inversion E; subst; clear E
  end;
  inversion H; subst; clear H.

Section Updates.

Context {C : Collaborators}.

Import TorchSACOptimizer.

(** X17.  The statistics of an update: the eight entries of the losses,
    the entropy coefficients and the learning rate, followed with MEDE by
    the five entries of the discriminator, under these names and in this
    order. *)

Theorem update_statistics_names :
  forall (self : t) (g : RNG) (batch : AgentBuffer) (n : nat)
         (self' : t) (stats : Dict.t fl) (trace : list Event) (g' : RNG),
    update self g batch n = OK (self', stats, trace, g') ->
    Dict.keys stats
    = ["Losses/Policy Loss"; "Losses/Value Loss"; "Losses/Q1 Loss"; "Losses/Q2 Loss";
       "Policy/Discrete Entropy Coeff"; "Policy/Continuous Entropy Coeff";
       "Policy/Learning Rate"; "Policy/Entropy Loss"]%string
      ++ (if use_mede self
          then ["Policy/MEDE Loss"; "Policy/MEDE Base"; "Policy/MEDE Variational";
                "Policy/MEDE KL"; "Policy/MEDE beta"]%string
          else [])
    /\ Dict.get stats "Policy/Learning Rate"
       = OK (decayed_value (hyperparameters self) (max_steps self)
                           (current_step (policy self))).
Proof.
  intros self g batch n self' stats trace g' H.
  update_cases H; split; reflexivity.
Qed.

(** X18.  What an update leaves alone: the configuration of the optimizer
    (reward signals, hyperparameters, stream names, discounts, masks for
    terminal states, the switches and the strength of MEDE, the saliency
    weight) and, of the policy, everything but the actor. *)

Theorem update_keeps_configuration :
  forall (self : t) (g : RNG) (batch : AgentBuffer) (n : nat)
         (self' : t) (stats : Dict.t fl) (trace : list Event) (g' : RNG),
    update self g batch n = OK (self', stats, trace, g') ->
    reward_signals self' = reward_signals self
    /\ hyperparameters self' = hyperparameters self
    /\ max_steps self' = max_steps self
    /\ stream_names self' = stream_names self
    /\ gammas self' = gammas self
    /\ use_dones_in_backup self' = use_dones_in_backup self
    /\ use_mede self' = use_mede self
    /\ mede_saliency_dropout self' = mede_saliency_dropout self
    /\ mede_strength self' = mede_strength self
    /\ mede_policy_loss self' = mede_policy_loss self
    /\ sal_weight self' = sal_weight self
    /\ behavior_spec (policy self') = behavior_spec (policy self)
    /\ sequence_length (policy self') = sequence_length (policy self)
    /\ current_step (policy self') = current_step (policy self).
Proof.
  intros self g batch n self' stats trace g' H.
  update_cases H; repeat split; reflexivity.
Qed.

Lemma update_forward_weights (self : t) (g : RNG) (batch : AgentBuffer) (fw : Forward) :
  update_forward self g batch = OK fw ->
  use_mede self = false ->
  fw_mede_weights fw = _mede_weights self.
Proof.
  unfold update_forward. intros H Hm. rewrite Hm in H. invert_binds H.
  inversion H; subst fw; clear H. cbn [fw_mede_weights].
  match goal with
  | E : OK _ = OK (_, _, _, _) |- _ => now inversion E
  end.
Qed.

(** X19.  The discriminator, its weights and its optimizer are there
    exactly when MEDE is on: the constructor makes it so and every update
    keeps it so. *)

Theorem discriminator_present_iff_enabled :
  forall self : t,
    constructed self ->
    use_mede self = SACSettings.mede (hyperparameters self)
    /\ if use_mede self
       then (exists network weights optimizer,
                _mede_network self = Some network
                /\ _mede_weights self = Some weights
                /\ _mede_optimizer self = Some optimizer)
       else _mede_network self = None
            /\ _mede_weights self = None
            /\ _mede_optimizer self = None.
Proof.
  induction 1 as [g policy0 params self g' Hinit
                 | self g batch n self' stats trace g' _ IH Hupd].
  - unfold __init__ in Hinit.
    destruct (shared_critic policy0); [discriminate |].
    invert_binds Hinit. inversion Hinit; subst self; clear Hinit.
    cbn [use_mede hyperparameters _mede_network _mede_weights _mede_optimizer].
    split; [reflexivity |].
    destruct (SACSettings.mede (TrainerSettings.hyperparameters params)).
    + match goal with
      | E : bind _ _ = OK ?x |- _ => inv_bind E; inversion E; subst x
      end.
      match goal with
      | P : (let '(w, g) := ?n in _) = (_, _) |- _ =>
          destruct n; inversion P; subst
      end.
      eauto 10.
    + match goal with
      | E : OK None = OK ?x, P : (None, _) = (_, _) |- _ =>
          inversion E; inversion P; subst
      end.
      auto.
  - update_cases Hupd;
      cbn [use_mede hyperparameters _mede_network _mede_weights _mede_optimizer];
      destruct IH as [IH1 IH2]; (split; [exact IH1 |]); eauto 10.
    destruct IH2 as (Hn & Hw & Ho).
    match goal with
    | E : update_forward _ _ _ = OK _ |- _ =>
        apply update_forward_weights in E; [rewrite E | assumption]
    end.
    auto.
Qed.

(** X20.  A policy whose sequence length is zero cannot be updated: once
    the rewards of the batch are read, the stride over the memories is a
    range with step zero, and the update raises [ValueError], whether the
    batch has memories or not. *)

Theorem update_needs_a_sequence_length :
  forall (self : t) (g : RNG) (batch : AgentBuffer) (n : nat),
    sequence_length (policy self) = 0%nat ->
    (forall name, In name (Dict.keys (reward_signals self)) ->
                  exists r, buffer_rewards batch name = OK r) ->
    update self g batch n = Raise ValueError.
Proof.
  intros self g batch n Hseq Hrewards.
  destruct (map_e_succeeds
              (fun name => r <- buffer_rewards batch name ;; OK (name, constant r))
              (Dict.keys (reward_signals self))) as (rewards & Hr).
  { intros name Hin. destruct (Hrewards name Hin) as (r & Hname).
    rewrite Hname. cbn [bind]. eauto. }
  unfold update, update_forward. cbv zeta. rewrite Hr, Hseq. reflexivity.
Qed.

(** X21.  After the soft update, an update with MEDE steps the optimizer
    of the discriminator on its total loss, at the learning rate of the
    other steps, and then refreshes the saliency when the configured
    saliency dropout is positive; without MEDE nothing follows the soft
    update.  The saliency of the optimizer changes only with the refresh,
    and the discriminator only with MEDE. *)


End Updates.

(** ** The reward signals and the modules to save *)

Section RewardSignals.

Context {C : Collaborators}.

Import TorchSACOptimizer.

Variable provider_update :
  RewardProvider -> AgentBuffer -> exc (RewardProvider * Dict.t fl).

Lemma update_reward_signals_loop_inv (minibatches : Dict.t AgentBuffer) :
  forall (providers providers' : Dict.t RewardProvider) (stats stats' : Dict.t fl),
    update_reward_signals_loop provider_update providers minibatches stats
    = OK (providers', stats') ->
    Forall (fun kv => In (fst kv) (Dict.keys providers)) minibatches
    /\ Dict.keys providers' = Dict.keys providers
    /\ forall k, In k (Dict.keys stats') ->
                 In k (Dict.keys stats)
                 \/ exists name buffer provider provider' reported,
                      In (name, buffer) minibatches
                      /\ provider_update provider buffer = OK (provider', reported)
                      /\ In k (Dict.keys reported).
Proof.
  induction minibatches as [|[name buffer] rest IH];
    intros providers providers' stats stats' H; simpl in H.
  - inversion H; subst. repeat split; auto.
  - inv_bind H. inv_bind H. destruct x0 as [provider' reported].
    pose proof (dict_get_keys _ _ _ E) as Hname.
    destruct (IH _ _ _ _ H) as (Hall & Hkeys & Hstats).
    rewrite dict_keys_set_present in Hkeys, Hall by exact Hname.
    split; [constructor; [exact Hname | exact Hall] |]. split; [exact Hkeys |].
    intros k Hk. destruct (Hstats k Hk) as [Hin | (n & b & p & p' & r & Hin & Hp & Hr)].
    + apply dict_keys_update in Hin. destruct Hin as [Hin|Hin]; [now left |].
      right. exists name, buffer, x, provider', reported. simpl. auto.
    + right. exists n, b, p, p', r. simpl. auto.
Qed.

(** X22.  [update_reward_signals] looks every minibatch up by its name:
    a name that is not a reward signal raises [KeyError] with that name.
    When it returns, every minibatch had the name of a reward signal, the
    optimizer is as before but for its reward providers, which still have
    the same names, and every statistic comes from a provider. *)

Theorem update_reward_signals_by_name :
  forall (self : t) (minibatches : Dict.t AgentBuffer) (num_sequences : nat),
    (forall name buffer rest,
        minibatches = (name, buffer) :: rest ->
        ~ In name (Dict.keys (reward_signals self)) ->
        update_reward_signals provider_update self minibatches num_sequences
        = Raise (KeyError name))
    /\ (forall self' stats,
           update_reward_signals provider_update self minibatches num_sequences
           = OK (self', stats) ->
           Forall (fun kv => In (fst kv) (Dict.keys (reward_signals self))) minibatches
           /\ self' = with_reward_signals self (reward_signals self')
           /\ Dict.keys (reward_signals self') = Dict.keys (reward_signals self)
           /\ forall k, In k (Dict.keys stats) ->
                        exists name buffer provider provider' reported,
                          In (name, buffer) minibatches
                          /\ provider_update provider buffer = OK (provider', reported)
                          /\ In k (Dict.keys reported)).
Proof.
  intros self minibatches num_sequences. split.
  - intros name buffer rest -> Hnot. unfold update_reward_signals.
    cbn [update_reward_signals_loop]. now rewrite dict_get_missing.
  - intros self' stats H. unfold update_reward_signals in H.
    inv_bind H. destruct x as [providers stats0].
    inversion H; subst self' stats0; clear H.
    destruct (update_reward_signals_loop_inv _ _ _ _ _ E) as (Hall & Hkeys & Hstats).
    cbn [with_reward_signals reward_signals].
    split; [exact Hall |]. split; [reflexivity |]. split; [exact Hkeys |].
    intros k Hk. destruct (Hstats k Hk) as [[]|H']. exact H'.
Qed.

End RewardSignals.

Section Modules.

Context {C : Collaborators}.

Import TorchSACOptimizer.

Variable ProviderModule : Type.

Variable provider_get_modules : RewardProvider -> Dict.t ProviderModule.

Lemma fold_provider_modules (k : string) (providers : list RewardProvider) :
  forall modules : Dict.t (SavedModule ProviderModule),
    (forall p, In p providers -> ~ In k (Dict.keys (provider_get_modules p))) ->
    Dict.get
      (fold_left (fun modules reward_provider =>
                    Dict.update modules
                      (map (fun kv => (fst kv, RewardModule ProviderModule (snd kv)))
                           (provider_get_modules reward_provider)))
                 providers modules) k
    = Dict.get modules k.
Proof.
  induction providers as [|p providers IH]; intros modules Hnot; [reflexivity |].
  cbn [fold_left]. rewrite IH by (intros; apply Hnot; now right).
  apply dict_get_update_other. unfold Dict.keys. rewrite map_map. cbn [fst].
  apply (Hnot p). now left.
Qed.

(** X23.  What [get_modules] saves under a name that no reward provider
    uses: the two Q networks' module, the critic, the target network and
    the three optimizers always, the optimizer and the network of the
    discriminator with MEDE only, and nothing else. *)

Theorem get_modules_of_the_optimizer :
  forall (self : t) (k : string),
    (forall p, In p (Dict.values (reward_signals self)) ->
               ~ In k (Dict.keys (provider_get_modules p))) ->
    Dict.get (get_modules ProviderModule provider_get_modules self) k
    = if String.eqb k "Optimizer:q_network"
      then OK (QNetworkModule ProviderModule (q_network self))
      else if String.eqb k "Optimizer:value_network"
      then OK (ValueNetworkModule ProviderModule (_critic self))
      else if String.eqb k "Optimizer:target_network"
      then OK (ValueNetworkModule ProviderModule (target_network self))
      else if String.eqb k "Optimizer:policy_optimizer"
      then OK (AdamModule ProviderModule (Some (policy_optimizer self)))
      else if String.eqb k "Optimizer:value_optimizer"
      then OK (AdamModule ProviderModule (Some (value_optimizer self)))
      else if String.eqb k "Optimizer:entropy_optimizer"
      then OK (AdamModule ProviderModule (Some (entropy_optimizer self)))
      else if use_mede self && String.eqb k "Optimizer:mede_optimizer"
      then OK (AdamModule ProviderModule (_mede_optimizer self))
      else if use_mede self && String.eqb k "Optimizer:mede_network"
      then OK (MedeNetworkModule ProviderModule (_mede_network self) (_mede_weights self))
      else Raise (KeyError k).
Proof.
  intros self k Hnot. unfold get_modules. cbv zeta.
  rewrite fold_provider_modules by exact Hnot.
  repeat match goal with
         | |- context [String.eqb k ?s] => rewrite (String.eqb_sym k s)
         end.
  destruct (use_mede self); cbn [andb].
  - change (Dict.update ?own ?mede)
      with (own ++ [("Optimizer:mede_optimizer"%string,
                     AdamModule ProviderModule (_mede_optimizer self));
                    ("Optimizer:mede_network"%string,
                     MedeNetworkModule ProviderModule (_mede_network self)
                                       (_mede_weights self))]).
    cbn [app Dict.get].
    repeat match goal with
           | |- context [String.eqb ?s k] => destruct (String.eqb s k); [reflexivity |]
           end.
    reflexivity.
  - cbn [Dict.get].
    repeat match goal with
           | |- context [String.eqb ?s k] => destruct (String.eqb s k); [reflexivity |]
           end.
    reflexivity.
Qed.

(** X24.  Every module of every reward provider is saved: its name is a
    name of the dictionary that [get_modules] returns. *)

Theorem get_modules_of_the_providers :
  forall (self : t) (p : RewardProvider) (k : string),
    In p (Dict.values (reward_signals self)) ->
    In k (Dict.keys (provider_get_modules p)) ->
    In k (Dict.keys (get_modules ProviderModule provider_get_modules self)).
Proof.
  intros self p k Hp Hk. unfold get_modules. cbv zeta.
  match goal with
  | |- In k (Dict.keys (fold_left _ _ ?own)) => generalize own as modules
  end.
  revert Hp. generalize (Dict.values (reward_signals self)) as providers.
  intros providers Hp modules. revert modules Hp.
  assert (Hgrow : forall ps (m : Dict.t (SavedModule ProviderModule)),
             In k (Dict.keys m) ->
             In k (Dict.keys
                     (fold_left (fun modules reward_provider =>
                                   Dict.update modules
                                     (map (fun kv => (fst kv, RewardModule ProviderModule
                                                                           (snd kv)))
                                          (provider_get_modules reward_provider)))
                                ps m))).
  { induction ps as [|q ps IH]; intros m Hm; [exact Hm |].
    cbn [fold_left]. apply IH. apply dict_keys_update. now left. }
  induction providers as [|q providers IH]; intros modules Hp; [contradiction |].
  cbn [fold_left]. destruct Hp as [->|Hp]; [| now apply IH].
  apply Hgrow. apply dict_keys_update. right.
  unfold Dict.keys. rewrite map_map. exact Hk.
Qed.

End Modules.

(** ** The forward pass of the discriminator *)

Lemma softmax_real (row : list R) :
  row <> [] ->
  fsum (softmax (map Fin row)) = Fin 1
  /\ Forall (fun x => exists p, x = Fin p /\ 0 < p <= 1) (softmax (map Fin row)).
Proof.
  intros Hne. destruct row as [|x0 xs]; [congruence |].
  remember (x0 :: xs) as row eqn:Hrow.
  set (M := fold_left Rmax xs x0).
  assert (Hmax : max_all (map Fin row) = OK (Fin M)).
  { subst row. cbn [map max_all]. now rewrite fold_fmax_Fin. }
  unfold softmax. rewrite Hmax. cbv zeta.
  set (f := fun x => exp (x + - M)).
  assert (He : map (fun x => fexp (fsub x (Fin M))) (map Fin row) = map Fin (map f row)).
  { rewrite !map_map. reflexivity. }
  rewrite He. unfold fsum at 2 3. rewrite fsum_Fin.
  set (S := fold_left Rplus (map f row) 0).
  assert (Hf : forall x, 0 < f x) by (intros; apply exp_pos).
  destruct (fold_Rplus_bound f row Hf 0 ltac:(lra)) as [_ Hle]. fold S in Hle.
  assert (HS : 0 < S).
  { pose proof (Hle x0 ltac:(subst row; now left)). pose proof (Hf x0). lra. }
  assert (Hp : map (fun x => fdiv x (Fin S)) (map Fin (map f row))
               = map Fin (map (fun x => f x / S) row)).
  { rewrite !map_map. apply map_ext. intros x. apply fdiv_Fin. lra. }
  rewrite Hp. split.
  - unfold fsum. rewrite fsum_Fin. f_equal.
    replace 0 with (0 / S) at 1 by (unfold Rdiv; ring).
    rewrite fold_Rplus_div. fold S. field. lra.
  - rewrite map_map. apply Forall_map. apply Forall_forall. intros x Hx.
    eexists. split; [reflexivity |]. pose proof (Hf x). pose proof (Hle x Hx).
    split.
    + apply Rdiv_lt_0_compat; lra.
    + apply Rmult_le_reg_r with S; [exact HS |]. unfold Rdiv.
      rewrite Rmult_assoc, Rinv_l by lra. lra.
Qed.

Lemma tensor_obs_agree (self : DiverseNetworkVariational.t) :
  forall obs obs' : list (list (list fl)),
    length obs = length obs' ->
    (forall j spec,
        nth_error (DiverseNetworkVariational._all_obs_specs self) j = Some spec ->
        observation_type spec = DEFAULT ->
        nth_error obs j = nth_error obs' j) ->
    DiverseNetworkVariational.tensor_obs self obs
    = DiverseNetworkVariational.tensor_obs self obs'.
Proof.
  unfold DiverseNetworkVariational.tensor_obs.
  induction (DiverseNetworkVariational._all_obs_specs self) as [|spec specs IH];
    intros obs obs' Hlen Hagree.
  - destruct obs, obs'; reflexivity.
  - destruct obs as [|o obs], obs' as [|o' obs']; simpl in Hlen; try discriminate;
      [reflexivity |].
    cbn [combine filter snd].
    assert (Htl : map fst (filter (fun os => negb (is_goal (observation_type (snd os))))
                                  (combine obs specs))
                  = map fst (filter (fun os => negb (is_goal (observation_type (snd os))))
                                    (combine obs' specs))).
    { apply IH; [lia |]. intros j s Hj Hs. exact (Hagree (S j) s Hj Hs). }
    destruct (observation_type spec) eqn:Ht; cbn [is_goal negb map fst].
    + specialize (Hagree 0%nat spec eq_refl Ht). simpl in Hagree.
      inversion Hagree. now rewrite Htl.
    + exact Htl.
Qed.

Section ForwardPass.

Variable RNG : Type.

Variable rand : RNG -> nat -> nat -> list (list fl) * RNG.

Variable dropout : fl -> RNG -> Tensor (list (list fl)) -> Tensor (list (list fl)) * RNG.

Variable encoder :
  bool -> list (list (list fl)) -> option (Tensor (list (list fl))) ->
  exc (Tensor (list (list fl))).

Variable normal :
  RNG -> Tensor (list (list fl)) -> Tensor (list fl) ->
  exc (Tensor (list (list fl)) * RNG).

Variable last_layer : bool -> Tensor (list (list fl)) -> exc (Tensor (list (list fl))).

(** X25.  The discriminator does not see the goal signal that it has to
    tell: two lists of observations that agree on every observation other
    than a goal signal get the same prediction. *)

Theorem predict_ignores_goal_signal :
  forall (self : DiverseNetworkVariational.t) (mode : bool) (g : RNG)
         (obs obs' : list (list (list fl))) (action_input : AgentAction.t)
         (detach_action var_noise : bool),
    length obs = length obs' ->
    (forall j spec,
        nth_error (DiverseNetworkVariational._all_obs_specs self) j = Some spec ->
        observation_type spec = DEFAULT ->
        nth_error obs j = nth_error obs' j) ->
    DiverseNetworkVariational.predict RNG rand dropout encoder normal last_layer
      self mode g obs action_input detach_action var_noise
    = DiverseNetworkVariational.predict RNG rand dropout encoder normal last_layer
        self mode g obs' action_input detach_action var_noise.
Proof.
  intros self mode g obs obs' action_input detach_action var_noise Hlen Hagree.
  unfold DiverseNetworkVariational.predict. cbv zeta.
  now rewrite (tensor_obs_agree self obs obs' Hlen Hagree).
Qed.

(** X26.  Without discrete actions in the prediction, when the last layer
    gives numbers, every row of the prediction is a distribution: its
    elements lie in [0, 1] and sum to 1, the sum being that of the reals,
    without rounding. *)

Theorem prediction_is_a_distribution :
  forall (self : DiverseNetworkVariational.t) (mode : bool) (g : RNG)
         (obs : list (list (list fl))) (action_input : AgentAction.t)
         (detach_action var_noise : bool) P mu g',
    (DiverseNetworkVariational._use_actions self
     && (0 <? length (DiverseNetworkVariational.disc_sizes self))%nat) = false ->
    (forall m hidden out,
        last_layer m hidden = OK out ->
        Forall (fun row => row <> [] /\ Forall (fun x => exists v, x = Fin v) row)
               (data out)) ->
    DiverseNetworkVariational.predict RNG rand dropout encoder normal last_layer
      self mode g obs action_input detach_action var_noise = OK (P, mu, g') ->
    Forall (fun row => fsum row = Fin 1
                       /\ Forall (fun x => exists p, x = Fin p /\ 0 <= p <= 1) row)
           (data P).
Proof.
  intros self mode g obs action_input detach_action var_noise P mu g' Hpath Hlast H.
  unfold DiverseNetworkVariational.predict in H. cbv zeta in H.
  invert_binds H. inversion H; subst P mu g'; clear H.
  match goal with
  | E : op1e _ (DiverseNetworkVariational.prediction self) ?out = OK ?p,
    L : last_layer _ _ = OK ?out |- _ =>
      unfold op1e, DiverseNetworkVariational.prediction in E; rewrite Hpath in E;
      cbn [bind] in E; inversion E; subst p; clear E;
      pose proof (Hlast _ _ _ L) as Hreal
  end.
  cbn [data]. apply Forall_map. eapply Forall_impl; [| exact Hreal].
  intros row [Hne Hrow]. cbv beta.
  assert (Hr : exists l, row = map Fin l).
  { clear Hne. induction Hrow as [|y row' (v & ->) _ (l & ->)];
      [exists [] | exists (v :: l)]; reflexivity. }
  destruct Hr as (l & ->).
  destruct (softmax_real l) as [Hsum Hpos]; [destruct l; [now elim Hne | discriminate] |].
  split; [exact Hsum |]. eapply Forall_impl; [| exact Hpos].
  intros y (p & -> & Hp). exists p. split; [reflexivity | lra].
Qed.

End ForwardPass.

Lemma drop_channels_elements (r drop x out : list (list fl)) :
  DiverseNetworkVariational.drop_channels r drop x = OK out ->
  Forall (Forall (fun z => exists v a d,
                      In v (concat x) /\ In a (concat r) /\ In d (concat drop)
                      /\ z = fadd (if fgt a d then v else fmul (Fin 0) v)
                                  (Fin 0.0001)))
         out.
Proof.
  unfold DiverseNetworkVariational.drop_channels. intros H.
  inv_bind H. inv_bind H. inversion H; subst out; clear H.
  rename x0 into keep, x1 into kept.
  apply broadcast_inv in E. apply broadcast_inv in E0.
  apply Forall_map. eapply Forall_impl; [| exact E0].
  intros row (krow & xrow & Hk & Hx & Hrow). cbv beta.
  apply broadcast_inv in Hrow. apply Forall_map.
  eapply Forall_impl; [| exact Hrow].
  intros z (k & v & Hkin & Hv & Hz). cbv beta. inversion Hz; subst z; clear Hz.
  rewrite Forall_forall in E. destruct (E krow Hk) as (rrow & drow & Hr & Hd & Hkrow).
  apply broadcast_inv in Hkrow. rewrite Forall_forall in Hkrow.
  destruct (Hkrow k Hkin) as (a & d & Ha & Hdin & Hkd). inversion Hkd; subst k.
  exists v, a, d. repeat split; try reflexivity; apply in_concat; eauto.
Qed.

Section SaliencyDropout.

Variable RNG : Type.

Variable rand : RNG -> nat -> nat -> list (list fl) * RNG.

Lemma saliency_dropout_observations_inv (observations : list (list (list fl))) :
  forall (drops : list (list fl)) (g : RNG) (batch : nat)
         (observations' : list (list (list fl))) (g' : RNG),
    DiverseNetworkVariational._saliency_dropout_observations
      RNG rand g batch observations drops = OK (observations', g') ->
    length observations' = length observations
    /\ forall i o',
         nth_error observations' i = Some o' ->
         exists o,
           nth_error observations i = Some o
           /\ match nth_error drops i with
              | None => o' = o
              | Some d =>
                  exists r, DiverseNetworkVariational.drop_channels r (repeat d batch) o
                            = OK o'
              end.
Proof.
  induction observations as [|obs observations IH];
    intros drops g batch observations' g' H.
  - simpl in H. inversion H; subst. split; [reflexivity |].
    intros [|i] o' Ho; discriminate.
  - destruct drops as [|drop drops].
    + simpl in H. inversion H; subst. split; [reflexivity |].
      intros i o' Ho. exists o'. split; [exact Ho |]. now destruct i.
    + cbn [DiverseNetworkVariational._saliency_dropout_observations] in H.
      inv_bind H. destruct (rand g (length obs) (length (hd [] obs))) as [r g1].
      inv_bind H. inv_bind H. destruct x1 as [rest g2].
      inversion H; subst observations' g'; clear H.
      destruct (IH _ _ _ _ _ E1) as (Hlen & Hall).
      split; [simpl; now rewrite Hlen |].
      intros [|i] o' Ho; simpl in Ho.
      * inversion Ho; subst o'. exists obs. split; [reflexivity |].
        cbn [nth_error]. exists r.
        unfold DiverseNetworkVariational.tile in E.
        destruct batch; [discriminate |]. inversion E; subst x. exact E0.
      * exact (Hall i o' Ho).
Qed.

(** X27.  The saliency dropout keeps the observations apart and in their
    order.  An observation that has a drop tensor comes out with every
    element either an element of it plus 0.0001, or zero times one plus
    0.0001; an observation past the drop tensors comes out as it is.  The
    action is treated alike when [drop_actions] is set, its result
    requiring gradients as the action does under the gradient mode, and is
    left alone otherwise.  There has to be an observation and a drop
    tensor. *)

Theorem saliency_dropout_keeps_or_blanks :
  forall (self : DiverseNetworkVariational.t) (mode : bool) (g : RNG)
         (observations observations' : list (list (list fl)))
         (action action' : option (Tensor (list (list fl)))) (g' : RNG),
    DiverseNetworkVariational._saliency_dropout RNG rand self mode g observations action
    = OK (observations', action', g') ->
    observations <> []
    /\ DiverseNetworkVariational.observations_sal_drop self <> []
    /\ length observations' = length observations
    /\ (forall i o',
           nth_error observations' i = Some o' ->
           exists o,
             nth_error observations i = Some o
             /\ match nth_error (DiverseNetworkVariational.observations_sal_drop self) i
                with
                | None => o' = o
                | Some _ =>
                    Forall (Forall (fun z => exists v,
                                        In v (concat o)
                                        /\ (z = fadd v (Fin 0.0001)
                                            \/ z = fadd (fmul (Fin 0) v) (Fin 0.0001))))
                           o'
                end)
    /\ match action with
       | None => action' = None
       | Some a =>
           exists a',
             action' = Some a'
             /\ if DiverseNetworkVariational.drop_actions self
                then requires_grad a' = mode && requires_grad a
                     /\ Forall (Forall (fun z => exists v,
                                            In v (concat (data a))
                                            /\ (z = fadd v (Fin 0.0001)
                                                \/ z = fadd (fmul (Fin 0) v)
                                                            (Fin 0.0001))))
                               (data a')
                else a' = a
       end.
Proof.
  intros self mode g observations observations' action action' g' H.
  unfold DiverseNetworkVariational._saliency_dropout, list_get in H.
  destruct observations as [|first rest]; [discriminate |].
  cbn [nth_error bind] in H.
  destruct (DiverseNetworkVariational.observations_sal_drop self) as [|d0 drops] eqn:Hd;
    [discriminate |].
  cbn [nth_error bind] in H. cbv zeta in H.
  inv_bind H. destruct x as [obs1 g1].
  destruct (saliency_dropout_observations_inv _ _ _ _ _ _ E) as (Hlen & Hall).
  assert (Helem : forall (r drop x out : list (list fl)),
             DiverseNetworkVariational.drop_channels r drop x = OK out ->
             Forall (Forall (fun z => exists v,
                                 In v (concat x)
                                 /\ (z = fadd v (Fin 0.0001)
                                     \/ z = fadd (fmul (Fin 0) v) (Fin 0.0001))))
                    out).
  { intros r drop x out Hdc. apply drop_channels_elements in Hdc.
    eapply Forall_impl; [| exact Hdc]. intros row Hrow.
    eapply Forall_impl; [| exact Hrow].
    intros z (v & a & d & Hv & _ & _ & ->). exists v. split; [exact Hv |].
    destruct (fgt a d); auto. }
  assert (Hobs : forall obs2, obs2 = obs1 ->
             length obs2 = length (first :: rest)
             /\ forall i o',
                  nth_error obs2 i = Some o' ->
                  exists o,
                    nth_error (first :: rest) i = Some o
                    /\ match nth_error (d0 :: drops) i with
                       | None => o' = o
                       | Some _ =>
                           Forall (Forall (fun z => exists v,
                                               In v (concat o)
                                               /\ (z = fadd v (Fin 0.0001)
                                                   \/ z = fadd (fmul (Fin 0) v)
                                                               (Fin 0.0001))))
                                  o'
                       end).
  { intros obs2 ->. split; [exact Hlen |]. intros i o' Ho.
    destruct (Hall i o' Ho) as (o & Hi & Hm). exists o. split; [exact Hi |].
    destruct (nth_error (d0 :: drops) i); [| exact Hm].
    destruct Hm as (r & Hr). exact (Helem _ _ _ _ Hr). }
  split; [discriminate |]. split; [discriminate |].
  destruct action as [a|].
  - destruct (DiverseNetworkVariational.drop_actions self).
    + inv_bind H.
      destruct (rand g1 (length (data a)) (length (hd [] (data a)))) as [r g2].
      inv_bind H. inversion H; subst observations' action' g'; clear H.
      destruct (Hobs obs1 eq_refl) as [Hl Ho]. split; [exact Hl |].
      split; [exact Ho |]. exists x0. split; [reflexivity |].
      unfold op1e in E1. inv_bind E1. inversion E1; subst x0; clear E1.
      cbn [data requires_grad]. split; [reflexivity |]. exact (Helem _ _ _ _ E2).
    + inversion H; subst observations' action' g'; clear H.
      destruct (Hobs obs1 eq_refl) as [Hl Ho]. split; [exact Hl |].
      split; [exact Ho |]. exists a. auto.
  - inversion H; subst observations' action' g'; clear H.
    destruct (Hobs obs1 eq_refl) as [Hl Ho]. auto.
Qed.

(** X28.  A saliency that is the same in all channels of an observation,
    and not zero, blanks the observation: the drop rates that
    [update_saliency] leaves are NaN, no draw is greater than NaN, and every
    element of the observation, when it is a number, comes out of the
    saliency dropout as 0.0001. *)

Theorem constant_saliency_blanks_the_observation :
  forall (self self' : DiverseNetworkVariational.t) (sal_obs : list (list fl))
         (sal_act : list fl) (i : nat) (c : R) (n : nat) (mode : bool) (g g' : RNG)
         (observations observations' : list (list (list fl)))
         (action action' : option (Tensor (list (list fl)))) (o o' : list (list fl)),
    DiverseNetworkVariational.update_saliency self sal_obs sal_act = OK self' ->
    nth_error (drop_index (DiverseNetworkVariational._diverse_index self) 0 sal_obs) i
    = Some (repeat (Fin c) n) ->
    c <> 0 -> (0 < n)%nat ->
    DiverseNetworkVariational._saliency_dropout RNG rand self' mode g observations action
    = OK (observations', action', g') ->
    nth_error observations i = Some o ->
    Forall (Forall (fun x => exists v, x = Fin v)) o ->
    nth_error observations' i = Some o' ->
    Forall (Forall (fun z => z = Fin 0.0001)) o'.
Proof.
  intros self self' sal_obs sal_act i c n mode g g' observations observations'
         action action' o o' Hsal Hi Hc Hn Hdrop Ho Hreal Ho'.
  destruct (update_saliency_constant_gives_nan _ _ _ _ Hsal) as [_ Hnan].
  specialize (Hnan i c n Hc Hn Hi).
  unfold DiverseNetworkVariational._saliency_dropout in Hdrop.
  inv_bind Hdrop. inv_bind Hdrop. cbv zeta in Hdrop. inv_bind Hdrop.
  destruct x1 as [obs1 g1].
  assert (observations' = obs1).
  { destruct action as [a|]; [destruct (DiverseNetworkVariational.drop_actions self') |].
    - inv_bind Hdrop.
      destruct (rand g1 (length (data a)) (length (hd [] (data a)))) as [r g2].
      inv_bind Hdrop. now inversion Hdrop.
    - now inversion Hdrop.
    - now inversion Hdrop. }
  subst obs1.
  destruct (saliency_dropout_observations_inv _ _ _ _ _ _ E1) as (_ & Hall).
  destruct (Hall i o' Ho') as (o1 & Ho1 & Hm).
  rewrite Ho in Ho1. inversion Ho1; subst o1; clear Ho1.
  rewrite Hnan in Hm. destruct Hm as (r & Hr).
  apply drop_channels_elements in Hr.
  eapply Forall_impl; [| exact Hr]. intros row Hrow.
  eapply Forall_impl; [| exact Hrow].
  intros z (v & a & d & Hv & _ & Hd & ->).
  apply in_concat in Hd. destruct Hd as (drow & Hdrow & Hd).
  apply repeat_spec in Hdrow. subst drow. apply repeat_spec in Hd. subst d.
  rewrite fgt_nan.
  apply in_concat in Hv. destruct Hv as (orow & Horow & Hv).
  rewrite Forall_forall in Hreal. specialize (Hreal orow Horow).
  rewrite Forall_forall in Hreal. destruct (Hreal v Hv) as (w & ->).
  cbn. f_equal. lra.
Qed.

End SaliencyDropout.

(** ** The policy loss and the entropy loss of continuous actions *)

Lemma fold_Rplus_acc (l : list R) (acc : R) :
  fold_left Rplus l acc = fold_left Rplus l 0 + acc.
Proof.
  revert acc. induction l as [|x l IH]; intros acc; simpl; [lra |].
  rewrite (IH (acc + x)), (IH (0 + x)). lra.
Qed.

Lemma mean_R_affine (a c : R) (l : list R) :
  l <> [] -> mean_R (map (fun x => a * x + c) l) = a * mean_R l + c.
Proof.
  intros Hne. unfold mean_R. rewrite length_map.
  assert (Hn : 0 < INR (length l)).
  { apply lt_0_INR. destruct l; [congruence | simpl; lia]. }
  assert (Hsum : fold_left Rplus (map (fun x => a * x + c) l) 0
                 = a * fold_left Rplus l 0 + INR (length l) * c).
  { clear Hne Hn. induction l as [|x l IH]; [simpl; lra |].
    cbn [map fold_left length]. rewrite fold_Rplus_acc, IH, (fold_Rplus_acc l (0 + x)).
    rewrite S_INR. lra. }
  rewrite Hsum. field. lra.
Qed.

Section ContinuousLosses.

Context {C : Collaborators}.

Import TorchSACOptimizer.

(** X29.  The policy loss of continuous actions alone, for one stream and
    numbers: the loss of a sample is the entropy coefficient times the mean
    of its log-probabilities over the action dimensions, less its Q value,
    less the weighted reward of the discriminator when this is asked for;
    the loss is their masked mean. *)
Theorem policy_loss_of_continuous_actions :
  forall (self : t) (log_probs : ActionLogProbs.t) (name : string)
         (q mede : list R) (gq gl gm : bool) (LP : list (list R))
         (loss_masks : list bool) (log_alpha strength : R),
    discrete_branches (_action_spec self) = [] ->
    (0 < continuous_size (_action_spec self))%nat ->
    data (LogEntCoef.continuous (_log_ent_coef self)) = Fin log_alpha ->
    mede_strength self = Fin strength ->
    ActionLogProbs.continuous_tensor log_probs = mkTensor (map (map Fin) LP) gl ->
    length LP = length q -> length mede = length q ->
    Forall (fun row => row <> []) LP ->
    sac_policy_loss self log_probs [(name, mkTensor (Vec (map Fin q)) gq)] loss_masks
                    (mkTensor (map Fin mede) gm)
    = (policy_loss <-
         masked_mean
           (T1 (map (fun s =>
                       Fin (exp log_alpha * mean_R (fst s) - fst (snd s)
                            - (if mede_policy_loss self
                               then strength * snd (snd s) else 0)))
                    (combine LP (combine q mede))))
           loss_masks ;;
       OK (mkTensor policy_loss
             (gq || (gl || requires_grad (LogEntCoef.continuous (_log_ent_coef self)))
              || mede_policy_loss self && gm))).
Proof.
  intros self lp name q mede gq gl gm LP masks la s Hbr Hcont Hla Hs Hlp Hlen Hlenm Hrows.
  unfold sac_policy_loss, discrete_size. rewrite Hbr, Hlp, Hs.
  apply Nat.ltb_lt in Hcont. rewrite Hcont.
  cbn [length Nat.ltb Nat.leb Dict.values map snd opn mean_stack map_e bind
       mean_stack_vec stack forallb mean_dim0 data requires_grad existsb as_vec
       op1 andb orb].
  rewrite (map_seq_nth (fun x => fmean [x]) (map Fin q) NaN), map_map.
  rewrite Hla. cbn [fexp].
  assert (Hb :
            broadcast (fun row qv =>
                         OK (fmean (map (fun x => fsub (fmul (Fin (exp la)) x) qv) row)))
                      (map (map Fin) LP) (map (fun x => fmean [Fin x]) q)
            = OK (map (fun s0 => Fin (exp la * mean_R (fst s0) + - ((0 + snd s0) / 1)))
                      (combine LP q))).
  { rewrite broadcast_zip by (now rewrite !length_map).
    clear -Hlen Hrows. revert q Hlen.
    induction Hrows as [|row LP Hrow _ IH]; intros [|x q] Hlen; simpl in Hlen;
      try discriminate; [reflexivity |].
    cbn [map zip_with_e combine fst snd]. rewrite IH by lia. cbn [bind].
    do 2 f_equal.
    unfold fmean at 2. cbn [fsum fold_left fadd length of_nat INR].
    change (of_nat 1) with (Fin 1). rewrite fdiv_Fin by lra.
    replace (map (fun x0 => fsub (fmul (Fin (exp la)) x0) (Fin ((0 + x) / 1)))
                 (map Fin row))
      with (map Fin (map (fun x0 => exp la * x0 + - ((0 + x) / 1)) row))
      by (rewrite !map_map; reflexivity).
    rewrite fmean_Fin by (destruct row; [congruence | discriminate]).
    now rewrite mean_R_affine. }
  rewrite Hb. cbn [bind py_iadd]. rewrite map_map. cbn [fadd].
  destruct (mede_policy_loss self); cbn [bind andb].
  - unfold smul. cbn [fneg]. rewrite map_map. cbn [fmul].
    rewrite iadd_zip by (rewrite !length_map, !length_combine; lia).
    cbn [bind].
    assert (Hl : map (fun xy : fl * fl => fadd (fst xy) (snd xy))
                     (combine
                        (map (fun x => Fin (0 + (exp la * mean_R (fst x)
                                                 + - ((0 + snd x) / 1))))
                             (combine LP q))
                        (map (fun x => Fin (- s * x)) mede))
                 = map (fun s0 => Fin (exp la * mean_R (fst s0) - fst (snd s0)
                                       - s * snd (snd s0)))
                       (combine LP (combine q mede))).
    { clear -Hlen Hlenm. revert q mede Hlen Hlenm.
      induction LP as [|row LP IH]; intros [|x q] [|r mede] Hlen Hlenm;
        simpl in Hlen, Hlenm; try discriminate; [reflexivity |].
      cbn [map combine fst snd fadd]. f_equal; [f_equal; field | apply IH; lia]. }
    rewrite Hl. destruct (masked_mean _ masks); cbn [bind]; [| reflexivity].
    do 2 f_equal. destruct gq, gl, gm,
      (requires_grad (LogEntCoef.continuous (_log_ent_coef self))); reflexivity.
  - assert (Hl : map (fun x => Fin (0 + (exp la * mean_R (fst x) + - ((0 + snd x) / 1))))
                     (combine LP q)
                 = map (fun s0 => Fin (exp la * mean_R (fst s0) - fst (snd s0) - 0))
                       (combine LP (combine q mede))).
    { clear -Hlen Hlenm. revert q mede Hlen Hlenm.
      induction LP as [|row LP IH]; intros [|x q] [|r mede] Hlen Hlenm;
        simpl in Hlen, Hlenm; try discriminate; [reflexivity |].
      cbn [map combine fst snd]. f_equal; [f_equal; field | apply IH; lia]. }
    rewrite Hl. destruct (masked_mean _ masks); cbn [bind]; [| reflexivity].
    do 2 f_equal. destruct gq, gl, gm,
      (requires_grad (LogEntCoef.continuous (_log_ent_coef self))); reflexivity.
Qed.

(** X30.  The entropy loss of continuous actions alone, for numbers: the
    masked mean, negated, of the logarithm of the entropy coefficient times
    the sum over the action dimensions of log-probability plus target
    entropy.  It requires gradients as the logarithm of the coefficient
    does: the log-probabilities carry none into it. *)
Theorem entropy_loss_of_continuous_actions :
  forall (self : t) (log_probs : ActionLogProbs.t) (LP : list (list R))
         (loss_masks : list bool) (log_alpha target : R),
    discrete_branches (_action_spec self) = [] ->
    (0 < continuous_size (_action_spec self))%nat ->
    data (LogEntCoef.continuous (_log_ent_coef self)) = Fin log_alpha ->
    TargetEntropy.continuous (target_entropy self) = Fin target ->
    data (ActionLogProbs.continuous_tensor log_probs) = map (map Fin) LP ->
    sac_entropy_loss self log_probs loss_masks
    = (m <- masked_mean
              (T1 (map (fun row =>
                          Fin (log_alpha
                               * fold_left Rplus (map (fun x => x + target) row) 0))
                       LP))
              loss_masks ;;
       OK (Some (mkTensor (fadd (Fin 0) (fmul (Fin (-1)) m))
                          (requires_grad (LogEntCoef.continuous (_log_ent_coef self)))))).
Proof.
  intros self lp LP masks la t Hbr Hcont Hla Ht Hlp.
  unfold sac_entropy_loss, discrete_size. rewrite Hbr, Hlp, Hla, Ht.
  apply Nat.ltb_lt in Hcont. rewrite Hcont.
  cbn [length Nat.ltb Nat.leb bind].
  replace (smul (Fin la)
                (sum_dim1 (map (map (fun x => fadd x (Fin t))) (map (map Fin) LP))))
    with (map (fun row => Fin (la * fold_left Rplus (map (fun x => x + t) row) 0)) LP);
    [reflexivity |].
  unfold smul, sum_dim1. rewrite !map_map. apply map_ext. intros row.
  replace (map (fun x => fadd x (Fin t)) (map Fin row))
    with (map Fin (map (fun x => x + t) row)) by (rewrite !map_map; reflexivity).
  unfold fsum. now rewrite fsum_Fin.
Qed.

End ContinuousLosses.

(** ** The further properties at the small instance *)

Lemma discriminator_needs_goal_signal_witness :
  DiverseNetworkVariational.__init__ 1 (Toy.specs Toy.continuous_only)
                                     (Toy.settings false)
  = Raise IndexError.
Proof.
  apply (proj1 (discriminator_needs_goal_signal
                  1 (Toy.specs Toy.continuous_only) (Toy.settings false))).
  repeat constructor.
Defined.

Lemma discriminator_goal_bookkeeping_witness :
  exists self,
    DiverseNetworkVariational.__init__ 1 Toy.goal_specs (Toy.settings false) = OK self
    /\ DiverseNetworkVariational._diverse_index self = 1%Z
    /\ DiverseNetworkVariational.diverse_size self = 4%nat
    /\ DiverseNetworkVariational.observations_sal_drop self = [[Fin 0]].
Proof.
  unshelve epose proof
           (discriminator_goal_bookkeeping 1 Toy.goal_specs (Toy.settings false) _ _) as H.
  2: reflexivity.
  destruct H as (_ & Hdrop & _).
  eexists. split; [reflexivity |]. split; [reflexivity |]. split; [reflexivity |].
  exact Hdrop.
Defined.

Lemma update_saliency_constant_gives_nan_witness :
  exists self',
    DiverseNetworkVariational.update_saliency
      (example_discriminator (Fin 0.5) false false) [] (repeat (Fin 2) 3) = OK self'
    /\ DiverseNetworkVariational.cont_actions_sal_drop self' = repeat NaN 3.
Proof.
  assert (H : DiverseNetworkVariational.update_saliency
                (example_discriminator (Fin 0.5) false false) [] (repeat (Fin 2) 3)
              = OK (DiverseNetworkVariational.with_sal_drop
                      (example_discriminator (Fin 0.5) false false)
                      [zeros 3] (repeat NaN 3))).
  { unfold DiverseNetworkVariational.update_saliency.
    cbn [drop_index DiverseNetworkVariational.update_saliency_observations bind
         example_discriminator DiverseNetworkVariational.observations_sal_drop
         DiverseNetworkVariational._max_saliency_dropout
         DiverseNetworkVariational._diverse_index].
    rewrite any_constant by (lra || lia).
    rewrite saliency_drop_constant by lia. reflexivity. }
  eexists. split; [exact H |].
  exact (proj1 (update_saliency_constant_gives_nan _ _ _ _ H) 2 3%nat
               ltac:(lra) ltac:(lia) eq_refl).
Defined.

Lemma update_saliency_rates_in_range_witness :
  exists self',
    DiverseNetworkVariational.update_saliency
      (example_discriminator (Fin 0.5) false false) [] (map Fin [1; 2; 3]) = OK self'
    /\ Forall (fun d => exists r, d = Fin r /\ 0 <= r <= 0.5)
              (DiverseNetworkVariational.cont_actions_sal_drop self').
Proof.
  destruct (saliency_drop_range 0.5 [1; 2; 3] ltac:(lra) spread_123) as (d & Hd & _).
  assert (H : DiverseNetworkVariational.update_saliency
                (example_discriminator (Fin 0.5) false false)
                (map (map Fin) []) (map Fin [1; 2; 3])
              = OK (DiverseNetworkVariational.with_sal_drop
                      (example_discriminator (Fin 0.5) false false) [zeros 3] d)).
  { unfold DiverseNetworkVariational.update_saliency.
    cbn [map drop_index DiverseNetworkVariational.update_saliency_observations bind
         example_discriminator DiverseNetworkVariational.observations_sal_drop
         DiverseNetworkVariational._max_saliency_dropout
         DiverseNetworkVariational._diverse_index].
    change [Fin 1; Fin 2; Fin 3] with (map Fin [1; 2; 3]).
    rewrite (any_spread _ spread_123), Hd. reflexivity. }
  eexists. split; [exact H |].
  exact (proj1 (update_saliency_rates_in_range
                  (example_discriminator (Fin 0.5) false false) _ 0.5 [] [1; 2; 3]
                  ltac:(lra) eq_refl H) spread_123).
Defined.

Lemma update_saliency_affine_invariant_witness :
  DiverseNetworkVariational.update_saliency
    (example_discriminator (Fin 0.5) false false) []
    (map Fin (map (fun s => 2 * s + 1) [1; 2; 3]))
  = DiverseNetworkVariational.update_saliency
      (example_discriminator (Fin 0.5) false false) [] (map Fin [1; 2; 3]).
Proof.
  apply (update_saliency_affine_invariant
           (example_discriminator (Fin 0.5) false false) 0.5 2 1 [] [1; 2; 3]).
  - lra.
  - exact spread_123.
  - reflexivity.
Defined.

Lemma update_saliency_ignores_goal_signal_witness :
  DiverseNetworkVariational.update_saliency
    (example_discriminator (Fin 0.5) false false)
    [[Fin 1; Fin 2; Fin 3]; [Fin 7]] (zeros 3)
  = DiverseNetworkVariational.update_saliency
      (example_discriminator (Fin 0.5) false false)
      [[Fin 1; Fin 2; Fin 3]; [Fin 9]] (zeros 3).
Proof.
  apply (update_saliency_ignores_goal_signal
           (example_discriminator (Fin 0.5) false false)).
  - reflexivity.
  - intros [|[|j]] Hj; [reflexivity | | reflexivity].
    exfalso. apply Hj. reflexivity.
Defined.

Lemma mede_reward_is_bounded_below_witness :
  exists r,
    DiverseNetworkVariational.rewards
      unit Toy.predict (fun _ g t => (t, g))
      (example_discriminator (Fin 0) false false) true tt Toy.goal_obs Toy.sampled
      Toy.log_probs false false = OK (r, tt)
    /\ Forall (fun x => exists v, x = Fin v /\ ln 1e-7 <= v) (data r).
Proof.
  eexists. split; [reflexivity |].
  eapply (mede_reward_is_bounded_below
            unit Toy.predict (fun _ g t => (t, g))
            (example_discriminator (Fin 0) false false) true tt Toy.goal_obs
            Toy.sampled Toy.log_probs false false).
  - reflexivity.
  - reflexivity.
  - reflexivity.
  - repeat constructor; eexists; (split; [reflexivity | lra]).
  - repeat constructor; eexists; (split; [reflexivity | lra]).
  - reflexivity.
Defined.

Lemma discriminator_total_loss_witness :
  exists self1 losses,
    DiverseNetworkVariational.loss
      unit Toy.predict (fun _ g t => (t, g)) ModelUtils.masked_mean
      (example_discriminator (Fin 0) false false) true tt
      Toy.goal_obs Toy.sampled Toy.log_probs [true] true true
    = OK (self1, losses, tt)
    /\ DiverseNetworkVariational.total_loss losses
       = DiverseNetworkVariational.base_loss losses.
Proof.
  do 2 eexists. split; [reflexivity |].
  exact (proj1 (discriminator_total_loss
                  unit Toy.predict (fun _ g t => (t, g)) ModelUtils.masked_mean
                  (example_discriminator (Fin 0) false false) true tt
                  Toy.goal_obs Toy.sampled Toy.log_probs [true] true true
                  _ _ _ eq_refl)).
Defined.

(** The optimizer of the small instance, and one update of it. *)
Lemma toy_update :
  exists self self' stats trace,
    @TorchSACOptimizer.__init__ Toy.collaborators tt
      (Toy.policy false Toy.continuous_only) Toy.params = OK (self, tt)
    /\ @constructed Toy.collaborators self
    /\ @TorchSACOptimizer.update Toy.collaborators self tt Toy.batch 0
       = OK (self', stats, trace, tt).
Proof.
  unshelve epose proof
           (@constructed_init Toy.collaborators tt
              (Toy.policy false Toy.continuous_only) Toy.params _ _ _) as Hc.
  3: reflexivity.
  match type of Hc with
  | constructed ?S =>
      eassert (Hupd : @TorchSACOptimizer.update Toy.collaborators S tt Toy.batch 0
                      = OK (_, _, _, _))
        by (unfold TorchSACOptimizer.update; settle_reals; reflexivity)
  end.
  do 4 eexists. split; [reflexivity |]. split; [exact Hc | exact Hupd].
Qed.

Lemma q_loss_needs_every_stream_witness :
  exists self losses,
    @TorchSACOptimizer.__init__ Toy.collaborators tt
      (Toy.policy false Toy.continuous_only) Toy.params = OK (self, tt)
    /\ @TorchSACOptimizer.sac_q_loss
         Toy.collaborators self
         [("extrinsic"%string, mkTensor (Vec [Fin 0]) true)]
         [("extrinsic"%string, mkTensor (Vec [Fin 0]) true)]
         [("extrinsic"%string, mkTensor [Fin 2] false)]
         (constant [Fin 0]) [("extrinsic"%string, constant [Fin 1])] [true]
       = OK losses
    /\ (length [("extrinsic"%string, mkTensor (Vec [Fin 0]) true)]
        <= length (TorchSACOptimizer.gammas self))%nat.
Proof.
  eexists. eexists. split; [reflexivity |].
  eassert (H : @TorchSACOptimizer.sac_q_loss Toy.collaborators _ _ _ _ _ _ _ = OK _).
  2:{ split; [exact H |].
      exact (proj1 (proj2 (@q_loss_needs_every_stream Toy.collaborators
                             _ _ _ _ _ _ _ _ H))). }
  unfold TorchSACOptimizer.sac_q_loss. settle_reals. reflexivity.
Defined.

Lemma entropy_loss_needs_actions_witness :
  exists self,
    @TorchSACOptimizer.__init__ Toy.collaborators tt
      (Toy.policy false Toy.no_actions) Toy.params = OK (self, tt)
    /\ @TorchSACOptimizer.sac_entropy_loss Toy.collaborators self Toy.log_probs [true]
       = OK None.
Proof.
  eexists. split; [reflexivity |].
  apply (proj2 (proj1 (@entropy_loss_needs_actions Toy.collaborators
                         _ Toy.log_probs [true]))).
  split; reflexivity.
Defined.

Lemma value_loss_gradient_reaches_values_only_witness :
  exists self value_loss,
    @TorchSACOptimizer.__init__ Toy.collaborators tt
      (Toy.policy false Toy.continuous_only) Toy.params = OK (self, tt)
    /\ @TorchSACOptimizer.sac_value_loss
         Toy.collaborators self Toy.log_probs
         [("extrinsic"%string, mkTensor [Fin 3] true)]
         [("extrinsic"%string, mkTensor (Vec [Fin 0]) true)]
         [("extrinsic"%string, mkTensor (Vec [Fin 0]) false)]
         [true] (constant (zeros 1))
       = OK value_loss
    /\ requires_grad value_loss = true.
Proof.
  eexists. eexists. split; [reflexivity |].
  eassert (H : @TorchSACOptimizer.sac_value_loss
                 Toy.collaborators _ _ _ _ _ _ _ = OK _).
  2:{ split; [exact H |].
      refine (@value_loss_gradient_reaches_values_only Toy.collaborators
                _ _ _ _ _ _ _ _ _ H).
      constructor; [intros [] | constructor]. }
  unfold TorchSACOptimizer.sac_value_loss, TorchSACOptimizer.assembled_value_loss.
  settle_reals. reflexivity.
Defined.

Lemma condense_keeps_streams_witness :
  exists self condensed_q_output,
    @TorchSACOptimizer.__init__ Toy.collaborators tt (Toy.policy false Toy.hybrid)
      Toy.params = OK (self, tt)
    /\ @TorchSACOptimizer._condense_q_streams
         Toy.collaborators self
         [("extrinsic"%string, mkTensor (Mat [[Fin 5; Fin 7]]) true)] (mkLong 1 [[1%nat]])
       = OK condensed_q_output
    /\ Dict.keys condensed_q_output = ["extrinsic"%string].
Proof.
  eexists. eexists. split; [reflexivity |].
  eassert (H : @TorchSACOptimizer._condense_q_streams Toy.collaborators _ _ _ = OK _).
  2:{ split; [exact H |].
      exact (proj1 (@condense_keeps_streams Toy.collaborators _ _ _ _ H)). }
  unfold TorchSACOptimizer._condense_q_streams. settle_reals. reflexivity.
Defined.

Lemma smoothed_saliency_decays_slowly_witness :
  exists smoothed,
    TorchSACOptimizer.smooth_saliency
      (Fin 0.01) (map (map Fin) [[1; -2]; [3; 4]]) (map Fin [5; 6]) = OK smoothed
    /\ Forall2 (fun x s => exists v, x = Fin v /\ (1 - 0.01) * s <= v) smoothed [5; 6].
Proof.
  eexists.
  eassert (H : TorchSACOptimizer.smooth_saliency _ _ _ = OK _).
  2:{ split; [exact H |].
      refine (smoothed_saliency_decays_slowly 0.01 [[1; -2]; [3; 4]] [5; 6] _ _ _ _ H).
      - lra.
      - discriminate.
      - repeat constructor. }
  reflexivity.
Defined.

Lemma optimizer_construction_witness :
  exists self g',
    @TorchSACOptimizer.__init__ Toy.collaborators tt
      (Toy.policy false Toy.continuous_only) Toy.params = OK (self, g')
    /\ TorchSACOptimizer._mede_network self = None.
Proof.
  exact (@optimizer_construction Toy.collaborators tt
           (Toy.policy false Toy.continuous_only) Toy.params eq_refl).
Defined.

Lemma initial_entropy_coefficients_witness :
  exists self,
    @TorchSACOptimizer.__init__ Toy.collaborators tt (Toy.policy false Toy.hybrid)
      Toy.params = OK (self, tt)
    /\ fexp (data (LogEntCoef.continuous (TorchSACOptimizer._log_ent_coef self))) = Fin 1
    /\ map fexp (data (LogEntCoef.discrete (TorchSACOptimizer._log_ent_coef self)))
       = [Fin 1].
Proof.
  unshelve epose proof
           (@initial_entropy_coefficients Toy.collaborators tt
              (Toy.policy false Toy.hybrid) Toy.params _ _ 1 _ eq_refl ltac:(lra)) as H.
  3: reflexivity.
  destruct H as (Hc & Hd & _).
  eexists. split; [reflexivity |]. split; [exact Hc | exact Hd].
Defined.

Lemma update_statistics_names_witness :
  exists self self' stats trace,
    @TorchSACOptimizer.__init__ Toy.collaborators tt
      (Toy.policy false Toy.continuous_only) Toy.params = OK (self, tt)
    /\ @TorchSACOptimizer.update Toy.collaborators self tt Toy.batch 0
       = OK (self', stats, trace, tt)
    /\ length (Dict.keys stats) = 8%nat
    /\ Dict.get stats "Policy/Learning Rate" = OK (Fin 0.0003).
Proof.
  destruct toy_update as (self & self' & stats & trace & Hinit & Hc & Hupd).
  exists self, self', stats, trace. split; [exact Hinit |]. split; [exact Hupd |].
  destruct (@update_statistics_names Toy.collaborators _ _ _ _ _ _ _ _ Hupd)
    as (Hkeys & Hlr).
  assert (Hmede : TorchSACOptimizer.use_mede self = false
                  /\ TorchSACOptimizer.hyperparameters self = Toy.settings false).
  { inversion Hinit. split; reflexivity. }
  destruct Hmede as (Hmede & Hhyper).
  rewrite Hmede in Hkeys. rewrite Hhyper in Hlr.
  split; [now rewrite Hkeys | exact Hlr].
Defined.

Lemma update_keeps_configuration_witness :
  exists self self' stats trace,
    @TorchSACOptimizer.__init__ Toy.collaborators tt
      (Toy.policy false Toy.continuous_only) Toy.params = OK (self, tt)
    /\ @TorchSACOptimizer.update Toy.collaborators self tt Toy.batch 0
       = OK (self', stats, trace, tt)
    /\ TorchSACOptimizer.gammas self' = TorchSACOptimizer.gammas self
    /\ TorchSACOptimizer.use_dones_in_backup self'
       = TorchSACOptimizer.use_dones_in_backup self.
Proof.
  destruct toy_update as (self & self' & stats & trace & Hinit & Hc & Hupd).
  exists self, self', stats, trace. split; [exact Hinit |]. split; [exact Hupd |].
  destruct (@update_keeps_configuration Toy.collaborators _ _ _ _ _ _ _ _ Hupd)
    as (_ & _ & _ & _ & Hg & Hd & _).
  split; [exact Hg | exact Hd].
Defined.

Lemma discriminator_present_iff_enabled_witness :
  exists self self' stats trace,
    @TorchSACOptimizer.__init__ Toy.collaborators tt
      (Toy.policy false Toy.continuous_only) Toy.params = OK (self, tt)
    /\ @TorchSACOptimizer.update Toy.collaborators self tt Toy.batch 0
       = OK (self', stats, trace, tt)
    /\ TorchSACOptimizer.use_mede self'
       = SACSettings.mede (TorchSACOptimizer.hyperparameters self').
Proof.
  destruct toy_update as (self & self' & stats & trace & Hinit & Hc & Hupd).
  exists self, self', stats, trace. split; [exact Hinit |]. split; [exact Hupd |].
  exact (proj1 (@discriminator_present_iff_enabled Toy.collaborators self'
                  (@constructed_update Toy.collaborators _ _ _ _ _ _ _ _ Hc Hupd))).
Defined.

Lemma update_needs_a_sequence_length_witness :
  exists self,
    @TorchSACOptimizer.__init__ Toy.collaborators tt
      {| TorchSACOptimizer.shared_critic := false;
         TorchSACOptimizer.behavior_spec := Toy.specs Toy.continuous_only;
         TorchSACOptimizer.sequence_length := 0;
         TorchSACOptimizer.current_step := 0;
         TorchSACOptimizer.actor := (tt : @Actor Toy.collaborators) |}
      Toy.params = OK (self, tt)
    /\ @TorchSACOptimizer.update Toy.collaborators self tt Toy.batch 0
       = Raise ValueError.
Proof.
  eexists. split; [reflexivity |].
  apply (@update_needs_a_sequence_length Toy.collaborators).
  - reflexivity.
  - intros name _. eexists. reflexivity.
Defined.


Lemma update_reward_signals_by_name_witness :
  exists self self' stats,
    @TorchSACOptimizer.__init__ Toy.collaborators tt
      (Toy.policy false Toy.continuous_only) Toy.params = OK (self, tt)
    /\ @TorchSACOptimizer.update_reward_signals
         Toy.collaborators Toy.provider_update self
         [("extrinsic"%string, Toy.batch)] 1
       = OK (self', stats)
    /\ Dict.keys (TorchSACOptimizer.reward_signals self')
       = Dict.keys (TorchSACOptimizer.reward_signals self)
    /\ @TorchSACOptimizer.update_reward_signals
         Toy.collaborators Toy.provider_update self
         [("curiosity"%string, Toy.batch)] 1
       = Raise (KeyError "curiosity").
Proof.
  do 3 eexists. split; [reflexivity |]. split; [reflexivity |]. split.
  - match goal with
    | |- Dict.keys (TorchSACOptimizer.reward_signals ?S') = Dict.keys (_ ?S) =>
        exact (proj1 (proj2 (proj2 (proj2 (@update_reward_signals_by_name
                                             Toy.collaborators Toy.provider_update
                                             S [("extrinsic"%string, Toy.batch)] 1%nat)
                                          S' _ eq_refl))))
    end.
  - refine (proj1 (@update_reward_signals_by_name
                     Toy.collaborators Toy.provider_update _ _ _)
                  "curiosity"%string Toy.batch [] eq_refl _).
    intros [H'|[]]. discriminate H'.
Defined.

Lemma get_modules_of_the_optimizer_witness :
  exists self,
    @TorchSACOptimizer.__init__ Toy.collaborators tt
      (Toy.policy false Toy.continuous_only) Toy.params = OK (self, tt)
    /\ Dict.get (@TorchSACOptimizer.get_modules
                   Toy.collaborators unit Toy.provider_get_modules self)
                "Optimizer:mede_network"
       = Raise (KeyError "Optimizer:mede_network").
Proof.
  eexists. split; [reflexivity |].
  refine (@get_modules_of_the_optimizer
            Toy.collaborators unit Toy.provider_get_modules _
            "Optimizer:mede_network"%string _).
  intros p _ [H|[]]. discriminate H.
Defined.

Lemma get_modules_of_the_providers_witness :
  exists self,
    @TorchSACOptimizer.__init__ Toy.collaborators tt
      (Toy.policy false Toy.continuous_only) Toy.params = OK (self, tt)
    /\ In "Module:reward"%string
          (Dict.keys (@TorchSACOptimizer.get_modules
                        Toy.collaborators unit Toy.provider_get_modules self)).
Proof.
  eexists. split; [reflexivity |].
  refine (@get_modules_of_the_providers
            Toy.collaborators unit Toy.provider_get_modules _
            {| ignore_done := false |} "Module:reward"%string _ _).
  - left. reflexivity.
  - left. reflexivity.
Defined.

Lemma predict_ignores_goal_signal_witness :
  DiverseNetworkVariational.predict
    unit Toy.rand Toy.dropout Toy.encoder Toy.normal Toy.last_layer
    (example_discriminator (Fin 0) false false) true tt
    [[[Fin 1; Fin 2; Fin 3]]; [[Fin 0; Fin 1; Fin 0; Fin 0]]] Toy.sampled false false
  = DiverseNetworkVariational.predict
      unit Toy.rand Toy.dropout Toy.encoder Toy.normal Toy.last_layer
      (example_discriminator (Fin 0) false false) true tt
      [[[Fin 1; Fin 2; Fin 3]]; [[Fin 1; Fin 0; Fin 0; Fin 0]]] Toy.sampled false false.
Proof.
  apply (predict_ignores_goal_signal
           unit Toy.rand Toy.dropout Toy.encoder Toy.normal Toy.last_layer
           (example_discriminator (Fin 0) false false)).
  - reflexivity.
  - intros [|[|j]] spec Hspec Htype; cbn in Hspec.
    + reflexivity.
    + inversion Hspec; subst spec. discriminate Htype.
    + destruct j; discriminate Hspec.
Defined.

Lemma prediction_is_a_distribution_witness :
  exists P mu,
    DiverseNetworkVariational.predict
      unit Toy.rand Toy.dropout Toy.encoder Toy.normal Toy.last_layer
      (example_discriminator (Fin 0) false false) true tt
      [[[Fin 1; Fin 2; Fin 3]]; [[Fin 0; Fin 1; Fin 0; Fin 0]]] Toy.sampled false false
    = OK (P, mu, tt)
    /\ Forall (fun row => fsum row = Fin 1
                          /\ Forall (fun x => exists p, x = Fin p /\ 0 <= p <= 1) row)
              (data P).
Proof.
  eassert (H : DiverseNetworkVariational.predict
                 unit Toy.rand Toy.dropout Toy.encoder Toy.normal Toy.last_layer
                 (example_discriminator (Fin 0) false false) true tt
                 [[[Fin 1; Fin 2; Fin 3]]; [[Fin 0; Fin 1; Fin 0; Fin 0]]]
                 Toy.sampled false false
               = OK (_, _, _))
    by (unfold DiverseNetworkVariational.predict; settle_reals; reflexivity).
  do 2 eexists. split; [exact H |].
  refine (prediction_is_a_distribution
            unit Toy.rand Toy.dropout Toy.encoder Toy.normal Toy.last_layer
            (example_discriminator (Fin 0) false false) true tt
            [[[Fin 1; Fin 2; Fin 3]]; [[Fin 0; Fin 1; Fin 0; Fin 0]]] Toy.sampled
            false false _ _ _ eq_refl _ H).
  intros m hidden out Hout. inversion Hout; subst out. cbn [data].
  apply Forall_map, Forall_forall. intros row _.
  split; [discriminate | repeat constructor; eexists; reflexivity].
Defined.

Lemma saliency_dropout_keeps_or_blanks_witness :
  exists observations' g',
    DiverseNetworkVariational._saliency_dropout
      unit Toy.rand (example_discriminator (Fin 0.5) false false) true tt
      [[[Fin 1; Fin 2; Fin 3]]] None
    = OK (observations', None, g')
    /\ length observations' = 1%nat.
Proof.
  eassert (H : DiverseNetworkVariational._saliency_dropout
                 unit Toy.rand (example_discriminator (Fin 0.5) false false) true tt
                 [[[Fin 1; Fin 2; Fin 3]]] None
               = OK (_, _, _))
    by (unfold DiverseNetworkVariational._saliency_dropout; settle_reals; reflexivity).
  do 2 eexists. split; [exact H |].
  exact (proj1 (proj2 (proj2 (saliency_dropout_keeps_or_blanks
                                unit Toy.rand _ _ _ _ _ _ _ _ H)))).
Defined.

Lemma constant_saliency_blanks_the_observation_witness :
  exists self' o' g',
    DiverseNetworkVariational.update_saliency
      (example_discriminator (Fin 0.5) false false)
      [repeat (Fin 2) 3; zeros 4] (zeros 3) = OK self'
    /\ DiverseNetworkVariational._saliency_dropout
         unit Toy.rand self' true tt [[[Fin 1; Fin 2; Fin 3]]] None
       = OK ([o'], None, g')
    /\ Forall (Forall (fun z => z = Fin 0.0001)) o'.
Proof.
  assert (H : DiverseNetworkVariational.update_saliency
                (example_discriminator (Fin 0.5) false false)
                [repeat (Fin 2) 3; zeros 4] (zeros 3)
              = OK (DiverseNetworkVariational.with_sal_drop
                      (example_discriminator (Fin 0.5) false false)
                      [repeat NaN 3] (zeros 3))).
  { unfold DiverseNetworkVariational.update_saliency.
    cbn [drop_index DiverseNetworkVariational.update_saliency_observations bind
         example_discriminator DiverseNetworkVariational.observations_sal_drop
         DiverseNetworkVariational.cont_actions_sal_drop
         DiverseNetworkVariational._max_saliency_dropout
         DiverseNetworkVariational._diverse_index Z.of_nat Z.eqb Pos.eqb
         Pos.of_succ_nat].
    rewrite any_constant by (lra || lia).
    rewrite saliency_drop_constant by lia.
    cbn [list_set bind DiverseNetworkVariational.update_saliency_observations].
    rewrite any_zeros. reflexivity. }
  eassert (Hd : DiverseNetworkVariational._saliency_dropout
                  unit Toy.rand
                  (DiverseNetworkVariational.with_sal_drop
                     (example_discriminator (Fin 0.5) false false)
                     [repeat NaN 3] (zeros 3))
                  true tt [[[Fin 1; Fin 2; Fin 3]]] None
                = OK ([_], None, _)) by reflexivity.
  do 3 eexists. split; [exact H |]. split; [exact Hd |].
  refine (constant_saliency_blanks_the_observation
            unit Toy.rand (example_discriminator (Fin 0.5) false false) _
            [repeat (Fin 2) 3; zeros 4] (zeros 3) 0 2 3 true tt _
            [[[Fin 1; Fin 2; Fin 3]]] _ None _ [[Fin 1; Fin 2; Fin 3]] _
            H eq_refl _ _ Hd eq_refl _ eq_refl).
  - lra.
  - lia.
  - repeat constructor; eexists; reflexivity.
Defined.

Lemma policy_loss_of_continuous_actions_witness :
  exists self,
    @TorchSACOptimizer.__init__ Toy.collaborators tt
      (Toy.policy false Toy.continuous_only) Toy.params = OK (self, tt)
    /\ @TorchSACOptimizer.sac_policy_loss
         Toy.collaborators self Toy.log_probs
         [("extrinsic"%string, mkTensor (Vec [Fin 0]) true)] [true]
         (mkTensor [Fin 0] false)
       = (policy_loss <-
            ModelUtils.masked_mean
              (T1 [Fin (exp (ln 1) * mean_R [-1] - 0 - 0)]) [true] ;;
          OK (mkTensor policy_loss true)).
Proof.
  eexists. split; [reflexivity |].
  refine (@policy_loss_of_continuous_actions
            Toy.collaborators _ Toy.log_probs "extrinsic"%string [0] [0]
            true true false [[-1]] [true] (ln 1) 0 _ _ _ _ _ _ _ _).
  - reflexivity.
  - cbn. lia.
  - cbn. apply fln_pos. lra.
  - reflexivity.
  - reflexivity.
  - reflexivity.
  - reflexivity.
  - constructor; [discriminate | constructor].
Defined.

Lemma entropy_loss_of_continuous_actions_witness :
  exists self,
    @TorchSACOptimizer.__init__ Toy.collaborators tt
      (Toy.policy false Toy.continuous_only) Toy.params = OK (self, tt)
    /\ @TorchSACOptimizer.sac_entropy_loss
         Toy.collaborators self Toy.log_probs [true]
       = (m <- ModelUtils.masked_mean
                 (T1 [Fin (ln 1 * fold_left Rplus [-1 + -1 * 1.0 * 1] 0)]) [true] ;;
          OK (Some (mkTensor (fadd (Fin 0) (fmul (Fin (-1)) m)) true))).
Proof.
  eexists. split; [reflexivity |].
  refine (@entropy_loss_of_continuous_actions
            Toy.collaborators _ Toy.log_probs [[-1]] [true] (ln 1) (-1 * 1.0 * 1)
            _ _ _ _ _).
  - reflexivity.
  - cbn. lia.
  - cbn. apply fln_pos. lra.
  - reflexivity.
  - reflexivity.
Defined.
